(** * aic-embeddings-demo: the search page and its proxy route

    A shallow embedding of [src/app/page.tsx] (the search controllers
    [handleSearch], [runInitialSearch] and [updateUrl], the mount effect and
    the rendering of the results of [ArtworkSearchContent], and the
    [handleSearch] of the second component) and of
    [src/app/api/artwork/route.tsx] (the proxy handler [GET]), together with
    the parts of the host platform they call: ECMAScript strings,
    [String.prototype.trim], [encodeURIComponent], [URL.searchParams],
    [Response], [JSON.stringify], the children of a React element, and the
    JSON values that travel between the two files.

    Modelling decisions:
    - a string is its sequence of UTF-16 code units, a natural number each;
    - a JSON number is a value of the engine ([JsEngine]), which also owns
      the message texts of the errors the platform raises;
    - [handleSearch], [runInitialSearch] and [GET] are followed from their
      first statement to their last with the answer of the network given.
      For [handleSearch] the two awaits are also made explicit
      ([handleSearch_call], [handleSearch_resume]), so that other handlers
      can run while a call is suspended; [handleSearch_uninterrupted]
      relates the two;
    - the body of a response is the JSON value a client parses from it;
    - what next/image does with the properties of an [Image] is outside the
      two files and is not embedded.

    Layout: the platform layer, the route, the page, the vocabulary of the
    statements, then the theorems. *)

From Stdlib Require Import NArith String Ascii.
From stdpp Require Import gmap list.

#[local] Set Warnings "-register-all".
#[local] Open Scope N_scope.

(* ===================================================================== *)
(** * ECMAScript strings *)
(* ===================================================================== *)

(** An ECMAScript string is a sequence of 16-bit code units.  Template
    literals and [+] are list append, the empty string is [[]], and a string
    is truthy exactly when it is not empty. *)
Abbreviation jsstr := (list N).

(** A literal of the source text (all literals of the two files are ASCII). *)
Definition lit (s : string) : jsstr := map N_of_ascii (list_ascii_of_string s).
Arguments lit s%_string.

Definition chr (c : ascii) : N := N_of_ascii c.
Arguments chr c%_char.

Definition str_eqb (a b : jsstr) : bool := bool_decide (a = b).

Definition str_truthy (s : jsstr) : bool :=
  match s with [] => false | _ :: _ => true end.

(** ** [String.prototype.trim]

    ECMAScript strips WhiteSpace and LineTerminator code units from both
    ends: TAB, LF, VT, FF, CR, SP, NBSP, U+1680, U+2000..U+200A, U+2028,
    U+2029, U+202F, U+205F, U+3000 and U+FEFF. *)
Definition is_white_space (c : N) : bool :=
  ((9 <=? c) && (c <=? 13)) || (c =? 32) || (c =? 160) || (c =? 5760)
  || ((8192 <=? c) && (c <=? 8202)) || (c =? 8232) || (c =? 8233)
  || (c =? 8239) || (c =? 8287) || (c =? 12288) || (c =? 65279).

Fixpoint trimStart (s : jsstr) : jsstr :=
  match s with
  | c :: t => if is_white_space c then trimStart t else s
  | [] => []
  end.

Definition trimEnd (s : jsstr) : jsstr := rev (trimStart (rev s)).

Definition trim (s : jsstr) : jsstr := trimEnd (trimStart s).

(** ** [apiUrl.replace(/\/$/, '')]

    The pattern has no [m] flag, so [$] matches at the end of the input only:
    one trailing slash is removed, if there is one. *)
Fixpoint replace_trailing_slash (s : jsstr) : jsstr :=
  match s with
  | [] => []
  | [c] => if c =? chr "/" then [] else [c]
  | c :: t => c :: replace_trailing_slash t
  end.

(** ** UTF-16 and UTF-8 *)

Definition is_lead_surrogate (c : N) : bool := (55296 <=? c) && (c <=? 56319).
Definition is_trail_surrogate (c : N) : bool := (56320 <=? c) && (c <=? 57343).

(** The code point of a surrogate pair. *)
Definition surrogate_pair (hi lo : N) : N :=
  (hi - 55296) * 1024 + (lo - 56320) + 65536.

(** The code units of a code point. *)
Definition utf16_units (cp : N) : jsstr :=
  if cp <? 65536 then [cp]
  else [55296 + N.shiftr (cp - 65536) 10; 56320 + N.land (cp - 65536) 1023].

(** The UTF-8 octets of a code point. *)
Definition utf8_octets (cp : N) : list N :=
  if cp <? 128 then [cp]
  else if cp <? 2048 then
    [N.lor 192 (N.shiftr cp 6); N.lor 128 (N.land cp 63)]
  else if cp <? 65536 then
    [N.lor 224 (N.shiftr cp 12); N.lor 128 (N.land (N.shiftr cp 6) 63);
     N.lor 128 (N.land cp 63)]
  else
    [N.lor 240 (N.shiftr cp 18); N.lor 128 (N.land (N.shiftr cp 12) 63);
     N.lor 128 (N.land (N.shiftr cp 6) 63); N.lor 128 (N.land cp 63)].

Definition hex_digit (n : N) : N := if n <? 10 then 48 + n else 55 + n.

(** ["%XX"], upper-case, for one octet: its high and its low four bits. *)
Definition percent_octet (b : N) : jsstr :=
  [chr "%"; hex_digit (N.land (N.shiftr b 4) 15); hex_digit (N.land b 15)].

Definition percent_octets (bs : list N) : jsstr := List.concat (map percent_octet bs).

Definition is_ascii_alpha (c : N) : bool :=
  ((65 <=? c) && (c <=? 90)) || ((97 <=? c) && (c <=? 122)).
Definition is_ascii_digit (c : N) : bool := (48 <=? c) && (c <=? 57).

(** ** [encodeURIComponent]

    ECMAScript's [Encode] with the unreserved set of [encodeURIComponent]:
    letters, digits and [- _ . ! ~ * ' ( )] are copied, every other code
    point is written as the percent-escapes of its UTF-8 octets.  An unpaired
    surrogate makes the call throw a [URIError]: that is [None] here. *)
Definition uri_unreserved (c : N) : bool :=
  is_ascii_alpha c || is_ascii_digit c
  || (c =? chr "-") || (c =? chr "_") || (c =? chr ".") || (c =? chr "!")
  || (c =? chr "~") || (c =? chr "*") || (c =? chr "'") || (c =? chr "(")
  || (c =? chr ")").

Fixpoint encodeURIComponent (s : jsstr) : option jsstr :=
  match s with
  | [] => Some []
  | c :: t =>
      if uri_unreserved c then cons c <$> encodeURIComponent t
      else if is_lead_surrogate c then
        match t with
        | d :: t' =>
            if is_trail_surrogate d
            then app (percent_octets (utf8_octets (surrogate_pair c d)))
                   <$> encodeURIComponent t'
            else None
        | [] => None
        end
      else if is_trail_surrogate c then None
      else app (percent_octets (utf8_octets c)) <$> encodeURIComponent t
  end.

(** ** URL query strings

    [new URL(request.url).searchParams] and [URLSearchParams.toString()], as
    the URL standard defines them (application/x-www-form-urlencoded). *)

(** The UTF-8 octets of a string; an unpaired surrogate is written as
    U+FFFD, as the conversion to a scalar-value string does. *)
Fixpoint utf8_encode (s : jsstr) : list N :=
  match s with
  | [] => []
  | c :: t =>
      if is_lead_surrogate c then
        match t with
        | d :: t' =>
            if is_trail_surrogate d
            then utf8_octets (surrogate_pair c d) ++ utf8_encode t'
            else utf8_octets 65533 ++ utf8_encode t
        | [] => utf8_octets 65533
        end
      else if is_trail_surrogate c then utf8_octets 65533 ++ utf8_encode t
      else utf8_octets c ++ utf8_encode t
  end.

Definition hex_value (c : N) : option N :=
  if is_ascii_digit c then Some (c - 48)
  else if (65 <=? c) && (c <=? 70) then Some (c - 55)
  else if (97 <=? c) && (c <=? 102) then Some (c - 87)
  else None.

(** Percent-decoding of a byte sequence: a [%] that is not followed by two
    hexadecimal digits stands for itself. *)
Fixpoint percent_decode (bs : list N) : list N :=
  match bs with
  | [] => []
  | b :: t =>
      if b =? chr "%" then
        match t with
        | h1 :: h2 :: t' =>
            match hex_value h1, hex_value h2 with
            | Some a, Some c => (16 * a + c) :: percent_decode t'
            | _, _ => b :: percent_decode t
            end
        | _ => b :: percent_decode t
        end
      else b :: percent_decode t
  end.

(** The UTF-8 decoder of the Encoding standard: a malformed sequence yields
    U+FFFD and the offending byte is read again as the start of a sequence. *)
Record utf8_state := Utf8State {
  u8_code_point : N;
  u8_seen : N;
  u8_needed : N;
  u8_lower : N;
  u8_upper : N
}.

Definition utf8_initial : utf8_state := Utf8State 0 0 0 128 191.

(** A byte read while no sequence is open: the code points it completes and
    the state it leaves. *)
Definition utf8_lead (b : N) : list N * utf8_state :=
  if b <=? 127 then ([b], utf8_initial)
  else if (194 <=? b) && (b <=? 223) then
    ([], Utf8State (N.land b 31) 0 1 128 191)
  else if (224 <=? b) && (b <=? 239) then
    ([], Utf8State (N.land b 15) 0 2
           (if b =? 224 then 160 else 128) (if b =? 237 then 159 else 191))
  else if (240 <=? b) && (b <=? 244) then
    ([], Utf8State (N.land b 7) 0 3
           (if b =? 240 then 144 else 128) (if b =? 244 then 143 else 191))
  else ([65533], utf8_initial).

Fixpoint utf8_decode_from (st : utf8_state) (bs : list N) : list N :=
  match bs with
  | [] => if u8_needed st =? 0 then [] else [65533]
  | b :: t =>
      if u8_needed st =? 0 then
        let '(out, st') := utf8_lead b in out ++ utf8_decode_from st' t
      else if (u8_lower st <=? b) && (b <=? u8_upper st) then
        let cp := N.lor (N.shiftl (u8_code_point st) 6) (N.land b 63) in
        if u8_seen st + 1 =? u8_needed st
        then cp :: utf8_decode_from utf8_initial t
        else utf8_decode_from
               (Utf8State cp (u8_seen st + 1) (u8_needed st) 128 191) t
      else
        let '(out, st') := utf8_lead b in
        65533 :: out ++ utf8_decode_from st' t
  end.

(** "UTF-8 decode without BOM" of the Encoding standard, which the URL
    standard prescribes for names and values: the decoder is run on all the
    bytes, so a leading EF BB BF is read as U+FEFF like anywhere else.  The
    code points are returned as a string. *)
Definition utf8_decode_without_BOM (bs : list N) : jsstr :=
  List.concat (map utf16_units (utf8_decode_from utf8_initial bs)).

(** Splitting at every occurrence of a separator. *)
Fixpoint split_on (sep : N) (bs : list N) : list (list N) :=
  match bs with
  | [] => [[]]
  | b :: t =>
      match split_on sep t with
      | piece :: pieces =>
          if b =? sep then [] :: piece :: pieces else (b :: piece) :: pieces
      | [] => [[b]]
      end
  end.

(** Splitting at the first occurrence of a separator, if there is one. *)
Fixpoint split_first (sep : N) (bs : list N) : option (list N * list N) :=
  match bs with
  | [] => None
  | b :: t =>
      if b =? sep then Some ([], t)
      else match split_first sep t with
           | Some (l, r) => Some (b :: l, r)
           | None => None
           end
  end.

Definition plus_to_space (bs : list N) : list N :=
  map (fun b => if b =? chr "+" then chr " " else b) bs.

Definition urlencoded_decode (bs : list N) : jsstr :=
  utf8_decode_without_BOM (percent_decode (plus_to_space bs)).

(** The application/x-www-form-urlencoded parser. *)
Definition urlencoded_parse (query : jsstr) : list (jsstr * jsstr) :=
  flat_map
    (fun piece =>
       match piece with
       | [] => []
       | _ :: _ =>
           let '(name, value) :=
             match split_first (chr "=") piece with
             | Some nv => nv
             | None => (piece, [])
             end in
           [(urlencoded_decode name, urlencoded_decode value)]
       end)
    (split_on (chr "&") (utf8_encode query)).

(** The query of a serialized URL: what follows the first [?] that comes
    before any [#], up to that [#]. *)
Definition URL_query (url : jsstr) : jsstr :=
  let before_fragment :=
    match split_first (chr "#") url with
    | Some (l, _) => l
    | None => url
    end in
  match split_first (chr "?") before_fragment with
  | Some (_, q) => q
  | None => []
  end.

Definition URL_searchParams (url : jsstr) : list (jsstr * jsstr) :=
  urlencoded_parse (URL_query url).

(** [searchParams.get(name)]: the value of the first pair of that name, or
    [null]. *)
Fixpoint searchParams_get (name : jsstr) (params : list (jsstr * jsstr))
  : option jsstr :=
  match params with
  | [] => None
  | (n, v) :: rest =>
      if str_eqb n name then Some v else searchParams_get name rest
  end.

(** [params.set(name, value)]: the first pair of that name takes the value
    and the later ones are removed; a new name is appended. *)
Fixpoint searchParams_set (name value : jsstr) (params : list (jsstr * jsstr))
  : list (jsstr * jsstr) :=
  match params with
  | [] => [(name, value)]
  | (n, v) :: rest =>
      if str_eqb n name
      then (n, value) :: filter (fun nv => negb (str_eqb (fst nv) name)) rest
      else (n, v) :: searchParams_set name value rest
  end.

(** The urlencoded byte serializer: space becomes [+]; letters, digits and
    [* - . _] are copied; every other octet is percent-escaped. *)
Definition urlencoded_byte (b : N) : jsstr :=
  if b =? chr " " then [chr "+"]
  else if is_ascii_alpha b || is_ascii_digit b || (b =? chr "*")
          || (b =? chr "-") || (b =? chr ".") || (b =? chr "_")
  then [b]
  else percent_octet b.

Definition urlencoded_serialize (s : jsstr) : jsstr :=
  List.concat (map urlencoded_byte (utf8_encode s)).

Fixpoint join (sep : jsstr) (parts : list jsstr) : jsstr :=
  match parts with
  | [] => []
  | [p] => p
  | p :: rest => p ++ sep ++ join sep rest
  end.

(** [params.toString()]. *)
Definition searchParams_toString (params : list (jsstr * jsstr)) : jsstr :=
  join [chr "&"]
    (map (fun nv => urlencoded_serialize (fst nv) ++ [chr "="]
                      ++ urlencoded_serialize (snd nv)) params).

(* ===================================================================== *)
(** * Exceptions, JSON values and the host engine *)
(* ===================================================================== *)

(** The errors the platform raises in the two files.  Their message texts
    differ from engine to engine and are left to [JsEngine]. *)
Inductive builtin_error :=
| URIError_malformed                         (* encodeURIComponent, unpaired surrogate *)
| TypeError_property_of_null (prop : jsstr)  (* null.prop *)
| TypeError_to_primitive                     (* an object without a usable toString *)
| TypeError_in_operand                       (* 'k' in v, v not an object *)
| RangeError_status (status : N)             (* Response init, status outside 200..599 *)
| TypeError_null_body_status (status : N).   (* Response init, body with 204, 205, 304 *)

(** A thrown value: [new Error(message)] (thrown by the program, or by the
    environment with a message of its own), an error of the platform, or a
    value that is no [Error] at all. *)
Inductive exn :=
| Error (message : jsstr)
| Builtin (e : builtin_error)
| NotAnError.

(** What the model leaves to the engine: IEEE numbers (their truthiness,
    their conversion to a string, and what [JSON.stringify] makes of them)
    and the message texts of built-in errors.

    [number_to_JSON n] is the number that [JSON.parse] reads back from what
    [JSON.stringify] writes for [n]: a finite number is written in digits
    (and [-0] as [0]); an infinity, which [JSON.parse] gives for a literal
    beyond the range such as [1e999], is written as [null], and that is
    [None] here. *)
Class JsEngine := {
  number : Type;
  number_ToBoolean : number -> bool;
  number_ToString : number -> jsstr;
  number_to_JSON : number -> option number;
  builtin_message : builtin_error -> jsstr
}.

(** [err instanceof Error ? err.message : undefined]. *)
Definition exn_message `{JsEngine} (e : exn) : option jsstr :=
  match e with
  | Error m => Some m
  | Builtin b => Some (builtin_message b)
  | NotAnError => None
  end.

(** A value produced by [JSON.parse] (what [response.json()] resolves to).
    An object is a finite map from its own keys to their values. *)
Inductive json `{JsEngine} : Type :=
| JNull
| JBool (b : bool)
| JNum (n : number)
| JStr (s : jsstr)
| JArr (elements : list json)
| JObj (fields : gmap (list N) json).

Section Values.
Context `{JsEngine}.

(** ECMAScript's ToBoolean; [undefined] is [None] in [option json]. *)
Definition ToBoolean (v : json) : bool :=
  match v with
  | JNull => false
  | JBool b => b
  | JNum n => number_ToBoolean n
  | JStr s => str_truthy s
  | JArr _ | JObj _ => true
  end.

Definition truthy (v : option json) : bool :=
  match v with Some j => ToBoolean j | None => false end.

(** ECMAScript's ToString on a parsed value.  An array is joined with
    commas, [null] elements giving the empty string; a plain object gives
    ["[object Object]"], unless an own [toString] key (never callable in
    parsed JSON) hides [Object.prototype.toString], which is a
    [TypeError]. *)
Fixpoint ToString (v : json) : exn + jsstr :=
  match v with
  | JNull => inr (lit "null")
  | JBool b => inr (if b then lit "true" else lit "false")
  | JNum n => inr (number_ToString n)
  | JStr s => inr s
  | JArr elements =>
      (fix join_elements (l : list json) : exn + jsstr :=
         match l with
         | [] => inr []
         | x :: rest =>
             match (match x with JNull => inr [] | _ => ToString x end) with
             | inl e => inl e
             | inr sx =>
                 match rest with
                 | [] => inr sx
                 | _ :: _ =>
                     match join_elements rest with
                     | inl e => inl e
                     | inr sr => inr (sx ++ [chr ","] ++ sr)
                     end
                 end
             end
         end) elements
  | JObj fields =>
      match fields !! lit "toString" with
      | None => inr (lit "[object Object]")
      | Some _ => inl (Builtin TypeError_to_primitive)
      end
  end.

(** [v.key] for a key that no prototype defines (all keys read by the page
    are such: [error], [detail], [count], [items], [similarity_scores]).
    Reading a property of [null] throws; a primitive or an array has no
    such property. *)
Definition Get (v : json) (key : jsstr) : exn + option json :=
  match v with
  | JNull => inl (Builtin (TypeError_property_of_null key))
  | JObj fields => inr (fields !! key)
  | _ => inr None
  end.

(** ['key' in v] for such a key: the operand must be an object. *)
Definition HasProperty (key : jsstr) (v : json) : exn + bool :=
  match v with
  | JObj fields => inr (bool_decide (is_Some (fields !! key)))
  | JArr _ => inr false
  | _ => inl (Builtin TypeError_in_operand)
  end.

(** The object literal [{ error: message }]. *)
Definition error_payload (message : jsstr) : json :=
  JObj {[ lit "error" := JStr message ]}.

(** [JSON.parse(JSON.stringify(v))] for a parsed value [v]: the value a
    client reads from a body that [Response.json(v)] has written.  Strings,
    keys, booleans and [null] come back as they are; a number comes back as
    [number_to_JSON] says. *)
Fixpoint JSON_roundtrip (v : json) : json :=
  match v with
  | JNull => JNull
  | JBool b => JBool b
  | JNum n => match number_to_JSON n with Some n' => JNum n' | None => JNull end
  | JStr s => JStr s
  | JArr elements => JArr (map JSON_roundtrip elements)
  | JObj fields => JObj (JSON_roundtrip <$> fields)
  end.

(** The values in which every number is written by [JSON.stringify] as
    itself. *)
Inductive JSON_exact : json -> Prop :=
| exact_null : JSON_exact JNull
| exact_bool b : JSON_exact (JBool b)
| exact_number n : number_to_JSON n = Some n -> JSON_exact (JNum n)
| exact_string s : JSON_exact (JStr s)
| exact_array elements : Forall JSON_exact elements -> JSON_exact (JArr elements)
| exact_object fields :
    map_Forall (fun _ v => JSON_exact v) fields -> JSON_exact (JObj fields).
End Values.

(** ** The Fetch API *)

(** A response as the callers see it: its status and what
    [await response.json()] gives, a parsed value or the exception of the
    parser. *)
Record Response `{JsEngine} := {
  status : N;
  json_body : exn + json
}.

(** [response.ok]. *)
Definition ok `{JsEngine} (r : Response) : bool :=
  (200 <=? status r) && (status r <=? 299).

(** [await fetch(...)]: the promise rejects or resolves to a response. *)
Inductive FetchResult `{JsEngine} :=
| Rejects (e : exn)
| Resolves (r : Response).

(** ** Computations

    A computation threads a state and either returns or throws. *)
Definition Exec (S A : Type) : Type := S -> (exn + A) * S.

#[global] Instance Exec_ret {S} : MRet (Exec S) :=
  fun A a s => (inr a, s).
#[global] Instance Exec_bind {S} : MBind (Exec S) :=
  fun A B f c s =>
    match c s with
    | (inr a, s') => f a s'
    | (inl e, s') => (inl e, s')
    end.

#[global] Instance result_bind : MBind (sum exn) :=
  fun A B f r => match r with inr a => f a | inl e => inl e end.

Definition throw {S A} (e : exn) : Exec S A := fun s => (inl e, s).

(** A value or an exception of a pure platform call. *)
Definition lift {S A} (r : exn + A) : Exec S A := fun s => (r, s).

Definition get_state {S} : Exec S S := fun s => (inr s, s).
Definition modify {S} (f : S -> S) : Exec S unit := fun s => (inr tt, f s).

(** [try { body } catch (err) { handler }]. *)
Definition try_catch {S A} (body : Exec S A) (handler : exn -> Exec S A)
  : Exec S A :=
  fun s =>
    match body s with
    | (inr a, s') => (inr a, s')
    | (inl e, s') => handler e s'
    end.

(** [try { body } finally { cleanup }]: the cleanup runs either way and the
    outcome of the body stands, unless the cleanup itself throws. *)
Definition try_finally {S A} (body : Exec S A) (cleanup : Exec S unit)
  : Exec S A :=
  fun s =>
    match body s with
    | (r, s') =>
        match cleanup s' with
        | (inr _, s'') => (r, s'')
        | (inl e, s'') => (inl e, s'')
        end
    end.

(* ===================================================================== *)
(** * The proxy route: src/app/api/artwork/route.tsx *)
(* ===================================================================== *)

(** The inbound request, as far as the handler reads it. *)
Record Request := { url : jsstr }.

(** An outbound [fetch(url, { method, headers })]. *)
Record Outbound := {
  out_url : jsstr;
  out_method : jsstr;
  out_headers : list (jsstr * jsstr)
}.

(** What the handler leaves behind: the outbound calls it made and the
    errors it logged with [console.error], in order. *)
Record Server := {
  outbound : list Outbound;
  logged : list exn
}.

Definition idle_server : Server := {| outbound := []; logged := [] |}.

(** A JSON response built by [NextResponse.json]: its status, and its body
    as the value a client parses from it. *)
Record NextResponse `{JsEngine} := {
  nr_status : N;
  nr_body : json
}.

Section Route.
Context `{JsEngine}.

(** The server's [fetch]: what the upstream answers to an outbound call. *)
Variable upstream : Outbound -> FetchResult.

(** The value of the [Authorization] header: ["Bearer "] followed by the
    static token of line 26, which is not reproduced here. *)
Variable authorization : jsstr.

Definition null_body_status (s : N) : bool :=
  (s =? 101) || (s =? 103) || (s =? 204) || (s =? 205) || (s =? 304).

(** [NextResponse.json(data, { status })] is [Response.json]: the Fetch
    standard makes it throw a [RangeError] for a status outside 200..599
    and a [TypeError] for a body with a null-body status.  Without
    [{ status }] the status is 200.  The body is the text
    [JSON.stringify(data)], so what a client parses from it is
    [JSON_roundtrip data]. *)
Definition NextResponse_json (data : json) (init_status : option N)
  : exn + NextResponse :=
  let s := default 200 init_status in
  if negb ((200 <=? s) && (s <=? 599)) then inl (Builtin (RangeError_status s))
  else if null_body_status s then inl (Builtin (TypeError_null_body_status s))
  else inr {| nr_status := s; nr_body := JSON_roundtrip data |}.

Definition server_fetch (u : jsstr) (method : jsstr)
    (headers : list (jsstr * jsstr)) : Exec Server Response :=
  fun s =>
    let call := {| out_url := u; out_method := method; out_headers := headers |} in
    let s' := {| outbound := outbound s ++ [call]; logged := logged s |} in
    match upstream call with
    | Rejects e => (inl e, s')
    | Resolves r => (inr r, s')
    end.

Definition console_error (e : exn) : Exec Server unit :=
  modify (fun s => {| outbound := outbound s; logged := logged s ++ [e] |}).

(** The body of the [try] block, lines 5 to 36. *)
Definition GET_try (request : Request) : Exec Server NextResponse :=
  let searchParams := URL_searchParams (url request) in
  let baseUrl := searchParams_get (lit "apiUrl") searchParams in
  let path := searchParams_get (lit "path") searchParams in
  match path with
  | None | Some [] =>
      lift (NextResponse_json (error_payload (lit "Path is required")) (Some 400))
  | Some path =>
      match baseUrl with
      | None | Some [] =>
          lift (NextResponse_json (error_payload (lit "API URL is required")) (Some 400))
      | Some baseUrl =>
          let url := baseUrl ++ path in
          response ← server_fetch url (lit "GET")
            [(lit "Accept", lit "application/json");
             (lit "Authorization", authorization)];
          data ← lift (json_body response);
          if negb (ok response)
          then lift (NextResponse_json data (Some (status response)))
          else lift (NextResponse_json data None)
      end
  end.

(** [export async function GET(request)]. *)
Definition GET (request : Request) : Exec Server NextResponse :=
  try_catch (GET_try request)
    (fun error =>
       console_error error;;
       lift (NextResponse_json (error_payload (lit "Failed to fetch results")) (Some 500))).
End Route.

(* ===================================================================== *)
(** * The search page: src/app/page.tsx, ArtworkSearchContent *)
(* ===================================================================== *)

(** The state values [handleSearch] closes over (its [useCallback]
    dependencies).  [queryType] is a string at run time: the union type
    ['semantic' | 'nearest_neighbor' | 'similarity'] is only a cast of the
    select's value. *)
Record Inputs := {
  apiUrl : jsstr;
  queryType : jsstr;
  searchQuery : jsstr;
  artworkId : jsstr;
  compareId : jsstr
}.

(** The state the search writes: the [useState] cells [results], [loading],
    [error] and [debugUrl], and the browser around them. *)
Record Browser `{JsEngine} := {
  results : option json;
  loading : bool;
  error : option jsstr;
  debugUrl : jsstr;
  pathname : jsstr;          (* window.location.pathname *)
  pushed : list jsstr;       (* URLs handed to history.pushState, in order *)
  requests : list jsstr;     (* URLs handed to fetch, in order *)
  console : list exn         (* values logged with console.error, in order *)
}.

(** The writes to that state, one field at a time. *)
Section Updates.
Context `{JsEngine}.

Definition set_results (r : option json) (b : Browser) : Browser :=
  {| results := r; loading := loading b; error := error b;
     debugUrl := debugUrl b; pathname := pathname b; pushed := pushed b;
     requests := requests b; console := console b |}.

Definition set_loading (l : bool) (b : Browser) : Browser :=
  {| results := results b; loading := l; error := error b;
     debugUrl := debugUrl b; pathname := pathname b; pushed := pushed b;
     requests := requests b; console := console b |}.

Definition set_error (e : option jsstr) (b : Browser) : Browser :=
  {| results := results b; loading := loading b; error := e;
     debugUrl := debugUrl b; pathname := pathname b; pushed := pushed b;
     requests := requests b; console := console b |}.

Definition set_debugUrl (d : jsstr) (b : Browser) : Browser :=
  {| results := results b; loading := loading b; error := error b;
     debugUrl := d; pathname := pathname b; pushed := pushed b;
     requests := requests b; console := console b |}.

Definition add_pushed (u : jsstr) (b : Browser) : Browser :=
  {| results := results b; loading := loading b; error := error b;
     debugUrl := debugUrl b; pathname := pathname b;
     pushed := pushed b ++ [u];
     requests := requests b; console := console b |}.

Definition add_request (u : jsstr) (b : Browser) : Browser :=
  {| results := results b; loading := loading b; error := error b;
     debugUrl := debugUrl b; pathname := pathname b; pushed := pushed b;
     requests := requests b ++ [u]; console := console b |}.

Definition add_logged (e : exn) (b : Browser) : Browser :=
  {| results := results b; loading := loading b; error := error b;
     debugUrl := debugUrl b; pathname := pathname b; pushed := pushed b;
     requests := requests b; console := console b ++ [e] |}.
End Updates.

(** The branch the [results &&] block takes, with the properties the branch
    reads from the payload; [rendered_results] goes on from there to the
    markup. *)
Inductive results_view `{JsEngine} :=
| NoResults
| RenderedNumber (text : jsstr)
| ItemGrid (count : option json) (items : option json)
| ScoreList (similarity_scores : option json)
| RenderError (e : exn).

(** What is put on the screen: text, the boxes that hold it ([div], [p],
    [b], [h2]), a link, the [Image] of next/image with its [src] and [alt]
    properties, and the two formatted numbers, [n.toFixed(4)] and
    [parseFloat(s).toFixed(4)], which are not worked out here. *)
Inductive markup `{JsEngine} :=
| Text (s : jsstr)
| Box (children : list markup)
| Link (href : jsstr) (children : list markup)
| Picture (src alt : json)
| Fixed4 (n : number)
| ParsedFixed4 (s : jsstr).

(** The outcome of rendering the [results &&] block.  [Crashes]: the
    component throws a [TypeError] while it builds its elements, or React
    refuses one of the children ("Objects are not valid as a React child");
    either way nothing of the results is displayed. *)
Inductive rendering `{JsEngine} :=
| ShowsNothing
| ShowsNumber (text : jsstr)
| ShowsGrid (found : list markup) (cards : list markup)
| ShowsScores (rows : list markup)
| Crashes.

Section Page.
Context `{JsEngine}.

(** The browser's [fetch]: what the network answers to a request URL. *)
Variable network : jsstr -> FetchResult.

Definition defaultApiUrl : jsstr := lit "https://api-test.artic.edu".

Definition setResults (r : option json) : Exec Browser unit :=
  modify (set_results r).
Definition setLoading (l : bool) : Exec Browser unit :=
  modify (set_loading l).
Definition setError (e : option jsstr) : Exec Browser unit :=
  modify (set_error e).
Definition setDebugUrl (d : jsstr) : Exec Browser unit :=
  modify (set_debugUrl d).

(** [window.history.pushState({ path: u }, '', u)]. *)
Definition pushState (u : jsstr) : Exec Browser unit :=
  modify (add_pushed u).

Definition page_console_error (e : exn) : Exec Browser unit :=
  modify (add_logged e).

Definition page_fetch (u : jsstr) : Exec Browser Response :=
  fun b =>
    match network u with
    | Rejects e => (inl e, add_request u b)
    | Resolves r => (inr r, add_request u b)
    end.

(** [encodeURIComponent] as an expression that may throw. *)
Definition uri_component (s : jsstr) : exn + jsstr :=
  match encodeURIComponent s with
  | Some e => inr e
  | None => inl (Builtin URIError_malformed)
  end.

(** [updateUrl], lines 111 to 134. *)
Definition updateUrl (inp : Inputs) : Exec Browser unit :=
  let params := searchParams_set (lit "type") (queryType inp) [] in
  let params :=
    if str_eqb (queryType inp) (lit "semantic") && str_truthy (searchQuery inp)
    then searchParams_set (lit "q") (searchQuery inp) params else params in
  let params :=
    if (str_eqb (queryType inp) (lit "nearest_neighbor")
        || str_eqb (queryType inp) (lit "similarity"))
       && str_truthy (artworkId inp)
    then searchParams_set (lit "id") (artworkId inp) params else params in
  let params :=
    if str_eqb (queryType inp) (lit "similarity") && str_truthy (compareId inp)
    then searchParams_set (lit "compareId") (compareId inp) params else params in
  let params :=
    if negb (str_eqb (apiUrl inp) defaultApiUrl)
    then searchParams_set (lit "api") (apiUrl inp) params else params in
  b ← get_state;
  let newUrl := pathname b ++ lit "?" ++ searchParams_toString params in
  pushState newUrl.

(** The [switch] of [handleSearch], lines 152 to 173: the value of
    [apiPath] when control leaves it, or the exception thrown inside. *)
Definition apiPath_switch (inp : Inputs) : exn + jsstr :=
  if str_eqb (queryType inp) (lit "semantic") then
    if negb (str_truthy (trim (searchQuery inp)))
    then inl (Error (lit "Search query is required"))
    else
      q ← uri_component (trim (searchQuery inp));
      inr (lit "/ai/v1/artworks/search?q=" ++ q)
  else if str_eqb (queryType inp) (lit "nearest_neighbor") then
    if negb (str_truthy (trim (artworkId inp)))
    then inl (Error (lit "Artwork ID is required"))
    else
      id ← uri_component (trim (artworkId inp));
      inr (lit "/ai/v1/artworks/" ++ id ++ lit "/nearest?limit=30")
  else if str_eqb (queryType inp) (lit "similarity") then
    if negb (str_truthy (trim (artworkId inp)))
       || negb (str_truthy (trim (compareId inp)))
    then inl (Error (lit "Both artwork IDs are required for similarity search"))
    else
      id1 ← uri_component (trim (artworkId inp));
      id2 ← uri_component (trim (compareId inp));
      inr (lit "/ai/v1/artworks/" ++ id1 ++ lit "/similarity/" ++ id2)
  else inl (Error (lit "Invalid search type")).

(** [data.error || data.detail || 'Failed to fetch results']. *)
Definition failure_reason (data : json) : exn + json :=
  e ← Get data (lit "error");
  if truthy e then inr (default JNull e)
  else
    d ← Get data (lit "detail");
    if truthy d then inr (default JNull d)
    else inr (JStr (lit "Failed to fetch results")).

(** [throw new Error(v)]: the message is [v] converted to a string. *)
Definition throw_new_Error {A} (v : json) : Exec Browser A :=
  message ← lift (ToString v);
  throw (Error message).

(** The body of the [try] block of [handleSearch], lines 148 to 185. *)
Definition handleSearch_try (inp : Inputs) : Exec Browser unit :=
  let baseUrl := replace_trailing_slash (apiUrl inp) in
  apiPath ← lift (apiPath_switch inp);
  encoded ← lift (uri_component apiPath);
  let url := lit "/api/artwork?path=" ++ encoded in
  setDebugUrl (baseUrl ++ apiPath);;
  response ← page_fetch url;
  data ← lift (json_body response);
  (if negb (ok response)
   then reason ← lift (failure_reason data); throw_new_Error reason
   else mret tt);;
  setResults (Some data).

(** The [catch] block, lines 186 to 192. *)
Definition handleSearch_catch (err : exn) : Exec Browser unit :=
  let errorMessage :=
    default (lit "Failed to fetch results") (exn_message err) in
  setError (Some errorMessage);;
  page_console_error err.

(** [handleSearch], lines 137 to 196. *)
Definition handleSearch (inp : Inputs) (updateUrlFlag : bool)
  : Exec Browser unit :=
  setResults None;;
  setLoading true;;
  setError None;;
  setDebugUrl [];;
  (if updateUrlFlag then updateUrl inp else mret tt);;
  try_finally
    (try_catch (handleSearch_try inp) handleSearch_catch)
    (setLoading false).

(** ** The awaits of [handleSearch]

    An [async] function runs up to its first [await] when it is called; the
    rest runs later, when the awaited promise has settled, and other
    handlers may run in between.  [handleSearch] awaits twice: [fetch(url)]
    on line 178 and [response.json()] on line 179. *)

(** Where a call of [handleSearch] is suspended. *)
Inductive suspended :=
| AtFetch (url : jsstr)
| AtJson (response : Response).

(** The [try] block up to the call of [fetch], lines 148 to 178. *)
Definition handleSearch_to_fetch (inp : Inputs) : Exec Browser jsstr :=
  let baseUrl := replace_trailing_slash (apiUrl inp) in
  apiPath ← lift (apiPath_switch inp);
  encoded ← lift (uri_component apiPath);
  let url := lit "/api/artwork?path=" ++ encoded in
  setDebugUrl (baseUrl ++ apiPath);;
  modify (add_request url);;
  mret url.

(** The [try] block from the value of [response.json()] on, lines 179 to
    185. *)
Definition handleSearch_from_json (response : Response) : Exec Browser unit :=
  data ← lift (json_body response);
  (if negb (ok response)
   then reason ← lift (failure_reason data); throw_new_Error reason
   else mret tt);;
  setResults (Some data).

(** The [catch] block followed by the [finally] block, for an exception
    that leaves the [try] block. *)
Definition handleSearch_fails (err : exn) (b : Browser) : Browser :=
  snd ((handleSearch_catch err;; setLoading false) b).

(** The call itself: the statements up to the first await, or up to the end
    when the [try] block throws before it. *)
Definition handleSearch_call (inp : Inputs) (updateUrlFlag : bool) (b : Browser)
  : option suspended * Browser :=
  let b0 :=
    snd ((setResults None;;
          setLoading true;;
          setError None;;
          setDebugUrl [];;
          (if updateUrlFlag then updateUrl inp else mret tt)) b) in
  match handleSearch_to_fetch inp b0 with
  | (inr url, b1) => (Some (AtFetch url), b1)
  | (inl e, b1) => (None, handleSearch_fails e b1)
  end.

(** The continuation of a suspended call, run when what it awaits has
    settled. *)
Definition handleSearch_resume (k : suspended) (b : Browser)
  : option suspended * Browser :=
  match k with
  | AtFetch url =>
      match network url with
      | Rejects e => (None, handleSearch_fails e b)
      | Resolves response => (Some (AtJson response), b)
      end
  | AtJson response =>
      (None,
       snd (try_finally
              (try_catch (handleSearch_from_json response) handleSearch_catch)
              (setLoading false) b))
  end.

(** [handleKeyPress], lines 199 to 204: the Enter key calls
    [handleSearch(true)], whether or not a search is under way. *)
Definition handleKeyPress (key : jsstr) (inp : Inputs) (b : Browser)
  : option suspended * Browser :=
  if str_eqb key (lit "Enter") then handleSearch_call inp true b else (None, b).

(** The [results &&] block of the JSX, lines 466 to 534. *)
Definition render_results (res : option json) : results_view :=
  match res with
  | None => NoResults
  | Some data =>
      if negb (ToBoolean data) then
        match data with
        | JNum n => RenderedNumber (number_ToString n)
        | _ => NoResults
        end
      else
        match HasProperty (lit "items") data with
        | inl e => RenderError e
        | inr true =>
            match Get data (lit "count"), Get data (lit "items") with
            | inr c, inr i => ItemGrid c i
            | inl e, _ | _, inl e => RenderError e
            end
        | inr false =>
            match Get data (lit "similarity_scores") with
            | inr sc => ScoreList sc
            | inl e => RenderError e
            end
        end
  end.

(** The [error &&] block, lines 460 to 464: an empty message shows
    nothing. *)
Definition render_error (err : option jsstr) : option jsstr :=
  match err with
  | Some (c :: m) => Some (c :: m)
  | _ => None
  end.

(** ** The markup of the results, lines 466 to 534

    In what follows [None] in the outer [option] is a crash of the render;
    a value that may be [undefined] is an [option json]. *)

(** A value between braces as a child of an element: React shows a string
    as it is and a number converted to a string, nothing for [undefined],
    [null], a boolean and the empty string, the children of an array one
    after the other, and refuses a plain object. *)
Fixpoint React_child (v : json) : option (list markup) :=
  match v with
  | JNull | JBool _ | JStr [] => Some []
  | JNum n => Some [Text (number_ToString n)]
  | JStr s => Some [Text s]
  | JArr elements =>
      (fix children (l : list json) : option (list markup) :=
         match l with
         | [] => Some []
         | x :: rest =>
             match React_child x, children rest with
             | Some shown, Some more => Some (shown ++ more)
             | _, _ => None
             end
         end) elements
  | JObj _ => None
  end.

Definition React_child_of (v : option json) : option (list markup) :=
  match v with
  | None => Some []
  | Some j => React_child j
  end.

(** [{v && element}]: the element when [v] is truthy, and else [v] itself
    as a child (so a [0] is shown). *)
Definition when_truthy (v : option json) (element : option (list markup))
  : option (list markup) :=
  if truthy v then element else React_child_of v.

(** [v.key] where [v] may be [undefined]: a [TypeError] for [undefined] and
    [null]; the keys read are defined by no prototype, so a primitive or an
    array has no such property. *)
Definition Get_property (v : option json) (key : jsstr) : option (option json) :=
  match v with
  | None | Some JNull => None
  | Some (JObj fields) => Some (fields !! key)
  | Some _ => Some None
  end.

(** [v?.key]. *)
Definition Get_optional (v : option json) (key : jsstr) : option json :=
  match v with
  | Some (JObj fields) => fields !! key
  | _ => None
  end.

(** A value in a template literal, or handed to [parseFloat] or used as a
    key: its conversion to a string, which throws for an object that hides
    [toString]. *)
Definition to_string (v : option json) : option jsstr :=
  match v with
  | None => Some (lit "undefined")
  | Some j => match ToString j with inr s => Some s | inl _ => None end
  end.

(** [description?.slice(0, 100) || "Artwork image"]: strings and arrays
    have a [slice]; on a number, a boolean or an object the call is a
    [TypeError]. *)
Definition alt_text (description : option json) : option json :=
  match description with
  | None | Some JNull => Some (JStr (lit "Artwork image"))
  | Some (JStr s) =>
      Some (JStr (match take 100 s with
                  | [] => lit "Artwork image"
                  | c :: t => c :: t
                  end))
  | Some (JArr elements) => Some (JArr (take 100 elements))
  | Some _ => None
  end.

(** The card of one item, lines 476 to 506. *)
Definition item_card (item : json) : option markup :=
  data ← Get_property (Some item) (lit "data");
  let image_url := Get_optional data (lit "image_url") in
  image ← when_truthy image_url
             (alt ← alt_text (Get_optional data (lit "description"));
              Some [Box [Picture (default JNull image_url) alt]]);
  model_id ← Get_property (Some item) (lit "model_id");
  href ← to_string model_id;
  shown_id ← React_child_of model_id;
  description ← Get_property data (lit "description");
  described ← when_truthy description
                 (d ← React_child_of description;
                  Some [Box (Box [Text (lit "Description:")] :: Text (lit " ") :: d)]);
  distance ← Get_property (Some item) (lit "distance");
  distanced ← when_truthy distance
                 (s ← to_string distance;
                  Some [Box [Text (lit "Distance: "); ParsedFixed4 s]]);
  embedding_type ← Get_property (Some item) (lit "embedding_type");
  typed ← when_truthy embedding_type
             (t ← React_child_of embedding_type;
              Some [Box (Text (lit "Type: ") :: t)]);
  id ← Get_property (Some item) (lit "id");
  _ ← match id with None => Some [] | Some _ => to_string id end;
  Some (Box [Box (image
                  ++ [Box [Link (lit "https://artic.edu/artworks/" ++ href)
                             (Text (lit "ID: ") :: shown_id)]]
                  ++ described ++ distanced ++ typed)]).

(** The row of one score, lines 516 to 530. *)
Definition score_row (score : json) : option markup :=
  embedding_type ← Get_property (Some score) (lit "embedding_type");
  t ← React_child_of embedding_type;
  similarity_score ← Get_property (Some score) (lit "similarity_score");
  n ← match similarity_score with Some (JNum n) => Some n | _ => None end;
  items ← Get_property (Some score) (lit "items");
  id1 ← Get_property items (lit "id1");
  shown1 ← React_child_of id1;
  id2 ← Get_property items (lit "id2");
  shown2 ← React_child_of id2;
  Some (Box [Box [Box (Text (lit "Type: ") :: t);
                  Box [Text (lit "Score: "); Fixed4 n]];
             Box (Text (lit "Artwork IDs: ") :: shown1
                  ++ Text (lit " " ++ [8596] ++ lit " ") :: shown2)]).

(** [v?.map(f)] and [v.map(f)] with such an [f]: the results for the
    elements of an array; [undefined] for [undefined] and [null] in the
    first; a [TypeError] otherwise. *)
Definition map_elements (optional : bool) (f : json -> option markup)
    (v : option json) : option (list markup) :=
  match v with
  | Some (JArr elements) => mapM f elements
  | None | Some JNull => if optional then Some [] else None
  | Some _ => None
  end.

(** The [results &&] block as it is shown. *)
Definition rendered_results (res : option json) : rendering :=
  match render_results res with
  | NoResults => ShowsNothing
  | RenderedNumber text => ShowsNumber text
  | ItemGrid count items =>
      match React_child_of count, map_elements true item_card items with
      | Some shown_count, Some cards =>
          ShowsGrid (Text (lit "Found ") :: shown_count ++ [Text (lit " results")])
                    cards
      | _, _ => Crashes
      end
  | ScoreList similarity_scores =>
      match map_elements false score_row similarity_scores with
      | Some rows => ShowsScores rows
      | None => Crashes
      end
  | RenderError _ => Crashes
  end.
End Page.

(** ** The page served by the route

    The network of a browser whose requests to the page's origin are
    answered by [GET]: the relative request URL is resolved against the
    origin, the handler runs, and its JSON response is what [fetch]
    resolves to. *)
Definition served_by_route `{JsEngine} (origin : jsstr)
    (upstream : Outbound -> FetchResult) (authorization : jsstr) (u : jsstr)
  : FetchResult :=
  match GET upstream authorization {| url := origin ++ u |} idle_server with
  | (inr resp, _) =>
      Resolves {| status := nr_status resp; json_body := inr (nr_body resp) |}
  | (inl e, _) => Rejects e
  end.

(** ** An engine to run examples on

    Its numbers are the integers a double holds exactly, those below 2^53 in
    magnitude, which are written in decimal digits, and the two infinities;
    its message texts are after those of V8 and undici (abridged where they
    quote an operand). *)
Fixpoint decimal_digits (fuel : nat) (n : N) (acc : jsstr) : jsstr :=
  match fuel with
  | O => acc
  | S fuel' =>
      let acc' := (48 + n mod 10) :: acc in
      if n <? 10 then acc' else decimal_digits fuel' (n / 10) acc'
  end.

Definition integer_ToString (z : Z) : jsstr :=
  let digits := decimal_digits (S (N.to_nat (N.log2 (Z.abs_N z)))) (Z.abs_N z) [] in
  if (z <? 0)%Z then chr "-" :: digits else digits.

Definition v8_message (e : builtin_error) : jsstr :=
  match e with
  | URIError_malformed => lit "URI malformed"
  | TypeError_property_of_null prop =>
      lit "Cannot read properties of null (reading '" ++ prop ++ lit "')"
  | TypeError_to_primitive => lit "Cannot convert object to primitive value"
  | TypeError_in_operand => lit "Cannot use 'in' operator to search for a key"
  | RangeError_status s =>
      lit "init[" ++ [34] ++ lit "status" ++ [34]
        ++ lit "] must be in the range of 200 to 599, inclusive."
  | TypeError_null_body_status s =>
      lit "Response constructor: Invalid response status code "
        ++ integer_ToString (Z.of_N s)
  end.

Inductive example_number :=
| Int (z : Z) (safe : (Z.abs z <? 9007199254740992)%Z = true)
| Infinity (negative : bool).

Definition example_engine : JsEngine := {|
  number := example_number;
  number_ToBoolean n :=
    match n with Int z _ => negb (z =? 0)%Z | Infinity _ => true end;
  number_ToString n :=
    match n with
    | Int z _ => integer_ToString z
    | Infinity negative =>
        if negative then lit "-Infinity" else lit "Infinity"
    end;
  number_to_JSON n :=
    match n with Int _ _ => Some n | Infinity _ => None end;
  builtin_message := v8_message
|}.

(* ===================================================================== *)
(** * Vocabulary of the statements *)
(* ===================================================================== *)

(** The code units [encodeURIComponent] can write. *)
Definition uri_written (c : N) : bool := uri_unreserved c || (c =? chr "%").

(** [String.prototype.isWellFormed]: every surrogate is half of a pair. *)
Fixpoint isWellFormed (s : jsstr) : bool :=
  match s with
  | [] => true
  | c :: t =>
      if is_lead_surrogate c then
        match t with
        | d :: t' => is_trail_surrogate d && isWellFormed t'
        | [] => false
        end
      else negb (is_trail_surrogate c) && isWellFormed t
  end.

(** ** The words of the specification

    "Trimmed": [t] is [s] without the white space at its two ends. *)
Definition trimmed (s t : jsstr) : Prop :=
  exists before after,
    s = before ++ t ++ after
    /\ Forall (fun c => is_white_space c = true) before
    /\ Forall (fun c => is_white_space c = true) after
    /\ (forall c, head t = Some c -> is_white_space c = false)
    /\ (forall c, last t = Some c -> is_white_space c = false).

(** "Urlencoded", for a component of a URI: the text is written in UTF-8,
    and each octet is kept when it is a letter, a digit or one of
    [- _ . ! ~ * ' ( )], and written as [%] with its two upper-case
    hexadecimal digits otherwise. *)
Definition urlencoded (t : jsstr) : jsstr :=
  List.concat
    (map (fun b => if uri_unreserved b then [b] else percent_octet b)
         (utf8_encode t)).

(** A parameter the route requires is missing when [searchParams.get] gives
    [null] or the empty string: both fail the handler's [!value] test. *)
Definition missing (v : option jsstr) : Prop := v = None \/ v = Some [].

(** The outbound call the route makes for a base URL and a path. *)
Definition upstream_call (authorization baseUrl path : jsstr) : Outbound :=
  {| out_url := baseUrl ++ path;
     out_method := lit "GET";
     out_headers :=
       [(lit "Accept", lit "application/json");
        (lit "Authorization", authorization)] |}.

(** The server after one more outbound call, and after one more logged
    error. *)
Definition after_call (s : Server) (c : Outbound) : Server :=
  {| outbound := outbound s ++ [c]; logged := logged s |}.
Definition after_log (s : Server) (e : exn) : Server :=
  {| outbound := outbound s; logged := logged s ++ [e] |}.

(** Replacing what is on display. *)
Definition with_display `{JsEngine} (b : Browser) (r : option json) (l : bool)
    (e : option jsstr) (d : jsstr) : Browser :=
  {| results := r; loading := l; error := e; debugUrl := d;
     pathname := pathname b; pushed := pushed b; requests := requests b;
     console := console b |}.

(** The inputs that fail the validation of [handleSearch], with the message
    each one is answered with. *)
Inductive validation_failure (inp : Inputs) : jsstr -> Prop :=
| query_missing :
    queryType inp = lit "semantic" -> trim (searchQuery inp) = [] ->
    validation_failure inp (lit "Search query is required")
| id_missing :
    queryType inp = lit "nearest_neighbor" -> trim (artworkId inp) = [] ->
    validation_failure inp (lit "Artwork ID is required")
| ids_missing :
    queryType inp = lit "similarity" ->
    trim (artworkId inp) = [] \/ trim (compareId inp) = [] ->
    validation_failure inp (lit "Both artwork IDs are required for similarity search")
| type_invalid :
    queryType inp <> lit "semantic" ->
    queryType inp <> lit "nearest_neighbor" ->
    queryType inp <> lit "similarity" ->
    validation_failure inp (lit "Invalid search type").

(** ** Scenarios *)

(** An inbound request of the documented form, on a development origin. *)
Definition documented_request : Request :=
  {| url := lit "http://localhost:3000/api/artwork?apiUrl=https%3A%2F%2Fapi-test.artic.edu&path=%2Fai%2Fv1%2Fartworks%2F1%2Fsimilarity%2F2" |}.

(** An upstream that answers every call with a given status and body. *)
Definition upstream_answering `{JsEngine} (s : N) (body : exn + json)
  : Outbound -> FetchResult :=
  fun _ => Resolves {| status := s; json_body := body |}.

Section Scenarios.
#[local] Existing Instance example_engine.

(** An upstream that refuses with the unassigned status 999. *)
Definition denied : json := error_payload (lit "Request denied").
Definition upstream_999 : Outbound -> FetchResult :=
  upstream_answering 999 (inr denied).

(** An upstream that answers 204 No Content: there is no body to parse. *)
Definition upstream_204 : Outbound -> FetchResult :=
  upstream_answering 204 (inl (Error (lit "Unexpected end of JSON input"))).

(** An upstream that answers 404 with a JSON body. *)
Definition not_found : json := JObj {[ lit "detail" := JStr (lit "Not Found") ]}.
Definition upstream_404 : Outbound -> FetchResult :=
  upstream_answering 404 (inr not_found).

(** An upstream that answers 404 with a number beyond the range of a
    double in its body, [{"error": 1e999}], which [JSON.parse] reads as
    an infinity. *)
Definition overflowed : json := JObj {[ lit "error" := JNum (Infinity false) ]}.
Definition upstream_overflow : Outbound -> FetchResult :=
  upstream_answering 404 (inr overflowed).

(** An upstream that answers 201 with a JSON body. *)
Definition upstream_201 : Outbound -> FetchResult :=
  upstream_answering 201 (inr (JObj {[ lit "items" := JArr [] ]})).

(** An upstream that cannot be reached. *)
Definition upstream_down : Outbound -> FetchResult :=
  fun _ => Rejects (Error (lit "fetch failed")).
End Scenarios.

(** A stand-in for the value of the [Authorization] header. *)
Definition demo_authorization : jsstr := lit "Bearer demo-token".

(** Inbound requests that lack one of the two parameters. *)
Definition request_without_path : Request :=
  {| url := lit "http://localhost:3000/api/artwork?apiUrl=https%3A%2F%2Fapi-test.artic.edu" |}.
Definition request_without_apiUrl : Request :=
  {| url := lit "http://localhost:3000/api/artwork?path=%2Fai%2Fv1%2Fartworks%2Fsearch%3Fq%3Dcats" |}.

Section Outcome.
Context `{JsEngine}.

(** What a response means to [handleSearch]: the payload to display, or
    the exception that reaches its [catch] block (lines 179 to 185). *)
Definition response_outcome (r : Response) : exn + json :=
  data ← json_body r;
  if ok r then inr data
  else
    reason ← failure_reason data;
    message ← ToString reason;
    inl (Error message).

Definition fetch_outcome (f : FetchResult) : exn + json :=
  match f with
  | Rejects e => inl e
  | Resolves r => response_outcome r
  end.

(** The state in which the [try] block of [handleSearch] starts: the
    display is cleared, the spinner is on and, when asked for, the address
    bar is updated (lines 138 to 145). *)
Definition search_started (inp : Inputs) (updateUrlFlag : bool) (b : Browser)
  : Browser :=
  let b0 := set_debugUrl [] (set_error None (set_loading true (set_results None b))) in
  if updateUrlFlag then snd (updateUrl inp b0) else b0.

(** The message the [catch] block puts on display for a thrown value. *)
Definition displayed_message (e : exn) : jsstr :=
  default (lit "Failed to fetch results") (exn_message e).

(** The shapes the interfaces of the page declare, as far as the render
    reads them.  A value that is missing, [null], a boolean, a number or a
    string: *)
Definition primitive (v : option json) : Prop :=
  match v with
  | Some (JArr _) | Some (JObj _) => False
  | _ => True
  end.

(** A string, or a value that is missing or [null]. *)
Definition text_or_missing (v : option json) : Prop :=
  match v with
  | None | Some JNull | Some (JStr _) => True
  | _ => False
  end.

(** [ArtworkItem]: an object with a [data] object. *)
Definition ArtworkItem_shaped (item : json) : Prop :=
  exists fields data,
    item = JObj fields
    /\ fields !! lit "data" = Some (JObj data)
    /\ text_or_missing (data !! lit "description")
    /\ text_or_missing (data !! lit "image_url")
    /\ primitive (fields !! lit "id")
    /\ primitive (fields !! lit "model_id")
    /\ primitive (fields !! lit "distance")
    /\ primitive (fields !! lit "embedding_type").

(** [SimilarityScore]: an object with a number under [similarity_score] and
    an object under [items]. *)
Definition SimilarityScore_shaped (score : json) : Prop :=
  exists fields n items,
    score = JObj fields
    /\ fields !! lit "similarity_score" = Some (JNum n)
    /\ fields !! lit "items" = Some (JObj items)
    /\ primitive (fields !! lit "embedding_type")
    /\ primitive (items !! lit "id1")
    /\ primitive (items !! lit "id2").

End Outcome.

Section PageScenarios.
#[local] Existing Instance example_engine.

(** The three searches of the specification's examples. *)
Definition cats_search : Inputs :=
  {| apiUrl := defaultApiUrl; queryType := lit "semantic";
     searchQuery := lit "cats"; artworkId := []; compareId := [] |}.
Definition neighbour_search : Inputs :=
  {| apiUrl := defaultApiUrl; queryType := lit "nearest_neighbor";
     searchQuery := []; artworkId := lit "129884"; compareId := [] |}.
Definition similarity_search : Inputs :=
  {| apiUrl := defaultApiUrl; queryType := lit "similarity";
     searchQuery := []; artworkId := lit "1"; compareId := lit "2" |}.

(** Searches whose fields have white space around them and characters that
    are escaped. *)
Definition spaced_search : Inputs :=
  {| apiUrl := defaultApiUrl; queryType := lit "semantic";
     searchQuery := [32; 9] ++ lit "blue caf" ++ [233] ++ lit " & co" ++ [160; 10];
     artworkId := []; compareId := [] |}.
Definition spaced_neighbour_search : Inputs :=
  {| apiUrl := defaultApiUrl; queryType := lit "nearest_neighbor";
     searchQuery := []; artworkId := lit " 12/34 "; compareId := [] |}.
Definition spaced_similarity_search : Inputs :=
  {| apiUrl := defaultApiUrl; queryType := lit "similarity";
     searchQuery := []; artworkId := lit "1 "; compareId := lit " a?b" |}.

(** A semantic search whose query is blank. *)
Definition blank_search : Inputs :=
  {| apiUrl := defaultApiUrl; queryType := lit "semantic";
     searchQuery := lit "   "; artworkId := []; compareId := [] |}.

(** A list-shaped and a scores-shaped payload. *)
Definition list_fields : gmap (list N) json :=
  <[lit "count" := JNum (Int 0 eq_refl)]> (<[lit "items" := JArr []]> ∅).
Definition scores_fields : gmap (list N) json :=
  {[ lit "similarity_scores" := JArr [] ]}.
Definition empty_list : json := JObj list_fields.
Definition no_scores : json := JObj scores_fields.

(** A list of one item and a list of one score, of the declared shapes. *)
Definition cat_data : gmap (list N) json :=
  <[lit "description" := JStr (lit "A cat on a chair")]>
    (<[lit "image_url" := JStr (lit "https://example.org/cat.jpg")]> ∅).
Definition cat_fields : gmap (list N) json :=
  <[lit "id" := JNum (Int 7 eq_refl)]>
    (<[lit "model_id" := JNum (Int 129884 eq_refl)]>
      (<[lit "data" := JObj cat_data]>
        (<[lit "distance" := JStr (lit "0.1234")]>
          (<[lit "embedding_type" := JStr (lit "image")]> ∅)))).
Definition cat_item : json := JObj cat_fields.
Definition one_cat_fields : gmap (list N) json :=
  <[lit "count" := JNum (Int 1 eq_refl)]> (<[lit "items" := JArr [cat_item]]> ∅).
Definition image_pair : gmap (list N) json :=
  <[lit "id1" := JNum (Int 1 eq_refl)]> (<[lit "id2" := JNum (Int 2 eq_refl)]> ∅).
Definition image_score_fields : gmap (list N) json :=
  <[lit "embedding_type" := JStr (lit "image")]>
    (<[lit "similarity_score" := JNum (Int 1 eq_refl)]>
      (<[lit "items" := JObj image_pair]> ∅)).
Definition image_score : json := JObj image_score_fields.
Definition one_score_fields : gmap (list N) json :=
  {[ lit "similarity_scores" := JArr [image_score] ]}.

(** Payloads with an [items] key that are not of the declared shape. *)
Definition items_five : json := JObj {[ lit "items" := JNum (Int 5 eq_refl) ]}.
Definition count_object : json :=
  JObj (<[lit "count" := JObj {[ lit "a" := JNum (Int 1 eq_refl) ]}]>
         (<[lit "items" := JArr []]> ∅)).
Definition item_without_data : json :=
  JObj {[ lit "items" := JArr [JObj {[ lit "model_id" := JNum (Int 1 eq_refl) ]}] ]}.

(** A page that shows the results of an earlier search. *)
Definition showing_results : Browser :=
  {| results := Some empty_list; loading := false; error := None;
     debugUrl := lit "https://api-test.artic.edu/ai/v1/artworks/search?q=dogs";
     pathname := lit "/"; pushed := []; requests := []; console := [] |}.

(** A network that answers every request with a given status and body,
    and one that is down. *)
Definition network_answering (s : N) (body : exn + json) : jsstr -> FetchResult :=
  fun _ => Resolves {| status := s; json_body := body |}.
Definition network_down : jsstr -> FetchResult :=
  fun _ => Rejects (Error (lit "Failed to fetch")).

(** A 422 body in the style of a validation failure of the upstream API:
    its [detail] is a list of objects. *)
Definition validation_detail : json :=
  JArr [JObj (<[lit "msg" := JStr (lit "value is not a valid integer")]>
               (<[lit "type" := JStr (lit "type_error.integer")]> ∅))].
Definition unprocessable : json := JObj {[ lit "detail" := validation_detail ]}.

(** The origin of a development server. *)
Definition dev_origin : jsstr := lit "http://localhost:3000".
End PageScenarios.

(* ===================================================================== *)
(** * Further vocabulary: decoding step by step *)
(* ===================================================================== *)

(** The UTF-8 decoder run over a prefix of its input: the code points it has
    produced and the state it is in when the prefix ends.  It takes the same
    steps as [utf8_decode_from], without the flush at the end of the
    input. *)
Fixpoint utf8_feed (st : utf8_state) (bs : list N) : list N * utf8_state :=
  match bs with
  | [] => ([], st)
  | b :: t =>
      if u8_needed st =? 0 then
        let '(out, st') := utf8_lead b in
        let '(more, final) := utf8_feed st' t in (out ++ more, final)
      else if (u8_lower st <=? b) && (b <=? u8_upper st) then
        let cp := N.lor (N.shiftl (u8_code_point st) 6) (N.land b 63) in
        if u8_seen st + 1 =? u8_needed st
        then let '(more, final) := utf8_feed utf8_initial t in (cp :: more, final)
        else utf8_feed (Utf8State cp (u8_seen st + 1) (u8_needed st) 128 191) t
      else
        let '(out, st') := utf8_lead b in
        let '(more, final) := utf8_feed st' t in (65533 :: out ++ more, final)
  end.

Definition utf8_state_eqb (a b : utf8_state) : bool :=
  (u8_code_point a =? u8_code_point b) && (u8_seen a =? u8_seen b)
  && (u8_needed a =? u8_needed b) && (u8_lower a =? u8_lower b)
  && (u8_upper a =? u8_upper b).

(** A Unicode scalar value: a code point that is not a surrogate. *)
Definition is_scalar (cp : N) : bool :=
  (cp <? 1114112) && negb ((55296 <=? cp) && (cp <=? 57343)).

(** What is checked of the UTF-8 form of one scalar value: its octets are
    bytes, and the decoder reads them back as that value and is ready for
    the next one. *)
Definition scalar_round_trip (cp : N) : bool :=
  let bs := utf8_octets cp in
  forallb (fun b => b <? 256) bs
  && match utf8_feed utf8_initial bs with
     | ([out], st) => (out =? cp) && utf8_state_eqb st utf8_initial
     | _ => false
     end.

(** A property checked at every number of [n] bits above a base. *)
Fixpoint all_of_bits (n : nat) (P : N -> bool) (base : N) : bool :=
  match n with
  | O => P base
  | S n' => all_of_bits n' P (2 * base) && all_of_bits n' P (2 * base + 1)
  end.

(** A string the URL round trips keep: 16-bit code units, every surrogate
    paired. *)
Definition kept_by_urls (s : jsstr) : Prop :=
  Forall (fun c => c < 65536) s /\ isWellFormed s = true.

(** The characters the urlencoded serializer can write. *)
Definition form_written (c : N) : bool :=
  is_ascii_alpha c || is_ascii_digit c || (c =? chr "*") || (c =? chr "-")
  || (c =? chr ".") || (c =? chr "_") || (c =? chr "+") || (c =? chr "%").

(* ===================================================================== *)
(** * More of the search page *)
(* ===================================================================== *)

(** The [useState] cells the mount effect writes: the five inputs and the
    shared-link badge. *)
Record Component := {
  inputs : Inputs;
  isSharedLink : bool
}.

(** The initial values of the cells, lines 96 to 106. *)
Definition initial_component : Component :=
  {| inputs := {| apiUrl := defaultApiUrl; queryType := lit "semantic";
                  searchQuery := []; artworkId := []; compareId := [] |};
     isSharedLink := false |}.

(** Truthiness of what [searchParams.get] returns: [null] and the empty
    string are falsy. *)
Definition param_truthy (v : option jsstr) : bool :=
  match v with Some (_ :: _) => true | _ => false end.

(** [v === 'literal'] for such a value. *)
Definition param_is (v : option jsstr) (s : jsstr) : bool :=
  match v with Some t => str_eqb t s | None => false end.

(** [['semantic', 'nearest_neighbor', 'similarity'].includes(type)]. *)
Definition is_mode (t : jsstr) : bool :=
  str_eqb t (lit "semantic") || str_eqb t (lit "nearest_neighbor")
  || str_eqb t (lit "similarity").

Definition with_apiUrl (v : jsstr) (i : Inputs) : Inputs :=
  {| apiUrl := v; queryType := queryType i; searchQuery := searchQuery i;
     artworkId := artworkId i; compareId := compareId i |}.
Definition with_queryType (v : jsstr) (i : Inputs) : Inputs :=
  {| apiUrl := apiUrl i; queryType := v; searchQuery := searchQuery i;
     artworkId := artworkId i; compareId := compareId i |}.
Definition with_searchQuery (v : jsstr) (i : Inputs) : Inputs :=
  {| apiUrl := apiUrl i; queryType := queryType i; searchQuery := v;
     artworkId := artworkId i; compareId := compareId i |}.
Definition with_artworkId (v : jsstr) (i : Inputs) : Inputs :=
  {| apiUrl := apiUrl i; queryType := queryType i; searchQuery := searchQuery i;
     artworkId := v; compareId := compareId i |}.
Definition with_compareId (v : jsstr) (i : Inputs) : Inputs :=
  {| apiUrl := apiUrl i; queryType := queryType i; searchQuery := searchQuery i;
     artworkId := artworkId i; compareId := v |}.

(** The mount effect up to the scheduling of the search, lines 221 to 268:
    the cells after its setters, and whether [runInitialSearch] is
    scheduled. *)
Definition mount_effect (searchParams : list (jsstr * jsstr)) (c : Component)
  : Component * bool :=
  let type := searchParams_get (lit "type") searchParams in
  let query := searchParams_get (lit "q") searchParams in
  let id := searchParams_get (lit "id") searchParams in
  let compareIdParam := searchParams_get (lit "compareId") searchParams in
  let api := searchParams_get (lit "api") searchParams in
  let hasSearchParams :=
    param_truthy type || param_truthy query || param_truthy id
    || param_truthy compareIdParam || param_truthy api in
  let i := inputs c in
  let stateUpdated := false in
  let '(i, stateUpdated) :=
    match type with
    | Some t => if str_truthy t && is_mode t
                then (with_queryType t i, true) else (i, stateUpdated)
    | None => (i, stateUpdated)
    end in
  let '(i, stateUpdated) :=
    match query with
    | Some (ch :: q) => (with_searchQuery (ch :: q) i, true)
    | _ => (i, stateUpdated)
    end in
  let '(i, stateUpdated) :=
    match id with
    | Some (ch :: v) => (with_artworkId (ch :: v) i, true)
    | _ => (i, stateUpdated)
    end in
  let '(i, stateUpdated) :=
    match compareIdParam with
    | Some (ch :: v) => (with_compareId (ch :: v) i, true)
    | _ => (i, stateUpdated)
    end in
  let '(i, stateUpdated) :=
    match api with
    | Some (ch :: v) => (with_apiUrl (ch :: v) i, true)
    | _ => (i, stateUpdated)
    end in
  let shouldRunSearch :=
    (param_is type (lit "semantic") && param_truthy query)
    || (param_is type (lit "nearest_neighbor") && param_truthy id)
    || (param_is type (lit "similarity") && param_truthy id
        && param_truthy compareIdParam) in
  ({| inputs := i; isSharedLink := hasSearchParams |},
   stateUpdated && shouldRunSearch).

(** Which inputs the form shows for a mode, lines 384 to 424. *)
Definition shows_searchQuery (queryType : jsstr) : bool :=
  str_eqb queryType (lit "semantic").
Definition shows_artworkId (queryType : jsstr) : bool :=
  str_eqb queryType (lit "nearest_neighbor") || str_eqb queryType (lit "similarity").
Definition shows_compareId (queryType : jsstr) : bool :=
  str_eqb queryType (lit "similarity").

Section MorePage.
Context `{JsEngine}.
Variable network : jsstr -> FetchResult.

(** The [switch] of [runInitialSearch], lines 279 to 300, over the raw
    parameters of the address bar. *)
Definition runInitialSearch_switch (type query id compareIdParam : option jsstr)
  : exn + jsstr :=
  if param_is type (lit "semantic") then
    match query with
    | Some q =>
        if negb (str_truthy (trim q))
        then inl (Error (lit "Search query is required"))
        else
          e ← uri_component (trim q);
          inr (lit "/ai/v1/artworks/search?q=" ++ e)
    | None => inl (Error (lit "Search query is required"))
    end
  else if param_is type (lit "nearest_neighbor") then
    match id with
    | Some v =>
        if negb (str_truthy (trim v))
        then inl (Error (lit "Artwork ID is required"))
        else
          e ← uri_component (trim v);
          inr (lit "/ai/v1/artworks/" ++ e ++ lit "/nearest?limit=30")
    | None => inl (Error (lit "Artwork ID is required"))
    end
  else if param_is type (lit "similarity") then
    match id, compareIdParam with
    | Some v, Some w =>
        if negb (str_truthy (trim v)) || negb (str_truthy (trim w))
        then inl (Error (lit "Both artwork IDs are required for similarity search"))
        else
          e1 ← uri_component (trim v);
          e2 ← uri_component (trim w);
          inr (lit "/ai/v1/artworks/" ++ e1 ++ lit "/similarity/" ++ e2)
    | _, _ =>
        inl (Error (lit "Both artwork IDs are required for similarity search"))
    end
  else inl (Error (lit "Invalid search type")).

(** The [try] block of [runInitialSearch], lines 275 to 312. *)
Definition runInitialSearch_try (type query id compareIdParam api : option jsstr)
  : Exec Browser unit :=
  let baseUrl :=
    replace_trailing_slash
      (match api with Some (ch :: v) => ch :: v | _ => defaultApiUrl end) in
  apiPath ← lift (runInitialSearch_switch type query id compareIdParam);
  encoded ← lift (uri_component apiPath);
  let url := lit "/api/artwork?path=" ++ encoded in
  setDebugUrl (baseUrl ++ apiPath);;
  response ← page_fetch network url;
  data ← lift (json_body response);
  (if negb (ok response)
   then reason ← lift (failure_reason data); throw_new_Error reason
   else mret tt);;
  setResults (Some data).

(** [runInitialSearch], lines 270 to 323; its [catch] block is the one of
    [handleSearch], statement for statement. *)
Definition runInitialSearch (type query id compareIdParam api : option jsstr)
  : Exec Browser unit :=
  setResults None;;
  setLoading true;;
  setError None;;
  try_finally
    (try_catch (runInitialSearch_try type query id compareIdParam api)
       handleSearch_catch)
    (setLoading false).

(** The search the mount effect schedules for the parameters of the address
    bar. *)
Definition scheduled_search (searchParams : list (jsstr * jsstr))
  : Exec Browser unit :=
  runInitialSearch
    (searchParams_get (lit "type") searchParams)
    (searchParams_get (lit "q") searchParams)
    (searchParams_get (lit "id") searchParams)
    (searchParams_get (lit "compareId") searchParams)
    (searchParams_get (lit "api") searchParams).

(** The [try] block of the [handleSearch] of the second component, lines 671
    to 708.  Its [switch] is the one of the first component, statement for
    statement; the base URL falls back to the default when the field is
    empty. *)
Definition Page2_handleSearch_try (inp : Inputs) : Exec Browser unit :=
  let baseUrl :=
    replace_trailing_slash
      (if str_truthy (apiUrl inp) then apiUrl inp else defaultApiUrl) in
  apiPath ← lift (apiPath_switch inp);
  encoded ← lift (uri_component apiPath);
  let url := lit "/api/artwork?path=" ++ encoded in
  setDebugUrl (baseUrl ++ apiPath);;
  response ← page_fetch network url;
  data ← lift (json_body response);
  (if negb (ok response)
   then reason ← lift (failure_reason data); throw_new_Error reason
   else mret tt);;
  setResults (Some data).

(** The [handleSearch] of the second component, lines 665 to 719. *)
Definition Page2_handleSearch (inp : Inputs) : Exec Browser unit :=
  setResults None;;
  setLoading true;;
  setError None;;
  setDebugUrl [];;
  try_finally
    (try_catch (Page2_handleSearch_try inp) handleSearch_catch)
    (setLoading false).

(** [v.map(f)] and [v?.map(f)] on a property read from the payload: the
    elements handed to [f], or the [TypeError] of the call. *)
Inductive map_failure :=
| map_of_undefined
| map_of_null
| map_is_not_a_function.

Definition map_call (v : option json) : map_failure + list json :=
  match v with
  | None => inl map_of_undefined
  | Some JNull => inl map_of_null
  | Some (JArr elements) => inr elements
  | Some _ => inl map_is_not_a_function
  end.

Definition optional_map_call (v : option json) : map_failure + list json :=
  match v with
  | None | Some JNull => inr []
  | Some (JArr elements) => inr elements
  | Some _ => inl map_is_not_a_function
  end.

(** The list a view maps over: [results.items?.map] on line 475,
    [results.similarity_scores.map] on line 516. *)
Definition mapped_list (v : results_view) : option (map_failure + list json) :=
  match v with
  | ItemGrid _ items => Some (optional_map_call items)
  | ScoreList scores => Some (map_call scores)
  | _ => None
  end.
End MorePage.

(** One of the three modes. *)
Definition mode_of (t : jsstr) : Prop :=
  t = lit "semantic" \/ t = lit "nearest_neighbor" \/ t = lit "similarity".

(** The inputs whose required field, trimmed, is not empty and holds an
    unpaired surrogate. *)
Inductive malformed_field (inp : Inputs) : Prop :=
| query_malformed :
    queryType inp = lit "semantic" -> trim (searchQuery inp) <> [] ->
    isWellFormed (trim (searchQuery inp)) = false -> malformed_field inp
| id_malformed :
    queryType inp = lit "nearest_neighbor" -> trim (artworkId inp) <> [] ->
    isWellFormed (trim (artworkId inp)) = false -> malformed_field inp
| ids_malformed :
    queryType inp = lit "similarity" ->
    trim (artworkId inp) <> [] -> trim (compareId inp) <> [] ->
    isWellFormed (trim (artworkId inp)) = false
    \/ isWellFormed (trim (compareId inp)) = false ->
    malformed_field inp.

(** How often a code unit occurs in a string. *)
Definition occurrences (d : N) (s : jsstr) : nat :=
  length (List.filter (N.eqb d) s).

(** The inbound request a client builds in the documented form
    [GET /api/artwork?apiUrl=<base>&path=<upstream path>] from the two
    encoded values. *)
Definition documented_url (origin encoded_base encoded_path : jsstr) : jsstr :=
  origin ++ lit "/api/artwork?apiUrl=" ++ encoded_base ++ lit "&path=" ++ encoded_path.


(** The parameters [updateUrl] writes, in their order: the mode, then the
    fields shown for it when they are not empty, then the API URL when it is
    not the default. *)
Definition written_params (inp : Inputs) : list (jsstr * jsstr) :=
  [(lit "type", queryType inp)]
  ++ (if str_eqb (queryType inp) (lit "semantic") && str_truthy (searchQuery inp)
      then [(lit "q", searchQuery inp)] else [])
  ++ (if (str_eqb (queryType inp) (lit "nearest_neighbor")
          || str_eqb (queryType inp) (lit "similarity"))
         && str_truthy (artworkId inp)
      then [(lit "id", artworkId inp)] else [])
  ++ (if str_eqb (queryType inp) (lit "similarity") && str_truthy (compareId inp)
      then [(lit "compareId", compareId inp)] else [])
  ++ (if negb (str_eqb (apiUrl inp) defaultApiUrl)
      then [(lit "api", apiUrl inp)] else []).

(** ** More scenarios *)

(** A semantic search whose query ends in half of a surrogate pair. *)
Definition broken_search : Inputs :=
  {| apiUrl := defaultApiUrl; queryType := lit "semantic";
     searchQuery := lit "cats " ++ [55357]; artworkId := []; compareId := [] |}.

(** The search for cats with an artwork ID left over from another mode. *)
Definition cats_search_after_neighbours : Inputs :=
  {| apiUrl := defaultApiUrl; queryType := lit "semantic";
     searchQuery := lit "cats"; artworkId := lit "129884"; compareId := [] |}.

(** A search with a space and an accented letter in its query, on another
    API. *)
Definition cafe_search : Inputs :=
  {| apiUrl := lit "https://example.org/api/"; queryType := lit "semantic";
     searchQuery := lit "blue caf" ++ [233]; artworkId := []; compareId := [] |}.

(** The parameters of a link with an unknown mode, and of a link to the
    search for cats. *)
Definition bogus_link : list (jsstr * jsstr) := [(lit "type", lit "bogus")].
Definition cats_link : list (jsstr * jsstr) :=
  [(lit "type", lit "semantic"); (lit "q", lit "cats")].

Section MoreScenarios.
#[local] Existing Instance example_engine.

(** The page as it is mounted. *)
Definition mounted_page : Browser :=
  {| results := None; loading := false; error := None; debugUrl := [];
     pathname := lit "/"; pushed := []; requests := []; console := [] |}.
End MoreScenarios.
(* ===================================================================== *)
(** * Theorems *)
(* ===================================================================== *)

Ltac exec :=
  cbv [mbind mret Exec_bind Exec_ret result_bind lift throw try_catch
       try_finally modify get_state].
Ltac exec_in H :=
  cbv [mbind mret Exec_bind Exec_ret result_bind lift throw try_catch
       try_finally modify get_state] in H.

Lemma str_eqb_eq a b : str_eqb a b = true <-> a = b.
Proof. unfold str_eqb. apply bool_decide_eq_true. Qed.

Lemma str_eqb_neq a b : str_eqb a b = false <-> a <> b.
Proof. unfold str_eqb. apply bool_decide_eq_false. Qed.

Lemma str_truthy_nonempty s : str_truthy s = true <-> s <> [].
Proof. destruct s; simpl; split; congruence. Qed.


(** ** Platform facts: percent-encoding and query strings *)


Lemma uri_written_ascii c : uri_written c = true -> c < 128.
Proof.
  unfold uri_written, uri_unreserved, is_ascii_alpha, is_ascii_digit, chr.
  simpl. intros Hc.
  repeat match type of Hc with
         | (_ || _) = true => apply orb_true_iff in Hc; destruct Hc as [Hc | Hc]
         | (_ && _) = true => apply andb_true_iff in Hc; destruct Hc as [? Hc]
         end;
  repeat match goal with
         | Hx : (_ <=? _) = true |- _ => apply N.leb_le in Hx
         | Hx : (_ =? _) = true |- _ => apply N.eqb_eq in Hx
         end; lia.
Qed.

Lemma uri_written_not c d :
  uri_written c = true -> uri_written d = false -> c <> d.
Proof. intros Hc Hd ->. congruence. Qed.

(** A property of the sixteen values of four bits, checked by running it. *)
Lemma four_bits_checked (P : N -> bool) :
  forallb P (map N.of_nat (seq 0 16)) = true ->
  forall n, n < 16 -> P n = true.
Proof.
  intros Hall n Hn. rewrite forallb_forall in Hall. apply Hall.
  apply in_map_iff. exists (N.to_nat n). split; [apply N2Nat.id|].
  apply in_seq. lia.
Qed.

Lemma land_15_below n : N.land n 15 < 16.
Proof.
  change 15 with (N.ones 4). rewrite N.land_ones. apply N.mod_lt. discriminate.
Qed.

Lemma hex_digit_written n : uri_written (hex_digit (N.land n 15)) = true.
Proof.
  apply (four_bits_checked (fun m => uri_written (hex_digit m)));
    [reflexivity | apply land_15_below].
Qed.

Lemma percent_octets_written bs : Forall (fun c => uri_written c = true) (percent_octets bs).
Proof.
  induction bs as [|b bs IH]; [constructor|].
  unfold percent_octets in *. cbn [map List.concat percent_octet app].
  constructor; [reflexivity|].
  constructor; [apply hex_digit_written|].
  constructor; [apply hex_digit_written|]. exact IH.
Qed.

Lemma encodeURIComponent_written_bounded n : forall s e,
  (length s <= n)%nat -> encodeURIComponent s = Some e ->
  Forall (fun c => uri_written c = true) e.
Proof.
  induction n as [|n IH]; intros s e Hlen He.
  - destruct s; [|simpl in Hlen; lia]. simpl in He. injection He as <-. constructor.
  - destruct s as [|c t]; [simpl in He; injection He as <-; constructor|].
    simpl in Hlen. simpl in He.
    destruct (uri_unreserved c) eqn:Hun.
    + destruct (encodeURIComponent t) as [e'|] eqn:Ht; [|discriminate].
      simpl in He. injection He as <-. constructor.
      * unfold uri_written. rewrite Hun. reflexivity.
      * apply (IH t); [lia | assumption].
    + destruct (is_lead_surrogate c).
      * destruct t as [|d t']; [discriminate|].
        destruct (is_trail_surrogate d); [|discriminate].
        destruct (encodeURIComponent t') as [e'|] eqn:Ht; [|discriminate].
        simpl in He. injection He as <-. apply Forall_app. split.
        -- apply percent_octets_written.
        -- apply (IH t'); [simpl in Hlen; lia | assumption].
      * destruct (is_trail_surrogate c); [discriminate|].
        destruct (encodeURIComponent t) as [e'|] eqn:Ht; [|discriminate].
        simpl in He. injection He as <-. apply Forall_app. split.
        -- apply percent_octets_written.
        -- apply (IH t); [lia | assumption].
Qed.

(** [encodeURIComponent] writes unreserved characters and percent-escapes
    only. *)
Lemma encodeURIComponent_written s e :
  encodeURIComponent s = Some e -> Forall (fun c => uri_written c = true) e.
Proof. apply (encodeURIComponent_written_bounded (length s)). lia. Qed.

Lemma not_surrogate_below c :
  c < 55296 -> is_lead_surrogate c = false /\ is_trail_surrogate c = false.
Proof.
  intros Hc. unfold is_lead_surrogate, is_trail_surrogate.
  split; apply andb_false_iff; left; apply N.leb_gt; lia.
Qed.

(** A string without surrogates is always encoded. *)
Lemma encodeURIComponent_defined s :
  Forall (fun c => c < 55296) s -> is_Some (encodeURIComponent s).
Proof.
  induction 1 as [|c t Hc _ IH]; [eexists; reflexivity|].
  destruct IH as [e He]. destruct (not_surrogate_below c Hc) as [Hl Ht].
  cbn [encodeURIComponent]. rewrite Hl, Ht, He.
  destruct (uri_unreserved c); eexists; reflexivity.
Qed.

Lemma utf8_encode_ascii s : Forall (fun c => c < 128) s -> utf8_encode s = s.
Proof.
  induction 1 as [|c t Hc _ IH]; [reflexivity|].
  destruct (not_surrogate_below c ltac:(lia)) as [Hl Ht].
  cbn [utf8_encode]. rewrite Hl, Ht, IH. unfold utf8_octets.
  apply N.ltb_lt in Hc. rewrite Hc. reflexivity.
Qed.

Lemma split_on_absent sep s : Forall (fun c => c <> sep) s -> split_on sep s = [s].
Proof.
  induction 1 as [|c t Hc _ IH]; [reflexivity|].
  cbn [split_on]. rewrite IH. apply N.eqb_neq in Hc. rewrite Hc. reflexivity.
Qed.

Lemma split_first_absent sep s : Forall (fun c => c <> sep) s -> split_first sep s = None.
Proof.
  induction 1 as [|c t Hc _ IH]; [reflexivity|].
  cbn [split_first]. rewrite IH. apply N.eqb_neq in Hc. rewrite Hc. reflexivity.
Qed.

Lemma split_first_at sep l r :
  Forall (fun c => c <> sep) l -> split_first sep (l ++ sep :: r) = Some (l, r).
Proof.
  induction 1 as [|c t Hc _ IH]; cbn [split_first app].
  - rewrite N.eqb_refl. reflexivity.
  - rewrite IH. apply N.eqb_neq in Hc. rewrite Hc. reflexivity.
Qed.

Lemma written_avoids (d : N) e :
  uri_written d = false ->
  Forall (fun c => uri_written c = true) e -> Forall (fun c => c <> d) e.
Proof.
  intros Hd He. eapply Forall_impl; [exact He|].
  intros c Hc. eapply uri_written_not; eauto.
Qed.

(** The query of a URL built from an origin, a path without [?] or [#], and
    a query of written characters. *)
Lemma URL_query_of_written origin path q :
  Forall (fun c => c <> chr "?" /\ c <> chr "#") origin ->
  Forall (fun c => c <> chr "?" /\ c <> chr "#") path ->
  Forall (fun c => c <> chr "#") q ->
  URL_query (origin ++ path ++ chr "?" :: q) = q.
Proof.
  intros Ho Hp Hq. unfold URL_query.
  rewrite (split_first_absent (chr "#") (origin ++ path ++ chr "?" :: q)).
  - rewrite app_assoc, split_first_at; [reflexivity|].
    apply Forall_app; split; eapply Forall_impl; eauto; simpl; tauto.
  - repeat (apply Forall_app; split); [| |constructor; [discriminate|assumption]];
      eapply Forall_impl; eauto; simpl; tauto.
Qed.

(** Decoding undoes [encodeURIComponent] on ASCII strings. *)
Lemma hex_value_hex_digit n : n < 16 -> hex_value (hex_digit n) = Some n.
Proof.
  intros Hn.
  pose proof (four_bits_checked
    (fun m => match hex_value (hex_digit m) with
              | Some k => k =? m
              | None => false
              end) eq_refl n Hn) as Hchecked.
  cbv beta in Hchecked.
  destruct (hex_value (hex_digit n)) as [k|]; [|discriminate].
  apply N.eqb_eq in Hchecked. congruence.
Qed.

Lemma octet_nibbles c :
  c < 256 -> 16 * N.land (N.shiftr c 4) 15 + N.land c 15 = c.
Proof.
  intros Hc. change 15 with (N.ones 4). rewrite !N.land_ones, N.shiftr_div_pow2.
  change (2 ^ 4) with 16.
  rewrite (N.mod_small (c / 16)) by (apply N.Div0.div_lt_upper_bound; lia).
  symmetry. apply N.div_mod. discriminate.
Qed.

Lemma percent_decode_escape c rest :
  c < 256 -> percent_decode (percent_octet c ++ rest) = c :: percent_decode rest.
Proof.
  intros Hc. unfold percent_octet. cbn [app percent_decode].
  change (chr "%" =? chr "%") with true. cbv iota.
  rewrite !hex_value_hex_digit by apply land_15_below.
  rewrite octet_nibbles by assumption. reflexivity.
Qed.

Lemma percent_decode_plain c rest :
  c <> chr "%" -> percent_decode (c :: rest) = c :: percent_decode rest.
Proof.
  intros Hc. apply N.eqb_neq in Hc. cbn [percent_decode]. rewrite Hc. reflexivity.
Qed.

Lemma plus_to_space_written e :
  Forall (fun c => uri_written c = true) e -> plus_to_space e = e.
Proof.
  induction 1 as [|c t Hc _ IH]; [reflexivity|].
  unfold plus_to_space in *. cbn [map]. rewrite IH.
  assert (Hne : c <> chr "+") by (eapply uri_written_not; eauto).
  apply N.eqb_neq in Hne. rewrite Hne. reflexivity.
Qed.

Lemma percent_decode_encoded s : forall e,
  Forall (fun c => c < 128) s ->
  encodeURIComponent s = Some e -> percent_decode e = s.
Proof.
  induction s as [|c t IH]; intros e Hs He.
  - cbn in He. assert (e = []) as -> by congruence. reflexivity.
  - apply Forall_cons in Hs. destruct Hs as [Hc Ht].
    destruct (not_surrogate_below c ltac:(lia)) as [Hl Htr].
    cbn [encodeURIComponent] in He. rewrite Hl, Htr in He.
    destruct (encodeURIComponent t) as [e'|]; [|destruct (uri_unreserved c); discriminate].
    specialize (IH e' Ht eq_refl).
    destruct (uri_unreserved c) eqn:Hun.
    + assert (e = c :: e') as -> by (cbn in He; congruence).
      rewrite percent_decode_plain, IH; [reflexivity|].
      intros ->. discriminate Hun.
    + assert (e = percent_octet c ++ e') as ->.
      { unfold utf8_octets in He. apply N.ltb_lt in Hc. rewrite Hc in He.
        unfold percent_octets in He. cbn [map List.concat] in He.
        rewrite app_nil_r in He. cbn [fmap option_fmap option_map] in He.
        congruence. }
      rewrite percent_decode_escape, IH by lia. reflexivity.
Qed.

Lemma utf8_decode_from_ascii bs :
  Forall (fun c => c < 128) bs -> utf8_decode_from utf8_initial bs = bs.
Proof.
  induction 1 as [|b t Hb _ IH]; [reflexivity|].
  cbn [utf8_decode_from u8_needed utf8_initial].
  change (0 =? 0) with true. cbv iota. unfold utf8_lead.
  assert (Hle : (b <=? 127) = true) by (apply N.leb_le; lia).
  rewrite Hle. cbn [app]. fold utf8_initial. rewrite IH. reflexivity.
Qed.

Lemma utf16_units_ascii bs :
  Forall (fun c => c < 128) bs -> List.concat (map utf16_units bs) = bs.
Proof.
  induction 1 as [|b t Hb _ IH]; [reflexivity|].
  cbn [map List.concat]. rewrite IH. unfold utf16_units.
  assert (Hlt : (b <? 65536) = true) by (apply N.ltb_lt; lia).
  rewrite Hlt. reflexivity.
Qed.

Lemma utf8_decode_ascii bs :
  Forall (fun c => c < 128) bs -> utf8_decode_without_BOM bs = bs.
Proof.
  intros Hbs. unfold utf8_decode_without_BOM.
  rewrite utf8_decode_from_ascii, utf16_units_ascii by assumption.
  reflexivity.
Qed.

(** The route's decoding of a parameter value gives back the ASCII string
    that [encodeURIComponent] was applied to. *)
Lemma urlencoded_decode_encoded s e :
  Forall (fun c => c < 128) s ->
  encodeURIComponent s = Some e -> urlencoded_decode e = s.
Proof.
  intros Hs He. unfold urlencoded_decode.
  rewrite plus_to_space_written by (eapply encodeURIComponent_written; eauto).
  rewrite (percent_decode_encoded s e Hs He). apply utf8_decode_ascii, Hs.
Qed.

(** The parameters of the query [path=<escapes>]: a single pair, named
    [path]. *)
Lemma urlencoded_parse_path e :
  Forall (fun c => uri_written c = true) e ->
  urlencoded_parse (lit "path=" ++ e) = [(lit "path", urlencoded_decode e)].
Proof.
  intros He. unfold urlencoded_parse.
  rewrite utf8_encode_ascii.
  2:{ apply Forall_app; split.
      - repeat (constructor; [reflexivity|]). constructor.
      - eapply Forall_impl; [exact He|]. apply uri_written_ascii. }
  rewrite split_on_absent.
  2:{ apply Forall_app; split.
      - repeat (constructor; [discriminate|]). constructor.
      - apply written_avoids; [reflexivity | assumption]. }
  cbn [flat_map].
  assert (Hsplit : split_first (chr "=") (lit "path=" ++ e) = Some (lit "path", e))
    by reflexivity.
  change (lit "path=" ++ e) with (chr "p" :: (lit "ath=" ++ e)) at 1.
  cbv iota. rewrite Hsplit.
  assert (Hname : urlencoded_decode (lit "path") = lit "path") by reflexivity.
  rewrite Hname, app_nil_r. reflexivity.
Qed.

(** [encodeURIComponent] throws exactly on the strings that are not
    well-formed UTF-16. *)
Lemma encodeURIComponent_throws_bounded n : forall s,
  (length s <= n)%nat ->
  (encodeURIComponent s = None <-> isWellFormed s = false).
Proof.
  induction n as [|n IH]; intros s Hlen.
  - destruct s; [|simpl in Hlen; lia]. simpl. split; discriminate.
  - destruct s as [|c t]; [simpl; split; discriminate|].
    simpl in Hlen. cbn [encodeURIComponent isWellFormed].
    destruct (uri_unreserved c) eqn:Hun.
    + assert (Hc : c < 55296).
      { assert (uri_written c = true) as Hw by (unfold uri_written; rewrite Hun; reflexivity).
        apply uri_written_ascii in Hw. lia. }
      destruct (not_surrogate_below c Hc) as [-> ->]. cbn [negb andb].
      rewrite <- (IH t) by lia.
      destruct (encodeURIComponent t); simpl; split; congruence.
    + destruct (is_lead_surrogate c).
      * destruct t as [|d t']; [tauto|].
        destruct (is_trail_surrogate d); cbn [andb]; [|tauto].
        rewrite <- (IH t') by (simpl in Hlen; lia).
        destruct (encodeURIComponent t'); simpl; split; congruence.
      * destruct (is_trail_surrogate c); cbn [negb andb]; [tauto|].
        rewrite <- (IH t) by lia.
        destruct (encodeURIComponent t); simpl; split; congruence.
Qed.

Lemma encodeURIComponent_throws_iff s :
  encodeURIComponent s = None <-> isWellFormed s = false.
Proof. apply (encodeURIComponent_throws_bounded (length s)). lia. Qed.

Example trim_cats : trim (lit "  cats	 ") = lit "cats".
Proof. reflexivity. Qed.

Example trim_no_break_space : trim ([160; 8195] ++ lit "42" ++ [65279; 10]) = lit "42".
Proof. reflexivity. Qed.

Example replace_one_trailing_slash :
  replace_trailing_slash (lit "https://api-test.artic.edu//") = lit "https://api-test.artic.edu/".
Proof. reflexivity. Qed.

Example encode_path :
  encodeURIComponent (lit "/ai/v1/artworks/search?q=caf" ++ [233; 32; 55357; 56832])
  = Some (lit "%2Fai%2Fv1%2Fartworks%2Fsearch%3Fq%3Dcaf%C3%A9%20%F0%9F%98%80").
Proof. vm_compute. reflexivity. Qed.

Example encode_lone_surrogate : encodeURIComponent [55357] = None.
Proof. reflexivity. Qed.

Example parse_query :
  URL_searchParams (lit "http://localhost:3000/api/artwork?apiUrl=https%3A%2F%2Fapi-test.artic.edu&path=%2Fai%2Fv1%2Fartworks%2Fsearch%3Fq%3Dcaf%C3%A9+%F0%9F%98%80#x")
  = [(lit "apiUrl", lit "https://api-test.artic.edu");
     (lit "path", lit "/ai/v1/artworks/search?q=caf" ++ [233; 32; 55357; 56832])].
Proof. vm_compute. reflexivity. Qed.

Example parse_malformed_escape :
  URL_searchParams (lit "/api/artwork?path=%zz%C3&&=x&flag")
  = [(lit "path", lit "%zz" ++ [65533]); ([], lit "x"); (lit "flag", [])].
Proof. vm_compute. reflexivity. Qed.

Example utf8_decoder_cases :
  utf8_decode_from utf8_initial [226; 130; 172] = [8364]
  /\ utf8_decode_from utf8_initial [240; 159; 152; 128] = [128512]
  /\ utf8_decode_from utf8_initial [192; 128] = [65533; 65533]
  /\ utf8_decode_from utf8_initial [237; 160; 128] = [65533; 65533; 65533]
  /\ utf8_decode_from utf8_initial [240; 159; 152] = [65533]
  /\ utf8_decode_from utf8_initial [224; 128; 65] = [65533; 65533; 65]
  /\ utf8_decode_from utf8_initial [195; 40] = [65533; 40]
  /\ utf8_decode_without_BOM [239; 187; 191; 104; 105] = 65279 :: lit "hi".
Proof. repeat split; reflexivity. Qed.

Example serialize_params :
  searchParams_toString
    (searchParams_set (lit "q") (lit "a b&c") (searchParams_set (lit "type") (lit "semantic") []))
  = lit "type=semantic&q=a+b%26c".
Proof. vm_compute. reflexivity. Qed.

(** ** Platform facts: the round trips through a URL *)

Lemma all_of_bits_sound n P : forall base,
  all_of_bits n P base = true ->
  forall k, k < 2 ^ N.of_nat n -> P (base * 2 ^ N.of_nat n + k) = true.
Proof.
  induction n as [|n IH]; intros base Hall k Hk.
  - cbn in Hk. assert (k = 0) as -> by lia. rewrite N.mul_1_r, N.add_0_r.
    exact Hall.
  - cbn [all_of_bits] in Hall. apply andb_true_iff in Hall.
    destruct Hall as [Hlo Hhi].
    rewrite Nat2N.inj_succ, N.pow_succ_r' in *.
    destruct (N.lt_ge_cases k (2 ^ N.of_nat n)) as [Hlt | Hge].
    + replace (base * (2 * 2 ^ N.of_nat n) + k)
        with (2 * base * 2 ^ N.of_nat n + k) by lia.
      apply IH; assumption.
    + replace (base * (2 * 2 ^ N.of_nat n) + k)
        with ((2 * base + 1) * 2 ^ N.of_nat n + (k - 2 ^ N.of_nat n)) by lia.
      apply IH; [assumption | lia].
Qed.

(** Every scalar value passes the check: all of them are run. *)
Lemma scalars_round_trip cp : is_scalar cp = true -> scalar_round_trip cp = true.
Proof.
  intros Hcp.
  assert (Hall : all_of_bits 21
            (fun c => negb (is_scalar c) || scalar_round_trip c) 0 = true)
    by (vm_compute; reflexivity).
  assert (Hlt : cp < 2 ^ N.of_nat 21).
  { unfold is_scalar in Hcp. apply andb_true_iff in Hcp.
    destruct Hcp as [Hcp _]. apply N.ltb_lt in Hcp.
    change (2 ^ N.of_nat 21) with 2097152. lia. }
  pose proof (all_of_bits_sound 21 _ 0 Hall cp Hlt) as Hchecked.
  cbv beta in Hchecked. rewrite N.mul_0_l, N.add_0_l, Hcp in Hchecked.
  exact Hchecked.
Qed.

Lemma utf8_feed_app bs : forall st rest,
  utf8_decode_from st (bs ++ rest)
  = fst (utf8_feed st bs) ++ utf8_decode_from (snd (utf8_feed st bs)) rest.
Proof.
  induction bs as [|b t IH]; intros st rest; [reflexivity|].
  cbn [app utf8_decode_from utf8_feed].
  destruct (u8_needed st =? 0).
  - destruct (utf8_lead b) as [out st']. rewrite IH.
    destruct (utf8_feed st' t) as [more final]. cbn [fst snd].
    rewrite app_assoc. reflexivity.
  - destruct ((u8_lower st <=? b) && (b <=? u8_upper st)).
    + destruct (u8_seen st + 1 =? u8_needed st).
      * rewrite IH. destruct (utf8_feed utf8_initial t) as [more final].
        reflexivity.
      * apply IH.
    + destruct (utf8_lead b) as [out st']. rewrite IH.
      destruct (utf8_feed st' t) as [more final]. cbn [fst snd].
      rewrite app_comm_cons, app_assoc. reflexivity.
Qed.

Lemma utf8_state_eqb_eq a b : utf8_state_eqb a b = true -> a = b.
Proof.
  unfold utf8_state_eqb. intros Heq.
  repeat (apply andb_true_iff in Heq; destruct Heq as [Heq ?]).
  repeat match goal with Hx : (_ =? _) = true |- _ => apply N.eqb_eq in Hx end.
  destruct a, b. cbn in *. congruence.
Qed.

(** What the check says of one scalar value. *)
Lemma scalar_octets cp :
  is_scalar cp = true ->
  Forall (fun b => b < 256) (utf8_octets cp)
  /\ (forall rest,
       utf8_decode_from utf8_initial (utf8_octets cp ++ rest)
       = cp :: utf8_decode_from utf8_initial rest).
Proof.
  intros Hcp. pose proof (scalars_round_trip cp Hcp) as Hok.
  unfold scalar_round_trip in Hok.
  apply andb_true_iff in Hok. destruct Hok as [Hbytes Hfeed].
  split.
  - apply Forall_forall. intros b Hb. rewrite forallb_forall in Hbytes.
    apply N.ltb_lt, Hbytes. apply list_elem_of_In. exact Hb.
  - intros rest. rewrite utf8_feed_app.
    destruct (utf8_feed utf8_initial (utf8_octets cp)) as [[|out [|? ?]] st];
      try discriminate.
    apply andb_true_iff in Hfeed. destruct Hfeed as [Hout Hst].
    apply N.eqb_eq in Hout. apply utf8_state_eqb_eq in Hst. subst.
    reflexivity.
Qed.

Lemma code_unit_is_scalar c :
  c < 65536 -> is_lead_surrogate c = false -> is_trail_surrogate c = false ->
  is_scalar c = true.
Proof.
  unfold is_lead_surrogate, is_trail_surrogate, is_scalar. intros Hc Hl Ht.
  apply andb_true_iff. split; [apply N.ltb_lt; lia|].
  apply negb_true_iff.
  destruct (N.leb_spec 55296 c) as [H1 | H1]; [|reflexivity].
  destruct (N.leb_spec c 57343) as [H2 | H2]; [|reflexivity].
  exfalso. cbn [andb] in Hl.
  apply N.leb_gt in Hl.
  assert (H3 : (56320 <=? c) = true) by (apply N.leb_le; lia).
  rewrite H3 in Ht. discriminate Ht.
Qed.

Lemma surrogate_pair_units hi lo :
  is_lead_surrogate hi = true -> is_trail_surrogate lo = true ->
  is_scalar (surrogate_pair hi lo) = true
  /\ utf16_units (surrogate_pair hi lo) = [hi; lo].
Proof.
  unfold is_lead_surrogate, is_trail_surrogate. intros Hhi Hlo.
  apply andb_true_iff in Hhi, Hlo. destruct Hhi as [Hh1 Hh2], Hlo as [Hl1 Hl2].
  apply N.leb_le in Hh1, Hh2, Hl1, Hl2.
  unfold surrogate_pair.
  set (h := hi - 55296). set (l := lo - 56320).
  assert (Hh : h < 1024) by (subst h; lia).
  assert (Hl : l < 1024) by (subst l; lia).
  split.
  - unfold is_scalar. apply andb_true_iff. split; [apply N.ltb_lt; lia|].
    apply negb_true_iff, andb_false_iff. right. apply N.leb_gt. lia.
  - unfold utf16_units.
    assert (Hge : (h * 1024 + l + 65536 <? 65536) = false) by (apply N.ltb_ge; lia).
    rewrite Hge. replace (h * 1024 + l + 65536 - 65536) with (l + h * 1024) by lia.
    rewrite N.shiftr_div_pow2. change (2 ^ 10) with 1024.
    change 1023 with (N.ones 10). rewrite N.land_ones. change (2 ^ 10) with 1024.
    rewrite N.div_add by discriminate. rewrite N.Div0.mod_add.
    rewrite N.div_small, N.mod_small by assumption.
    f_equal; [subst h; lia | f_equal; subst l; lia].
Qed.

(** Decoding the UTF-8 form of a well-formed string of 16-bit code units
    gives the string back. *)
Lemma utf8_round_trip_bounded n : forall s rest,
  (length s <= n)%nat ->
  Forall (fun c => c < 65536) s -> isWellFormed s = true ->
  Forall (fun b => b < 256) (utf8_encode s)
  /\ List.concat (map utf16_units
       (utf8_decode_from utf8_initial (utf8_encode s ++ rest)))
     = s ++ List.concat (map utf16_units (utf8_decode_from utf8_initial rest)).
Proof.
  induction n as [|n IH]; intros s rest Hlen Hs Hwf.
  - destruct s; [|cbn in Hlen; lia]. split; [constructor | reflexivity].
  - destruct s as [|c t]; [split; [constructor | reflexivity]|].
    cbn in Hlen. apply Forall_cons in Hs. destruct Hs as [Hc Ht].
    cbn [utf8_encode isWellFormed] in *.
    destruct (is_lead_surrogate c) eqn:Hlead.
    + destruct t as [|d t']; [discriminate|].
      apply andb_true_iff in Hwf. destruct Hwf as [Htrail Hwf].
      rewrite Htrail. apply Forall_cons in Ht. destruct Ht as [Hd Ht'].
      destruct (surrogate_pair_units c d Hlead Htrail) as (Hsc & Hunits).
      destruct (scalar_octets _ Hsc) as (Hbytes & Hdec).
      destruct (IH t' rest ltac:(cbn in Hlen; lia) Ht' Hwf) as [Hb' Hrt].
      split; [apply Forall_app; split; assumption|].
      rewrite <- app_assoc, Hdec. cbn [map List.concat].
      rewrite Hunits, Hrt. reflexivity.
    + apply andb_true_iff in Hwf. destruct Hwf as [Htrail Hwf].
      apply negb_true_iff in Htrail. rewrite Htrail.
      pose proof (code_unit_is_scalar c Hc Hlead Htrail) as Hsc.
      destruct (scalar_octets _ Hsc) as (Hbytes & Hdec).
      destruct (IH t rest ltac:(lia) Ht Hwf) as [Hb' Hrt].
      split; [apply Forall_app; split; assumption|].
      rewrite <- app_assoc, Hdec. cbn [map List.concat].
      rewrite Hrt. unfold utf16_units.
      assert (Hlt : (c <? 65536) = true) by (apply N.ltb_lt; lia).
      rewrite Hlt. reflexivity.
Qed.

Lemma utf8_decode_encode s :
  kept_by_urls s ->
  Forall (fun b => b < 256) (utf8_encode s)
  /\ utf8_decode_without_BOM (utf8_encode s) = s.
Proof.
  intros [Hs Hwf].
  destruct (utf8_round_trip_bounded (length s) s [] (le_n _) Hs Hwf) as [Hb Hrt].
  split; [exact Hb|]. unfold utf8_decode_without_BOM.
  rewrite app_nil_r in Hrt. rewrite Hrt. cbn. apply app_nil_r.
Qed.

Lemma percent_decode_escapes bs : forall rest,
  Forall (fun b => b < 256) bs ->
  percent_decode (percent_octets bs ++ rest) = bs ++ percent_decode rest.
Proof.
  induction bs as [|b t IH]; intros rest Hbs; [reflexivity|].
  apply Forall_cons in Hbs. destruct Hbs as [Hb Ht].
  unfold percent_octets in *. cbn [map List.concat].
  rewrite <- app_assoc, percent_decode_escape by assumption.
  rewrite IH by assumption. reflexivity.
Qed.

(** Percent-decoding what [encodeURIComponent] writes gives the UTF-8 form of
    the string. *)
Lemma percent_decode_component_bounded n : forall s e,
  (length s <= n)%nat ->
  Forall (fun c => c < 65536) s -> isWellFormed s = true ->
  encodeURIComponent s = Some e -> percent_decode e = utf8_encode s.
Proof.
  induction n as [|n IH]; intros s e Hlen Hs Hwf He.
  - destruct s; [|cbn in Hlen; lia]. cbn in He.
    assert (e = []) as -> by congruence. reflexivity.
  - destruct s as [|c t].
    { cbn in He. assert (e = []) as -> by congruence. reflexivity. }
    cbn in Hlen. apply Forall_cons in Hs. destruct Hs as [Hc Ht].
    cbn [encodeURIComponent utf8_encode isWellFormed] in *.
    destruct (uri_unreserved c) eqn:Hun.
    + assert (Hw : uri_written c = true) by (unfold uri_written; rewrite Hun; reflexivity).
      pose proof (uri_written_ascii c Hw) as Hascii.
      destruct (not_surrogate_below c ltac:(lia)) as [Hl Htr].
      rewrite Hl, Htr in *. cbn [negb andb] in Hwf.
      destruct (encodeURIComponent t) as [e'|] eqn:Het; [|discriminate].
      assert (e = c :: e') as -> by (cbn in He; congruence).
      rewrite percent_decode_plain by (intros ->; discriminate Hun).
      rewrite (IH t e') by (assumption || lia || reflexivity).
      unfold utf8_octets. apply N.ltb_lt in Hascii. rewrite Hascii. reflexivity.
    + destruct (is_lead_surrogate c) eqn:Hlead.
      * destruct t as [|d t']; [discriminate|].
        apply andb_true_iff in Hwf. destruct Hwf as [Htrail Hwf].
        rewrite Htrail in *. apply Forall_cons in Ht. destruct Ht as [Hd Ht'].
        destruct (encodeURIComponent t') as [e'|] eqn:Het; [|discriminate].
        assert (e = percent_octets (utf8_octets (surrogate_pair c d)) ++ e') as ->
          by (cbn in He; congruence).
        destruct (surrogate_pair_units c d Hlead Htrail) as (Hsc & _).
        destruct (scalar_octets _ Hsc) as (Hbytes & _).
        rewrite percent_decode_escapes by assumption.
        rewrite (IH t' e') by (assumption || (cbn in Hlen; lia) || reflexivity).
        reflexivity.
      * apply andb_true_iff in Hwf. destruct Hwf as [Htrail Hwf].
        apply negb_true_iff in Htrail. rewrite Htrail in *.
        destruct (encodeURIComponent t) as [e'|] eqn:Het; [|discriminate].
        assert (e = percent_octets (utf8_octets c) ++ e') as ->
          by (cbn in He; congruence).
        pose proof (code_unit_is_scalar c Hc Hlead Htrail) as Hsc.
        destruct (scalar_octets _ Hsc) as (Hbytes & _).
        rewrite percent_decode_escapes by assumption.
        rewrite (IH t e') by (assumption || lia || reflexivity).
        reflexivity.
Qed.

(** The route's decoding of a parameter value undoes [encodeURIComponent]. *)
Lemma urlencoded_decode_component s e :
  kept_by_urls s -> encodeURIComponent s = Some e -> urlencoded_decode e = s.
Proof.
  intros Hkept He. unfold urlencoded_decode.
  rewrite plus_to_space_written by (eapply encodeURIComponent_written; eauto).
  destruct Hkept as (Hs & Hwf).
  rewrite (percent_decode_component_bounded (length s) s e (le_n _) Hs Hwf He).
  apply utf8_decode_encode. repeat split; assumption.
Qed.

Lemma kept_by_urls_encodes s : kept_by_urls s -> is_Some (encodeURIComponent s).
Proof.
  intros (_ & Hwf). destruct (encodeURIComponent s) as [e|] eqn:He; [eauto|].
  apply encodeURIComponent_throws_iff in He. congruence.
Qed.

(** ** The urlencoded serializer *)

Lemma form_written_ascii c : form_written c = true -> c < 128.
Proof.
  unfold form_written, is_ascii_alpha, is_ascii_digit, chr.
  simpl. intros Hc.
  repeat match type of Hc with
         | (_ || _) = true => apply orb_true_iff in Hc; destruct Hc as [Hc | Hc]
         | (_ && _) = true => apply andb_true_iff in Hc; destruct Hc as [? Hc]
         end;
  repeat match goal with
         | Hx : (_ <=? _) = true |- _ => apply N.leb_le in Hx
         | Hx : (_ =? _) = true |- _ => apply N.eqb_eq in Hx
         end; lia.
Qed.

Lemma form_written_avoids (d : N) e :
  form_written d = false ->
  Forall (fun c => form_written c = true) e -> Forall (fun c => c <> d) e.
Proof.
  intros Hd He. eapply Forall_impl; [exact He|].
  intros c Hc ->. congruence.
Qed.

Lemma urlencoded_byte_written b : Forall (fun c => form_written c = true) (urlencoded_byte b).
Proof.
  unfold urlencoded_byte. destruct (b =? chr " "); [repeat constructor|].
  destruct (is_ascii_alpha b || is_ascii_digit b || (b =? chr "*")
            || (b =? chr "-") || (b =? chr ".") || (b =? chr "_")) eqn:Hplain.
  - constructor; [|constructor]. unfold form_written. rewrite Hplain. reflexivity.
  - unfold percent_octet. constructor; [reflexivity|].
    constructor;
      [apply (four_bits_checked (fun m => form_written (hex_digit m)));
         [reflexivity | apply land_15_below]|].
    constructor;
      [apply (four_bits_checked (fun m => form_written (hex_digit m)));
         [reflexivity | apply land_15_below]|].
    constructor.
Qed.

Lemma urlencoded_serialize_written s :
  Forall (fun c => form_written c = true) (urlencoded_serialize s).
Proof.
  unfold urlencoded_serialize. induction (utf8_encode s) as [|b t IH]; [constructor|].
  cbn [map List.concat]. apply Forall_app. split; [apply urlencoded_byte_written | exact IH].
Qed.

(** Decoding one serialized byte. *)
Lemma urlencoded_byte_decoded b rest :
  b < 256 ->
  percent_decode (plus_to_space (urlencoded_byte b ++ rest))
  = b :: percent_decode (plus_to_space rest).
Proof.
  intros Hb. unfold plus_to_space. rewrite map_app. fold (plus_to_space rest).
  unfold urlencoded_byte.
  destruct (b =? chr " ") eqn:Hsp.
  - apply N.eqb_eq in Hsp. subst b. reflexivity.
  - destruct (is_ascii_alpha b || is_ascii_digit b || (b =? chr "*")
              || (b =? chr "-") || (b =? chr ".") || (b =? chr "_")) eqn:Hplain.
    + assert (Hplus : (b =? chr "+") = false).
      { apply N.eqb_neq. intros ->. discriminate Hplain. }
      cbn [map app]. rewrite Hplus. apply percent_decode_plain.
      intros ->. discriminate Hplain.
    + assert (Hsame : map (fun c => if c =? chr "+" then chr " " else c) (percent_octet b)
                      = percent_octet b).
      { apply (plus_to_space_written (percent_octet b)).
        unfold percent_octet.
        repeat (constructor; [first [reflexivity | apply hex_digit_written]|]).
        constructor. }
      rewrite Hsame. apply percent_decode_escape, Hb.
Qed.

Lemma urlencoded_bytes_decoded bs :
  Forall (fun b => b < 256) bs ->
  percent_decode (plus_to_space (List.concat (map urlencoded_byte bs))) = bs.
Proof.
  induction 1 as [|b t Hb _ IH]; [reflexivity|].
  cbn [map List.concat]. rewrite urlencoded_byte_decoded, IH by assumption.
  reflexivity.
Qed.

(** Parsing undoes the serializer on one name or value. *)
Lemma urlencoded_decode_serialize s :
  kept_by_urls s -> urlencoded_decode (urlencoded_serialize s) = s.
Proof.
  intros Hkept. destruct (utf8_decode_encode s Hkept) as [Hbytes Hdec].
  unfold urlencoded_decode, urlencoded_serialize.
  rewrite urlencoded_bytes_decoded by assumption. exact Hdec.
Qed.

Lemma split_on_cons sep s : exists p ps, split_on sep s = p :: ps.
Proof.
  induction s as [|c t (p & ps & IH)]; [eexists _, _; reflexivity|].
  cbn [split_on]. rewrite IH. destruct (c =? sep); eexists _, _; reflexivity.
Qed.

Lemma split_on_piece sep piece rest :
  Forall (fun c => c <> sep) piece ->
  split_on sep (piece ++ sep :: rest) = piece :: split_on sep rest.
Proof.
  induction 1 as [|c t Hc _ IH]; cbn [app split_on].
  - rewrite N.eqb_refl. destruct (split_on_cons sep rest) as (p & ps & ->).
    reflexivity.
  - rewrite IH. apply N.eqb_neq in Hc. rewrite Hc. reflexivity.
Qed.

Lemma split_on_join sep pieces :
  pieces <> [] ->
  Forall (Forall (fun c => c <> sep)) pieces ->
  split_on sep (join [sep] pieces) = pieces.
Proof.
  intros Hne Hall. induction Hall as [|p rest Hp Hrest IH]; [congruence|].
  destruct rest as [|q rest'].
  - cbn [join]. apply split_on_absent, Hp.
  - change (join [sep] (p :: q :: rest')) with (p ++ sep :: join [sep] (q :: rest')).
    rewrite split_on_piece by assumption. rewrite IH by discriminate. reflexivity.
Qed.

Lemma join_Forall (P : N -> Prop) sep pieces :
  Forall P sep -> Forall (Forall P) pieces -> Forall P (join sep pieces).
Proof.
  intros Hsep Hall. induction Hall as [|p rest Hp Hrest IH]; [constructor|].
  destruct rest as [|q rest']; [exact Hp|].
  change (join sep (p :: q :: rest')) with (p ++ sep ++ join sep (q :: rest')).
  repeat (apply Forall_app; split); assumption.
Qed.

Lemma serialized_pair_written (nv : jsstr * jsstr) :
  Forall (fun c => form_written c = true \/ c = chr "=")
    (urlencoded_serialize (fst nv) ++ [chr "="] ++ urlencoded_serialize (snd nv)).
Proof.
  repeat (apply Forall_app; split).
  - eapply Forall_impl; [apply urlencoded_serialize_written|]. auto.
  - constructor; [auto | constructor].
  - eapply Forall_impl; [apply urlencoded_serialize_written|]. auto.
Qed.

(** Parsing one serialized pair. *)
Lemma urlencoded_pair_parsed n v :
  kept_by_urls n -> kept_by_urls v ->
  (let piece := urlencoded_serialize n ++ [chr "="] ++ urlencoded_serialize v in
   match piece with
   | [] => []
   | _ :: _ =>
       let '(name, value) :=
         match split_first (chr "=") piece with
         | Some nv => nv
         | None => (piece, [])
         end in
       [(urlencoded_decode name, urlencoded_decode value)]
   end) = [(n, v)].
Proof.
  intros Hn Hv. cbv zeta.
  destruct (urlencoded_serialize n ++ [chr "="] ++ urlencoded_serialize v)
    as [|c piece] eqn:Hpiece.
  { destruct (urlencoded_serialize n); discriminate Hpiece. }
  rewrite <- Hpiece.
  change (urlencoded_serialize n ++ [chr "="] ++ urlencoded_serialize v)
    with (urlencoded_serialize n ++ chr "=" :: urlencoded_serialize v).
  rewrite split_first_at.
  2:{ apply form_written_avoids; [reflexivity | apply urlencoded_serialize_written]. }
  rewrite !urlencoded_decode_serialize by assumption. reflexivity.
Qed.

(** Parsing undoes [params.toString()]. *)
Lemma urlencoded_parse_toString params :
  Forall (fun nv => kept_by_urls (fst nv) /\ kept_by_urls (snd nv)) params ->
  urlencoded_parse (searchParams_toString params) = params.
Proof.
  intros Hkept. destruct params as [|nv0 params0]; [reflexivity|].
  remember (nv0 :: params0) as params eqn:Hparams.
  unfold urlencoded_parse, searchParams_toString.
  rewrite utf8_encode_ascii.
  2:{ apply join_Forall; [repeat constructor|].
      apply Forall_map, Forall_forall. intros nv _.
      eapply Forall_impl; [apply serialized_pair_written|].
      intros c [Hc | ->]; [apply form_written_ascii, Hc | reflexivity]. }
  rewrite split_on_join.
  2:{ subst params. discriminate. }
  2:{ apply Forall_map, Forall_forall. intros nv _.
      eapply Forall_impl; [apply serialized_pair_written|].
      intros c [Hc | ->]; [|discriminate]. intros ->. discriminate Hc. }
  clear Hparams. induction Hkept as [|[n v] rest [Hn Hv] _ IH]; [reflexivity|].
  cbn [map flat_map fst snd]. rewrite IH.
  pose proof (urlencoded_pair_parsed n v Hn Hv) as Hpair. cbv zeta in Hpair.
  rewrite Hpair. reflexivity.
Qed.

(** An ASCII string is kept by the URL round trips. *)
Lemma ascii_kept_by_urls s : Forall (fun c => c < 128) s -> kept_by_urls s.
Proof.
  intros Hs. split.
  - eapply Forall_impl; [exact Hs|]. simpl. lia.
  - induction Hs as [|c t Hc _ IH]; [reflexivity|].
    cbn [isWellFormed]. destruct (not_surrogate_below c ltac:(lia)) as [-> ->].
    exact IH.
Qed.

(** ** Platform facts: trimming and encoding in the words of the specification *)

Lemma trimStart_white before s :
  Forall (fun c => is_white_space c = true) before ->
  trimStart (before ++ s) = trimStart s.
Proof.
  induction 1 as [|c l Hc _ IH]; [reflexivity|].
  cbn [app trimStart]. rewrite Hc. exact IH.
Qed.

Lemma trimStart_stops s :
  (forall c, head s = Some c -> is_white_space c = false) -> trimStart s = s.
Proof.
  destruct s as [|c t]; [reflexivity|]. intros Hhead.
  cbn [trimStart]. rewrite (Hhead c eq_refl). reflexivity.
Qed.

Lemma trimStart_all_white s :
  Forall (fun c => is_white_space c = true) s -> trimStart s = [].
Proof.
  intros Hs. rewrite <- (app_nil_r s). rewrite trimStart_white by assumption.
  reflexivity.
Qed.

Lemma head_rev (s : jsstr) : head (rev s) = last s.
Proof.
  induction s as [|c t IH] using rev_ind; [reflexivity|].
  rewrite rev_app_distr, last_snoc. reflexivity.
Qed.

(** [trim] gives the trimmed text, and nothing else is the trimmed text. *)
Lemma trim_trimmed s t : trimmed s t -> trim s = t.
Proof.
  intros (before & after & -> & Hbefore & Hafter & Hhead & Hlast).
  unfold trim, trimEnd. rewrite trimStart_white by assumption.
  destruct t as [|c t'].
  - cbn [app]. rewrite (trimStart_all_white after Hafter). reflexivity.
  - rewrite (trimStart_stops ((c :: t') ++ after))
      by (intros d Hd; apply Hhead; exact Hd).
    rewrite rev_app_distr.
    rewrite (trimStart_white (rev after) (rev (c :: t')))
      by (apply Forall_rev, Hafter).
    rewrite (trimStart_stops (rev (c :: t'))); [apply rev_involutive|].
    intros d Hd. rewrite head_rev in Hd. apply Hlast, Hd.
Qed.

Lemma lor_high_bit a x : N.testbit a 7 = true -> 128 <= N.lor a x.
Proof.
  intros Ha. assert (Hbit : N.testbit (N.lor a x) 7 = true)
    by (rewrite N.lor_spec, Ha; reflexivity).
  destruct (N.le_gt_cases 128 (N.lor a x)) as [Hge | Hlt]; [exact Hge|].
  apply N.testbit_true in Hbit. change (2 ^ 7) with 128 in Hbit.
  rewrite N.div_small in Hbit by assumption. discriminate Hbit.
Qed.

(** The octets of a code point beyond ASCII are beyond ASCII. *)
Lemma utf8_octets_high cp :
  128 <= cp -> Forall (fun b => 128 <= b) (utf8_octets cp).
Proof.
  intros Hcp. unfold utf8_octets.
  assert (Hlow : (cp <? 128) = false) by (apply N.ltb_ge; exact Hcp).
  rewrite Hlow.
  destruct (cp <? 2048); [|destruct (cp <? 65536)];
    repeat (constructor; [apply lor_high_bit; reflexivity|]); constructor.
Qed.

Lemma unreserved_is_ascii b : uri_unreserved b = true -> b < 128.
Proof.
  intros Hb. apply uri_written_ascii. unfold uri_written. rewrite Hb. reflexivity.
Qed.

(** The octets of a code point that is not unreserved are all escaped. *)
Lemma escaped_octets cp :
  uri_unreserved cp = false ->
  List.concat (map (fun b => if uri_unreserved b then [b] else percent_octet b)
                   (utf8_octets cp))
  = percent_octets (utf8_octets cp).
Proof.
  intros Hcp. destruct (N.lt_ge_cases cp 128) as [Hlow | Hhigh].
  - unfold utf8_octets. apply N.ltb_lt in Hlow. rewrite Hlow.
    cbn [map List.concat percent_octets]. rewrite Hcp. reflexivity.
  - unfold percent_octets.
    induction (utf8_octets_high cp Hhigh) as [|b bs Hb _ IH]; [reflexivity|].
    cbn [map List.concat]. rewrite IH.
    destruct (uri_unreserved b) eqn:Hun; [|reflexivity].
    apply unreserved_is_ascii in Hun. lia.
Qed.

Lemma urlencoded_app_octets cp (rest : list N) :
  List.concat (map (fun b => if uri_unreserved b then [b] else percent_octet b)
                   (utf8_octets cp ++ rest))
  = List.concat (map (fun b => if uri_unreserved b then [b] else percent_octet b)
                     (utf8_octets cp))
    ++ List.concat (map (fun b => if uri_unreserved b then [b] else percent_octet b)
                        rest).
Proof. rewrite map_app, concat_app. reflexivity. Qed.

(** [encodeURIComponent] writes the urlencoded text, for every text whose
    surrogates are paired. *)
Lemma encodeURIComponent_urlencoded_bounded n : forall t,
  (length t <= n)%nat -> isWellFormed t = true ->
  encodeURIComponent t = Some (urlencoded t).
Proof.
  induction n as [|n IH]; intros t Hlen Hwf.
  - destruct t; [reflexivity | cbn in Hlen; lia].
  - destruct t as [|c t]; [reflexivity|]. cbn in Hlen.
    unfold urlencoded in *. cbn [encodeURIComponent utf8_encode isWellFormed] in *.
    destruct (uri_unreserved c) eqn:Hun.
    + pose proof (unreserved_is_ascii c Hun) as Hascii.
      destruct (not_surrogate_below c ltac:(lia)) as [Hl Htr].
      rewrite Hl, Htr in *. cbn [negb andb] in Hwf.
      rewrite (IH t) by (assumption || lia).
      rewrite (urlencoded_app_octets c).
      unfold utf8_octets. apply N.ltb_lt in Hascii. rewrite Hascii.
      cbn [map List.concat]. rewrite Hun. reflexivity.
    + destruct (is_lead_surrogate c) eqn:Hlead.
      * destruct t as [|d t']; [discriminate|].
        apply andb_true_iff in Hwf. destruct Hwf as [Htrail Hwf].
        rewrite Htrail. rewrite (IH t') by (assumption || (cbn in Hlen; lia)).
        rewrite (urlencoded_app_octets (surrogate_pair c d)).
        rewrite escaped_octets; [reflexivity|].
        destruct (uri_unreserved (surrogate_pair c d)) eqn:Hpair; [|reflexivity].
        apply unreserved_is_ascii in Hpair. unfold surrogate_pair in Hpair. lia.
      * apply andb_true_iff in Hwf. destruct Hwf as [Htrail Hwf].
        apply negb_true_iff in Htrail. rewrite Htrail.
        rewrite (IH t) by (assumption || lia).
        rewrite (urlencoded_app_octets c).
        rewrite escaped_octets by assumption. reflexivity.
Qed.

Lemma encodeURIComponent_urlencoded t :
  isWellFormed t = true -> encodeURIComponent t = Some (urlencoded t).
Proof. apply (encodeURIComponent_urlencoded_bounded (length t)). lia. Qed.

(** The urlencoded text holds unreserved characters and escapes only, and
    percent-decoding it and reading the octets as UTF-8 gives the text
    back. *)
Lemma urlencoded_decodes t :
  kept_by_urls t ->
  Forall (fun c => uri_written c = true) (urlencoded t)
  /\ utf8_decode_without_BOM (percent_decode (urlencoded t)) = t.
Proof.
  intros Hkept. pose proof Hkept as [Hunits Hwf].
  pose proof (encodeURIComponent_urlencoded t Hwf) as Henc.
  split; [eapply encodeURIComponent_written, Henc|].
  rewrite (percent_decode_component_bounded (length t) t _ (le_n _) Hunits Hwf Henc).
  apply utf8_decode_encode, Hkept.
Qed.

(** ** The route *)

Section RouteFacts.
Context `{JsEngine}.
Variable upstream : Outbound -> FetchResult.
Variable authorization : jsstr.

Lemma JSON_roundtrip_error_payload m :
  JSON_roundtrip (error_payload m) = error_payload m.
Proof.
  unfold error_payload. cbn [JSON_roundtrip]. rewrite map_fmap_singleton.
  reflexivity.
Qed.

(** A value whose numbers are all written as themselves comes back as it
    is. *)
Lemma JSON_roundtrip_exact : forall v, JSON_exact v -> JSON_roundtrip v = v.
Proof.
  fix IH 2. intros v Hv. destruct Hv as [| | n Hn | | elements Hall | fields Hall];
    cbn [JSON_roundtrip]; try reflexivity.
  - rewrite Hn. reflexivity.
  - f_equal. induction Hall as [|x rest Hx _ IHrest]; [reflexivity|].
    cbn [map]. rewrite (IH x Hx), IHrest. reflexivity.
  - f_equal. apply map_eq. intros k. rewrite lookup_fmap.
    destruct (fields !! k) as [x|] eqn:Hk; [|reflexivity].
    cbn. rewrite (IH x (Hall k x Hk)). reflexivity.
Qed.

Lemma NextResponse_json_default data :
  NextResponse_json data None
  = inr {| nr_status := 200; nr_body := JSON_roundtrip data |}.
Proof. reflexivity. Qed.

Lemma NextResponse_json_in_range data s :
  200 <= s <= 599 -> null_body_status s = false ->
  NextResponse_json data (Some s)
  = inr {| nr_status := s; nr_body := JSON_roundtrip data |}.
Proof.
  intros [Hlo Hhi] Hnb. unfold NextResponse_json. simpl.
  apply N.leb_le in Hlo, Hhi. rewrite Hlo, Hhi, Hnb. reflexivity.
Qed.

(** The handler on a request that lacks [path]. *)
Lemma GET_try_without_path request s :
  missing (searchParams_get (lit "path") (URL_searchParams (url request))) ->
  GET_try upstream authorization request s
  = (inr {| nr_status := 400; nr_body := error_payload (lit "Path is required") |}, s).
Proof.
  rewrite <- (JSON_roundtrip_error_payload (lit "Path is required")).
  intros [Hp | Hp]; unfold GET_try; rewrite Hp; reflexivity.
Qed.

(** The handler on a request that has [path] and lacks [apiUrl]. *)
Lemma GET_try_without_apiUrl request s :
  ~ missing (searchParams_get (lit "path") (URL_searchParams (url request))) ->
  missing (searchParams_get (lit "apiUrl") (URL_searchParams (url request))) ->
  GET_try upstream authorization request s
  = (inr {| nr_status := 400; nr_body := error_payload (lit "API URL is required") |}, s).
Proof.
  rewrite <- (JSON_roundtrip_error_payload (lit "API URL is required")).
  intros Hp Ha. unfold GET_try, missing in *.
  destruct (searchParams_get (lit "path") _) as [[|c p]|]; [tauto| |tauto].
  destruct Ha as [Ha | Ha]; rewrite Ha; reflexivity.
Qed.

(** The handler on a request that has both: one outbound call, then the
    answer decides. *)
Lemma GET_try_forwards request s p a :
  searchParams_get (lit "path") (URL_searchParams (url request)) = Some p ->
  p <> [] ->
  searchParams_get (lit "apiUrl") (URL_searchParams (url request)) = Some a ->
  a <> [] ->
  GET_try upstream authorization request s
  = match upstream (upstream_call authorization a p) with
    | Rejects e => (inl e, after_call s (upstream_call authorization a p))
    | Resolves r =>
        match json_body r with
        | inl e => (inl e, after_call s (upstream_call authorization a p))
        | inr data =>
            (NextResponse_json data (if ok r then None else Some (status r)),
             after_call s (upstream_call authorization a p))
        end
    end.
Proof.
  intros Hp Hpne Ha Hane. unfold GET_try. rewrite Hp, Ha.
  destruct p as [|c p]; [congruence|]. destruct a as [|d a]; [congruence|].
  unfold server_fetch. exec. fold (upstream_call authorization (d :: a) (c :: p)).
  fold (after_call s (upstream_call authorization (d :: a) (c :: p))).
  destruct (upstream _) as [e | r]; [reflexivity|].
  destruct (json_body r) as [e | data]; [reflexivity|].
  destruct (ok r); reflexivity.
Qed.

(** The [catch] block turns whatever the [try] block throws into the
    generic 500 response. *)
Lemma GET_catches request s :
  GET upstream authorization request s
  = match GET_try upstream authorization request s with
    | (inr resp, s') => (inr resp, s')
    | (inl e, s') =>
        (inr {| nr_status := 500;
                nr_body := error_payload (lit "Failed to fetch results") |},
         after_log s' e)
    end.
Proof.
  rewrite <- (JSON_roundtrip_error_payload (lit "Failed to fetch results")).
  unfold GET. exec. destruct (GET_try upstream authorization request s) as [[e | resp] s'];
    reflexivity.
Qed.
End RouteFacts.

Section RouteClaims.
Context `{JsEngine}.
Variable upstream : Outbound -> FetchResult.
Variable authorization : jsstr.

(** Claim C4. A request that lacks [path] (absent or empty) is answered 400 with
    [{error: "Path is required"}]; a request that has [path] and lacks
    [apiUrl] is answered 400 with [{error: "API URL is required"}].  In
    both cases the server is left as it was: no outbound call is made. *)
Theorem proxy_names_missing_parameter (request : Request) (s : Server) :
  (missing (searchParams_get (lit "path") (URL_searchParams (url request))) ->
   GET upstream authorization request s
   = (inr {| nr_status := 400;
             nr_body := error_payload (lit "Path is required") |}, s))
  /\ (~ missing (searchParams_get (lit "path") (URL_searchParams (url request))) ->
      missing (searchParams_get (lit "apiUrl") (URL_searchParams (url request))) ->
      GET upstream authorization request s
      = (inr {| nr_status := 400;
                nr_body := error_payload (lit "API URL is required") |}, s)).
Proof.
  split.
  - intros Hp. rewrite GET_catches, GET_try_without_path by assumption.
    reflexivity.
  - intros Hp Ha. rewrite GET_catches, GET_try_without_apiUrl by assumption.
    reflexivity.
Qed.

(** Claim C5, amended.  When the upstream answers with a status from 300 to 599
    other than 304 and a body that parses as JSON, the proxy's response
    carries that status, and its body is the parsed value as
    [JSON.stringify] writes it: the same value when every number in it is
    written as itself, and with [null] in the place of a number that is
    not. *)
Theorem proxy_relays_failure (request : Request) (s : Server)
    (p a : jsstr) (r : Response) (data : json) :
  searchParams_get (lit "path") (URL_searchParams (url request)) = Some p ->
  p <> [] ->
  searchParams_get (lit "apiUrl") (URL_searchParams (url request)) = Some a ->
  a <> [] ->
  upstream (upstream_call authorization a p) = Resolves r ->
  json_body r = inr data ->
  300 <= status r <= 599 ->
  status r <> 304 ->
  GET upstream authorization request s
  = (inr {| nr_status := status r; nr_body := JSON_roundtrip data |},
     after_call s (upstream_call authorization a p))
  /\ (JSON_exact data ->
      GET upstream authorization request s
      = (inr {| nr_status := status r; nr_body := data |},
         after_call s (upstream_call authorization a p))).
Proof.
  intros Hp Hpne Ha Hane Hup Hdata [Hlo Hhi] H304.
  assert (Hrun : GET upstream authorization request s
    = (inr {| nr_status := status r; nr_body := JSON_roundtrip data |},
       after_call s (upstream_call authorization a p))).
  { rewrite GET_catches, (GET_try_forwards _ _ _ _ p a) by assumption.
    rewrite Hup, Hdata.
    assert (Hok : ok r = false).
    { unfold ok. apply andb_false_iff. right. apply N.leb_gt. lia. }
    rewrite Hok, NextResponse_json_in_range; [reflexivity | lia |].
    unfold null_body_status.
    repeat (apply orb_false_iff; split); apply N.eqb_neq; lia. }
  split; [exact Hrun|].
  intros Hexact. rewrite Hrun, (JSON_roundtrip_exact data Hexact). reflexivity.
Qed.

(** Claim C6.  The handler always returns a response, never an exception; and
    when the outbound [fetch] rejects, or the upstream body does not parse,
    that response is 500 with [{error: "Failed to fetch results"}]. *)
Theorem proxy_failure_is_500 (request : Request) (s : Server) :
  (exists resp s', GET upstream authorization request s = (inr resp, s'))
  /\ forall p a e,
      searchParams_get (lit "path") (URL_searchParams (url request)) = Some p ->
      p <> [] ->
      searchParams_get (lit "apiUrl") (URL_searchParams (url request)) = Some a ->
      a <> [] ->
      (upstream (upstream_call authorization a p) = Rejects e
       \/ exists r, upstream (upstream_call authorization a p) = Resolves r
                    /\ json_body r = inl e) ->
      GET upstream authorization request s
      = (inr {| nr_status := 500;
                nr_body := error_payload (lit "Failed to fetch results") |},
         after_log (after_call s (upstream_call authorization a p)) e).
Proof.
  split.
  - rewrite GET_catches.
    destruct (GET_try upstream authorization request s) as [[e | resp] s']; eauto.
  - intros p a e Hp Hpne Ha Hane Hfail.
    rewrite GET_catches, (GET_try_forwards _ _ _ _ p a) by assumption.
    destruct Hfail as [Hrej | (r & Hres & Hbody)].
    + rewrite Hrej. reflexivity.
    + rewrite Hres, Hbody. reflexivity.
Qed.

(** Claim C9, amended.  When the upstream answers with a 2xx status and a body
    that parses as JSON, the proxy responds 200, whatever the exact upstream
    status; the body of that response is the parsed value as
    [JSON.stringify] writes it, the same value when every number in it is
    written as itself. *)
Theorem proxy_success_is_200 (request : Request) (s : Server)
    (p a : jsstr) (r : Response) (data : json) :
  searchParams_get (lit "path") (URL_searchParams (url request)) = Some p ->
  p <> [] ->
  searchParams_get (lit "apiUrl") (URL_searchParams (url request)) = Some a ->
  a <> [] ->
  upstream (upstream_call authorization a p) = Resolves r ->
  json_body r = inr data ->
  ok r = true ->
  GET upstream authorization request s
  = (inr {| nr_status := 200; nr_body := JSON_roundtrip data |},
     after_call s (upstream_call authorization a p))
  /\ (JSON_exact data ->
      GET upstream authorization request s
      = (inr {| nr_status := 200; nr_body := data |},
         after_call s (upstream_call authorization a p))).
Proof.
  intros Hp Hpne Ha Hane Hup Hdata Hok.
  assert (Hrun : GET upstream authorization request s
    = (inr {| nr_status := 200; nr_body := JSON_roundtrip data |},
       after_call s (upstream_call authorization a p))).
  { rewrite GET_catches, (GET_try_forwards _ _ _ _ p a) by assumption.
    rewrite Hup, Hdata, Hok. reflexivity. }
  split; [exact Hrun|].
  intros Hexact. rewrite Hrun, (JSON_roundtrip_exact data Hexact). reflexivity.
Qed.
End RouteClaims.

Section RouteScenarios.
#[local] Existing Instance example_engine.

Lemma documented_request_params :
  searchParams_get (lit "path") (URL_searchParams (url documented_request))
    = Some (lit "/ai/v1/artworks/1/similarity/2")
  /\ searchParams_get (lit "apiUrl") (URL_searchParams (url documented_request))
    = Some (lit "https://api-test.artic.edu").
Proof. vm_compute. split; reflexivity. Qed.

(** A [path] parameter that is present and empty fails the [!path] test like
    an absent one. *)
Example empty_path_counts_as_missing :
  GET upstream_404 demo_authorization
    {| url := lit "http://localhost:3000/api/artwork?path=&apiUrl=https%3A%2F%2Fapi-test.artic.edu" |}
    idle_server
  = (inr {| nr_status := 400;
            nr_body := error_payload (lit "Path is required") |}, idle_server).
Proof. vm_compute. reflexivity. Qed.

Lemma proxy_names_missing_parameter_witness :
  GET upstream_404 demo_authorization request_without_path idle_server
    = (inr {| nr_status := 400;
              nr_body := error_payload (lit "Path is required") |}, idle_server)
  /\ GET upstream_404 demo_authorization request_without_apiUrl idle_server
    = (inr {| nr_status := 400;
              nr_body := error_payload (lit "API URL is required") |}, idle_server).
Proof.
  split.
  - apply (proxy_names_missing_parameter upstream_404 demo_authorization request_without_path).
    left. vm_compute. reflexivity.
  - apply (proxy_names_missing_parameter upstream_404 demo_authorization request_without_apiUrl).
    + intros [Hm | Hm]; vm_compute in Hm; discriminate Hm.
    + left. vm_compute. reflexivity.
Defined.

Lemma proxy_relays_failure_witness :
  GET upstream_404 demo_authorization documented_request idle_server
  = (inr {| nr_status := 404; nr_body := not_found |},
     after_call idle_server
       (upstream_call demo_authorization (lit "https://api-test.artic.edu")
                      (lit "/ai/v1/artworks/1/similarity/2"))).
Proof.
  apply (proxy_relays_failure upstream_404 demo_authorization documented_request idle_server
           (lit "/ai/v1/artworks/1/similarity/2")
           (lit "https://api-test.artic.edu")
           {| status := 404; json_body := inr not_found |} not_found).
  - vm_compute. reflexivity.
  - discriminate.
  - vm_compute. reflexivity.
  - discriminate.
  - reflexivity.
  - reflexivity.
  - simpl. lia.
  - simpl. lia.
  - apply exact_object. intros k v Hk.
    apply lookup_singleton_Some in Hk. destruct Hk as [_ <-]. constructor.
Defined.

(** The body is written anew: a number that [JSON.stringify] cannot write,
    the infinity [JSON.parse] reads from [1e999], leaves the proxy as
    [null]. *)
Example proxy_rewrites_overflowed_number :
  GET upstream_overflow demo_authorization documented_request idle_server
  = (inr {| nr_status := 404; nr_body := JObj {[ lit "error" := JNull ]} |},
     after_call idle_server
       (upstream_call demo_authorization (lit "https://api-test.artic.edu")
                      (lit "/ai/v1/artworks/1/similarity/2")))
  /\ JObj {[ lit "error" := JNull ]} <> overflowed.
Proof.
  split.
  - destruct documented_request_params as [Hp Ha].
    rewrite GET_catches.
    rewrite (GET_try_forwards _ _ _ _ _ _ Hp ltac:(discriminate) Ha ltac:(discriminate)).
    vm_compute. reflexivity.
  - intros Heq.
    apply (f_equal (fun v => match v with
                             | JObj f => f !! lit "error"
                             | _ => None
                             end)) in Heq.
    vm_compute in Heq. discriminate Heq.
Qed.

(** Claim C5, as stated, fails: an upstream status of 999 with a JSON body is a
    non-2xx status, yet the proxy answers 500 with its own payload,
    because [NextResponse.json] refuses the status and the [catch] block
    takes over. *)
Lemma proxy_does_not_relay_999 :
  ok {| status := 999; json_body := inr denied |} = false
  /\ GET upstream_999 demo_authorization documented_request idle_server
     = (inr {| nr_status := 500;
               nr_body := error_payload (lit "Failed to fetch results") |},
        after_log
          (after_call idle_server
             (upstream_call demo_authorization (lit "https://api-test.artic.edu")
                            (lit "/ai/v1/artworks/1/similarity/2")))
          (Builtin (RangeError_status 999)))
  /\ fst (GET upstream_999 demo_authorization documented_request idle_server)
     <> inr {| nr_status := 999; nr_body := denied |}.
Proof.
  assert (Hrun : GET upstream_999 demo_authorization documented_request idle_server
     = (inr {| nr_status := 500;
               nr_body := error_payload (lit "Failed to fetch results") |},
        after_log
          (after_call idle_server
             (upstream_call demo_authorization (lit "https://api-test.artic.edu")
                            (lit "/ai/v1/artworks/1/similarity/2")))
          (Builtin (RangeError_status 999)))).
  { destruct documented_request_params as [Hp Ha].
    rewrite GET_catches.
    rewrite (GET_try_forwards _ _ _ _ _ _ Hp ltac:(discriminate) Ha ltac:(discriminate)).
    reflexivity. }
  split; [reflexivity|]. split; [exact Hrun|].
  rewrite Hrun. simpl. intros Heq. inversion Heq.
Qed.

Lemma proxy_failure_is_500_witness :
  GET upstream_down demo_authorization documented_request idle_server
  = (inr {| nr_status := 500;
            nr_body := error_payload (lit "Failed to fetch results") |},
     after_log
       (after_call idle_server
          (upstream_call demo_authorization (lit "https://api-test.artic.edu")
                         (lit "/ai/v1/artworks/1/similarity/2")))
       (Error (lit "fetch failed"))).
Proof.
  apply (proj2 (proxy_failure_is_500 upstream_down demo_authorization documented_request idle_server)).
  - vm_compute. reflexivity.
  - discriminate.
  - vm_compute. reflexivity.
  - discriminate.
  - left. reflexivity.
Defined.

Lemma proxy_success_is_200_witness :
  GET upstream_201 demo_authorization documented_request idle_server
  = (inr {| nr_status := 200; nr_body := JObj {[ lit "items" := JArr [] ]} |},
     after_call idle_server
       (upstream_call demo_authorization (lit "https://api-test.artic.edu")
                      (lit "/ai/v1/artworks/1/similarity/2"))).
Proof.
  apply (proxy_success_is_200 upstream_201 demo_authorization documented_request idle_server
           (lit "/ai/v1/artworks/1/similarity/2")
           (lit "https://api-test.artic.edu")
           {| status := 201; json_body := inr (JObj {[ lit "items" := JArr [] ]}) |}).
  - vm_compute. reflexivity.
  - discriminate.
  - vm_compute. reflexivity.
  - discriminate.
  - reflexivity.
  - reflexivity.
  - reflexivity.
  - apply exact_object. intros k v Hk.
    apply lookup_singleton_Some in Hk. destruct Hk as [_ <-].
    apply exact_array. constructor.
Defined.

(** A byte order mark in a query is a character like any other: as the
    value of [path] it is a path, and in front of the name it makes another
    name, so that [path] is missing. *)
Example byte_order_mark_in_query :
  URL_searchParams
    (lit "http://localhost:3000/api/artwork?path=%EF%BB%BF&apiUrl=http%3A%2F%2Fh")
  = [(lit "path", [65279]); (lit "apiUrl", lit "http://h")]
  /\ URL_searchParams
       (lit "http://localhost:3000/api/artwork?%EF%BB%BFpath=%2Fx&apiUrl=http%3A%2F%2Fh")
     = [(65279 :: lit "path", lit "/x"); (lit "apiUrl", lit "http://h")]
  /\ GET upstream_404 demo_authorization
       {| url := lit "http://localhost:3000/api/artwork?path=%EF%BB%BF&apiUrl=http%3A%2F%2Fh" |}
       idle_server
     = (inr {| nr_status := 404; nr_body := not_found |},
        after_call idle_server
          (upstream_call demo_authorization (lit "http://h") [65279]))
  /\ GET upstream_404 demo_authorization
       {| url := lit "http://localhost:3000/api/artwork?%EF%BB%BFpath=%2Fx&apiUrl=http%3A%2F%2Fh" |}
       idle_server
     = (inr {| nr_status := 400;
               nr_body := error_payload (lit "Path is required") |}, idle_server).
Proof.
  split; [vm_compute; reflexivity|].
  split; [vm_compute; reflexivity|].
  split; vm_compute; reflexivity.
Qed.

(** Claim C9, as stated, fails: 204 is a 2xx status, its empty body does not
    parse, and the proxy answers 500. *)
Lemma proxy_answers_500_to_204 :
  ok {| status := 204;
        json_body := inl (Error (lit "Unexpected end of JSON input")) |} = true
  /\ GET upstream_204 demo_authorization documented_request idle_server
     = (inr {| nr_status := 500;
               nr_body := error_payload (lit "Failed to fetch results") |},
        after_log
          (after_call idle_server
             (upstream_call demo_authorization (lit "https://api-test.artic.edu")
                            (lit "/ai/v1/artworks/1/similarity/2")))
          (Error (lit "Unexpected end of JSON input"))).
Proof.
  split; [reflexivity|].
  destruct documented_request_params as [Hp Ha].
  rewrite GET_catches.
  rewrite (GET_try_forwards _ _ _ _ _ _ Hp ltac:(discriminate) Ha ltac:(discriminate)).
  reflexivity.
Qed.
End RouteScenarios.

(** ** The page *)

Ltac page_setters :=
  unfold setResults, setLoading, setError, setDebugUrl, page_console_error,
    pushState, page_fetch, throw_new_Error.

Ltac browser_fields :=
  cbn [results loading error debugUrl pathname pushed requests console
       set_results set_loading set_error set_debugUrl add_pushed add_request
       add_logged fst snd].

Section PageFacts.
Context `{JsEngine}.
Variable network : jsstr -> FetchResult.

Lemma validation_failure_throws inp msg :
  validation_failure inp msg -> apiPath_switch inp = inl (Error msg).
Proof.
  intros Hv. unfold apiPath_switch.
  destruct Hv as [Hq Ht | Hq Ht | Hq Ht | H1 H2 H3].
  - rewrite Hq, Ht. reflexivity.
  - rewrite Hq, Ht. reflexivity.
  - rewrite Hq. destruct Ht as [Ht | Ht]; rewrite Ht; cbn.
    + reflexivity.
    + rewrite orb_true_r. reflexivity.
  - apply str_eqb_neq in H1, H2, H3. rewrite H1, H2, H3. reflexivity.
Qed.

(** [updateUrl] returns, and writes the history only. *)
Lemma updateUrl_returns inp b :
  updateUrl inp b = (inr tt, snd (updateUrl inp b)).
Proof. unfold updateUrl, pushState. exec. reflexivity. Qed.

Lemma updateUrl_keeps inp b :
  results (snd (updateUrl inp b)) = results b
  /\ loading (snd (updateUrl inp b)) = loading b
  /\ error (snd (updateUrl inp b)) = error b
  /\ debugUrl (snd (updateUrl inp b)) = debugUrl b
  /\ pathname (snd (updateUrl inp b)) = pathname b
  /\ requests (snd (updateUrl inp b)) = requests b
  /\ console (snd (updateUrl inp b)) = console b.
Proof. unfold updateUrl, pushState. exec. repeat split; reflexivity. Qed.

(** The display is empty and nothing is requested when the [try] block
    starts. *)
Lemma search_started_cleared inp flag b :
  results (search_started inp flag b) = None
  /\ error (search_started inp flag b) = None
  /\ debugUrl (search_started inp flag b) = []
  /\ requests (search_started inp flag b) = requests b.
Proof.
  unfold search_started. destruct flag.
  - destruct (updateUrl_keeps inp
      (set_debugUrl [] (set_error None (set_loading true (set_results None b)))))
      as (-> & _ & -> & -> & _ & -> & _).
    repeat split; reflexivity.
  - repeat split; reflexivity.
Qed.

(** [handleSearch] is its [try] block run from there, followed by the
    [catch] block if it throws and by [setLoading(false)]. *)
Lemma handleSearch_run inp flag b :
  handleSearch network inp flag b
  = match handleSearch_try network inp (search_started inp flag b) with
    | (inr _, b1) => (inr tt, set_loading false b1)
    | (inl e, b1) =>
        (inr tt,
         set_loading false
           (add_logged e (set_error (Some (displayed_message e)) b1)))
    end.
Proof.
  unfold handleSearch, handleSearch_catch, search_started. page_setters. exec.
  destruct flag.
  - rewrite updateUrl_returns.
    destruct (handleSearch_try network inp _) as [[e | []] b1]; reflexivity.
  - destruct (handleSearch_try network inp _) as [[e | []] b1]; reflexivity.
Qed.

(** The [try] block: the switch, one request, and its outcome. *)
Lemma handleSearch_try_run inp b0 :
  handleSearch_try network inp b0
  = match apiPath_switch inp with
    | inl e => (inl e, b0)
    | inr p =>
        match uri_component p with
        | inl e => (inl e, b0)
        | inr enc =>
            let b1 :=
              add_request (lit "/api/artwork?path=" ++ enc)
                (set_debugUrl (replace_trailing_slash (apiUrl inp) ++ p) b0) in
            match fetch_outcome (network (lit "/api/artwork?path=" ++ enc)) with
            | inl e => (inl e, b1)
            | inr data => (inr tt, set_results (Some data) b1)
            end
        end
    end.
Proof.
  unfold handleSearch_try. page_setters. exec.
  destruct (apiPath_switch inp) as [e | p]; [reflexivity|].
  destruct (uri_component p) as [e | enc]; [reflexivity|].
  unfold fetch_outcome, response_outcome. exec.
  destruct (network _) as [e | r]; [reflexivity|].
  destruct (json_body r) as [e | data]; [reflexivity|].
  destruct (ok r); [reflexivity|]. cbn [negb].
  destruct (failure_reason data) as [e | reason]; [reflexivity|].
  destruct (ToString reason) as [e | message]; reflexivity.
Qed.

(** A call that nothing interrupts: [handleSearch] is the call followed at
    once by its two continuations. *)
Lemma handleSearch_uninterrupted inp flag b :
  handleSearch network inp flag b
  = (inr tt,
     match handleSearch_call inp flag b with
     | (None, b') => b'
     | (Some k, b1) =>
         match handleSearch_resume network k b1 with
         | (None, b') => b'
         | (Some k', b2) => snd (handleSearch_resume network k' b2)
         end
     end).
Proof.
  unfold handleSearch, handleSearch_call, handleSearch_resume, handleSearch_fails,
    handleSearch_try, handleSearch_to_fetch, handleSearch_from_json,
    handleSearch_catch.
  page_setters. exec.
  destruct flag.
  - rewrite updateUrl_returns. cbn [snd].
    destruct (apiPath_switch inp) as [e | p]; [reflexivity|].
    destruct (uri_component p) as [e | enc]; [reflexivity|].
    cbn [fst snd].
    destruct (network _) as [e | r]; [reflexivity|].
    destruct (json_body r) as [e | data]; [reflexivity|].
    destruct (ok r); [reflexivity|]. cbn [negb].
    destruct (failure_reason data) as [e | reason]; [reflexivity|].
    destruct (ToString reason) as [e | message]; reflexivity.
  - cbn [snd].
    destruct (apiPath_switch inp) as [e | p]; [reflexivity|].
    destruct (uri_component p) as [e | enc]; [reflexivity|].
    cbn [fst snd].
    destruct (network _) as [e | r]; [reflexivity|].
    destruct (json_body r) as [e | data]; [reflexivity|].
    destruct (ok r); [reflexivity|]. cbn [negb].
    destruct (failure_reason data) as [e | reason]; [reflexivity|].
    destruct (ToString reason) as [e | message]; reflexivity.
Qed.

(** The run of [handleSearch] when the switch throws: nothing is
    requested, the message of the exception is displayed. *)
Lemma handleSearch_switch_throws inp flag b e :
  apiPath_switch inp = inl e ->
  exists b',
    handleSearch network inp flag b = (inr tt, b')
    /\ results b' = None
    /\ loading b' = false
    /\ error b' = Some (displayed_message e)
    /\ debugUrl b' = []
    /\ requests b' = requests b.
Proof.
  intros He. rewrite handleSearch_run, handleSearch_try_run, He.
  destruct (search_started_cleared inp flag b) as (Hres & _ & Hdbg & Hreq).
  eexists. split; [reflexivity|]. browser_fields. auto.
Qed.

(** The run of [handleSearch] when the switch builds a path: one request,
    whose answer decides what is displayed. *)
Lemma handleSearch_dispatches inp flag b p enc :
  apiPath_switch inp = inr p ->
  uri_component p = inr enc ->
  exists b',
    handleSearch network inp flag b = (inr tt, b')
    /\ loading b' = false
    /\ debugUrl b' = replace_trailing_slash (apiUrl inp) ++ p
    /\ requests b' = requests b ++ [lit "/api/artwork?path=" ++ enc]
    /\ match fetch_outcome (network (lit "/api/artwork?path=" ++ enc)) with
       | inr data => results b' = Some data /\ error b' = None
       | inl e => results b' = None /\ error b' = Some (displayed_message e)
       end.
Proof.
  intros Hp Henc. rewrite handleSearch_run, handleSearch_try_run, Hp, Henc.
  destruct (search_started_cleared inp flag b) as (Hres & Herr & _ & Hreq).
  cbv zeta.
  destruct (fetch_outcome _) as [e | data];
    (eexists; split; [reflexivity|]); browser_fields; rewrite Hreq; auto.
Qed.

(** Every path the switch builds starts with a slash and is ASCII. *)
Lemma uri_component_ascii s e :
  uri_component s = inr e -> Forall (fun c => c < 128) e.
Proof.
  unfold uri_component. destruct (encodeURIComponent s) as [e'|] eqn:He; [|discriminate].
  intros [= <-]. eapply Forall_impl; [apply (encodeURIComponent_written _ _ He)|].
  apply uri_written_ascii.
Qed.

Lemma lit_ascii_cons a s :
  N_of_ascii a < 128 -> Forall (fun c => c < 128) (lit s) ->
  Forall (fun c => c < 128) (lit (String a s)).
Proof. intros Ha Hs. constructor; assumption. Qed.

Lemma apiPath_switch_shape inp p :
  apiPath_switch inp = inr p ->
  (exists p', p = chr "/" :: p') /\ Forall (fun c => c < 128) p.
Proof.
  unfold apiPath_switch. exec.
  destruct (str_eqb (queryType inp) (lit "semantic")).
  { destruct (negb _); [discriminate|].
    destruct (uri_component (trim (searchQuery inp))) as [e | q] eqn:Hq;
      [discriminate|].
    intros Heq.
    assert (p = lit "/ai/v1/artworks/search?q=" ++ q) as -> by congruence.
    split; [eexists; reflexivity|].
    apply Forall_app; split; [|eapply uri_component_ascii; eauto].
    repeat (apply lit_ascii_cons; [reflexivity|]). constructor. }
  destruct (str_eqb (queryType inp) (lit "nearest_neighbor")).
  { destruct (negb _); [discriminate|].
    destruct (uri_component (trim (artworkId inp))) as [e | id] eqn:Hid;
      [discriminate|].
    intros Heq.
    assert (p = lit "/ai/v1/artworks/" ++ id ++ lit "/nearest?limit=30")
      as -> by congruence.
    split; [eexists; reflexivity|].
    repeat (apply Forall_app; split);
      [| eapply uri_component_ascii; eauto |];
      repeat (apply lit_ascii_cons; [reflexivity|]); constructor. }
  destruct (str_eqb (queryType inp) (lit "similarity")); [|discriminate].
  destruct (_ || _); [discriminate|].
  destruct (uri_component (trim (artworkId inp))) as [e | id1] eqn:Hid1;
    [discriminate|].
  destruct (uri_component (trim (compareId inp))) as [e | id2] eqn:Hid2;
    [discriminate|].
  intros Heq.
  assert (p = lit "/ai/v1/artworks/" ++ id1 ++ lit "/similarity/" ++ id2)
    as -> by congruence.
  split; [eexists; reflexivity|].
  repeat (apply Forall_app; split);
    [| eapply uri_component_ascii; eauto | | eapply uri_component_ascii; eauto];
    repeat (apply lit_ascii_cons; [reflexivity|]); constructor.
Qed.

(** Every path the switch builds can be encoded once more, and decoding
    the result gives the path back. *)
Lemma apiPath_encodes inp p :
  apiPath_switch inp = inr p ->
  p <> []
  /\ exists enc, uri_component p = inr enc
                 /\ Forall (fun c => uri_written c = true) enc
                 /\ urlencoded_decode enc = p.
Proof.
  intros Hp. destruct (apiPath_switch_shape _ _ Hp) as [[p' ->] Hascii].
  split; [discriminate|].
  destruct (encodeURIComponent_defined (chr "/" :: p')) as [enc Henc].
  { eapply Forall_impl; [exact Hascii|]. simpl. lia. }
  exists enc. unfold uri_component. rewrite Henc.
  split; [reflexivity|]. split.
  - eapply encodeURIComponent_written; eauto.
  - eapply urlencoded_decode_encoded; eauto.
Qed.

(** [data.error || data.detail || 'Failed to fetch results'], by cases. *)
Lemma failure_reason_error data e :
  Get data (lit "error") = inr e -> truthy e = true ->
  failure_reason data = inr (default JNull e).
Proof.
  intros He Hte. unfold failure_reason. rewrite He. exec. rewrite Hte.
  reflexivity.
Qed.

Lemma failure_reason_detail data e d :
  Get data (lit "error") = inr e -> truthy e = false ->
  Get data (lit "detail") = inr d ->
  failure_reason data
  = inr (if truthy d then default JNull d
         else JStr (lit "Failed to fetch results")).
Proof.
  intros He Hte Hd. unfold failure_reason. rewrite He. exec. rewrite Hte, Hd.
  destruct (truthy d); reflexivity.
Qed.

Lemma render_error_nonempty (s : jsstr) :
  s <> [] -> render_error (Some s) = Some s.
Proof. destruct s; [congruence | reflexivity]. Qed.

Lemma Get_error_payload m :
  Get (error_payload m) (lit "error") = inr (Some (JStr m)).
Proof. unfold error_payload. cbn [Get]. rewrite lookup_singleton_eq. reflexivity. Qed.

(** What a non-ok response carrying [{error: m}] means to the page. *)
Lemma response_outcome_error_payload r m :
  ok r = false -> json_body r = inr (error_payload m) -> m <> [] ->
  response_outcome r = inl (Error m).
Proof.
  intros Hok Hbody Hm. apply str_truthy_nonempty in Hm.
  unfold response_outcome. rewrite Hbody. exec. rewrite Hok.
  rewrite (failure_reason_error _ _ (Get_error_payload m) Hm). reflexivity.
Qed.

(** After a non-ok response with a JSON body, the displayed message is the
    string conversion of [data.error || data.detail || 'Failed to fetch
    results']. *)
Lemma handleSearch_failed_response inp flag b p enc r data :
  apiPath_switch inp = inr p ->
  uri_component p = inr enc ->
  network (lit "/api/artwork?path=" ++ enc) = Resolves r ->
  ok r = false ->
  json_body r = inr data ->
  forall reason message,
    failure_reason data = inr reason ->
    ToString reason = inr message ->
    error (snd (handleSearch network inp flag b)) = Some message.
Proof.
  intros Hp Henc Hnet Hok Hdata reason message Hreason Hmsg.
  destruct (handleSearch_dispatches inp flag b p enc Hp Henc)
    as (b' & -> & _ & _ & _ & Hout).
  rewrite Hnet in Hout. unfold fetch_outcome, response_outcome in Hout.
  rewrite Hdata in Hout. exec_in Hout.
  rewrite Hok, Hreason, Hmsg in Hout. apply Hout.
Qed.
End PageFacts.

(** ** The markup of the results *)

Section MarkupFacts.
Context `{JsEngine}.

Lemma primitive_child v : primitive v -> is_Some (React_child_of v).
Proof.
  destruct v as [[| | |[|c s]| |]|]; cbn; intros Hv; try contradiction; eauto.
Qed.

Lemma primitive_to_string v : primitive v -> is_Some (to_string v).
Proof.
  destruct v as [[| [] | | | |]|]; cbn; intros Hv; try contradiction; eauto.
Qed.

Lemma text_is_primitive v : text_or_missing v -> primitive v.
Proof. destruct v as [[]|]; cbn; tauto. Qed.

Lemma text_has_alt v : text_or_missing v -> is_Some (alt_text v).
Proof. destruct v as [[]|]; cbn; intros Hv; try contradiction; eauto. Qed.

Lemma when_truthy_is_Some v element :
  is_Some (React_child_of v) -> (truthy v = true -> is_Some element) ->
  is_Some (when_truthy v element).
Proof. unfold when_truthy. destruct (truthy v); auto. Qed.

Ltac bind_step tac :=
  match goal with
  | |- is_Some (mbind _ ?m) =>
      let x := fresh "x" in
      let Hx := fresh "Hx" in
      assert (is_Some m) as [x Hx] by tac;
      rewrite Hx; cbn [mbind option_bind]
  end.

(** An item of the declared shape has a card. *)
Lemma item_card_shaped item : ArtworkItem_shaped item -> is_Some (item_card item).
Proof.
  intros (fields & data & -> & Hdata & Hdesc & Himg & Hid & Hmid & Hdist & Hemb).
  unfold item_card. cbn [Get_property]. rewrite Hdata.
  cbn [mbind option_bind Get_property Get_optional]. cbv zeta.
  bind_step ltac:(apply when_truthy_is_Some;
                  [apply primitive_child, text_is_primitive, Himg|];
                  intros _; destruct (text_has_alt _ Hdesc) as [alt ->]; cbn; eauto).
  bind_step ltac:(apply primitive_to_string, Hmid).
  bind_step ltac:(apply primitive_child, Hmid).
  bind_step ltac:(apply when_truthy_is_Some;
                  [apply primitive_child, text_is_primitive, Hdesc|];
                  intros _;
                  destruct (primitive_child _ (text_is_primitive _ Hdesc)) as [d ->];
                  cbn; eauto).
  bind_step ltac:(apply when_truthy_is_Some; [apply primitive_child, Hdist|];
                  intros _; destruct (primitive_to_string _ Hdist) as [t ->];
                  cbn; eauto).
  bind_step ltac:(apply when_truthy_is_Some; [apply primitive_child, Hemb|];
                  intros _; destruct (primitive_child _ Hemb) as [t ->];
                  cbn; eauto).
  bind_step ltac:(destruct (fields !! lit "id") as [j|];
                  [apply primitive_to_string, Hid | eauto]).
  eauto.
Qed.

(** A score of the declared shape has a row. *)
Lemma score_row_shaped score : SimilarityScore_shaped score -> is_Some (score_row score).
Proof.
  intros (fields & n & items & -> & Hscore & Hitems & Hemb & Hid1 & Hid2).
  unfold score_row. cbn [Get_property]. cbn [mbind option_bind].
  bind_step ltac:(apply primitive_child, Hemb).
  rewrite Hscore, Hitems. cbn [mbind option_bind Get_property].
  bind_step ltac:(apply primitive_child, Hid1).
  bind_step ltac:(apply primitive_child, Hid2).
  eauto.
Qed.

Lemma shaped_items_rendered items :
  Forall ArtworkItem_shaped items ->
  exists cards, mapM item_card items = Some cards /\ length cards = length items.
Proof.
  intros Hshaped.
  destruct (mapM_is_Some_2 item_card items) as [cards Hcards].
  { eapply Forall_impl; [exact Hshaped|]. intros item. apply item_card_shaped. }
  exists cards. split; [exact Hcards|]. symmetry. eapply length_mapM, Hcards.
Qed.

Lemma shaped_scores_rendered scores :
  Forall SimilarityScore_shaped scores ->
  exists rows, mapM score_row scores = Some rows /\ length rows = length scores.
Proof.
  intros Hshaped.
  destruct (mapM_is_Some_2 score_row scores) as [rows Hrows].
  { eapply Forall_impl; [exact Hshaped|]. intros score. apply score_row_shaped. }
  exists rows. split; [exact Hrows|]. symmetry. eapply length_mapM, Hrows.
Qed.
End MarkupFacts.

Section PageClaims.
Context `{JsEngine}.
Variable network : jsstr -> FetchResult.


(** Claim C3.  When a field the mode requires is empty after trimming, or the
    mode is none of the three, the search ends with the validation message
    on display, no results, and no request issued. *)
Theorem invalid_input_is_rejected_locally (inp : Inputs) (flag : bool)
    (b : Browser) (msg : jsstr) :
  validation_failure inp msg ->
  exists b',
    handleSearch network inp flag b = (inr tt, b')
    /\ error b' = Some msg
    /\ results b' = None
    /\ requests b' = requests b.
Proof.
  intros Hv. apply validation_failure_throws in Hv.
  destruct (handleSearch_switch_throws network inp flag b _ Hv)
    as (b' & Hrun & Hres & _ & Herr & _ & Hreq).
  exists b'. auto.
Qed.

(** Claim C7, amended.  For an object payload the [items] key alone decides
    which of the two layouts is rendered, and no key other than [items],
    [count] and [similarity_scores] has any influence on what is shown.  A
    payload of the declared shape is shown in the layout chosen: with
    [items] an array of items that each have a [data] object, as the item
    grid with one card for each item; without an [items] key and with
    [similarity_scores] an array of scores that each have a number and the
    pair of ids, as the score list with one row for each score. *)
Theorem layout_decided_by_items (fields : gmap (list N) json) :
  (forall items,
      fields !! lit "items" = Some (JArr items) ->
      primitive (fields !! lit "count") ->
      Forall ArtworkItem_shaped items ->
      exists found cards,
        rendered_results (Some (JObj fields)) = ShowsGrid found cards
        /\ length cards = length items)
  /\ (forall scores,
      fields !! lit "items" = None ->
      fields !! lit "similarity_scores" = Some (JArr scores) ->
      Forall SimilarityScore_shaped scores ->
      exists rows,
        rendered_results (Some (JObj fields)) = ShowsScores rows
        /\ length rows = length scores)
  /\ (is_Some (fields !! lit "items") ->
      (forall rows, rendered_results (Some (JObj fields)) <> ShowsScores rows)
      /\ forall v,
          rendered_results (Some (JObj (<[lit "similarity_scores" := v]> fields)))
          = rendered_results (Some (JObj fields)))
  /\ (fields !! lit "items" = None ->
      (forall found cards,
          rendered_results (Some (JObj fields)) <> ShowsGrid found cards)
      /\ forall v,
          rendered_results (Some (JObj (<[lit "count" := v]> fields)))
          = rendered_results (Some (JObj fields)))
  /\ (forall k v,
      k <> lit "items" -> k <> lit "count" -> k <> lit "similarity_scores" ->
      rendered_results (Some (JObj (<[k := v]> fields)))
      = rendered_results (Some (JObj fields)))
  /\ (forall k,
      k <> lit "items" -> k <> lit "count" -> k <> lit "similarity_scores" ->
      rendered_results (Some (JObj (delete k fields)))
      = rendered_results (Some (JObj fields))).
Proof.
  unfold rendered_results, render_results.
  cbn [ToBoolean negb HasProperty Get].
  split; [|split; [|split; [|split; [|split]]]].
  - intros items Hitems Hcount Hshaped.
    rewrite bool_decide_eq_true_2 by (rewrite Hitems; eauto).
    rewrite Hitems. cbn [map_elements].
    destruct (primitive_child _ Hcount) as [shown ->].
    destruct (shaped_items_rendered items Hshaped) as (cards & -> & Hlen).
    eauto.
  - intros scores Hitems Hscores Hshaped.
    rewrite bool_decide_eq_false_2 by (rewrite Hitems; intros [? ?]; discriminate).
    rewrite Hscores. cbn [map_elements].
    destruct (shaped_scores_rendered scores Hshaped) as (rows & -> & Hlen).
    eauto.
  - intros Hitems. split.
    + intros rows. rewrite bool_decide_eq_true_2 by assumption.
      destruct (React_child_of _); [|discriminate].
      destruct (map_elements true item_card _); discriminate.
    + intros v. rewrite lookup_insert_ne by discriminate.
      rewrite !bool_decide_eq_true_2 by assumption.
      rewrite !lookup_insert_ne by discriminate. reflexivity.
  - intros Hitems. split.
    + intros found cards.
      rewrite bool_decide_eq_false_2 by (rewrite Hitems; intros [? ?]; discriminate).
      destruct (map_elements false score_row _); discriminate.
    + intros v. rewrite lookup_insert_ne by discriminate.
      rewrite !bool_decide_eq_false_2
        by (rewrite Hitems; intros [? ?]; discriminate).
      rewrite !lookup_insert_ne by discriminate. reflexivity.
  - intros k v Hi Hc Hs. rewrite !lookup_insert_ne by congruence. reflexivity.
  - intros k Hi Hc Hs. rewrite !lookup_delete_ne by congruence. reflexivity.
Qed.

(** Claim C8, amended.  After a non-ok response with a JSON body: a
    non-empty string under [error] is the message shown; failing a truthy
    [error], a non-empty string under [detail] is the message shown; when
    neither key holds a truthy value the message shown is "Failed to fetch
    results".  The message thrown by the validation and the message of a
    rejected [fetch] go to the same [error] state. *)
Theorem failure_message_on_display (inp : Inputs) (flag : bool) (b : Browser) :
  (forall p enc r data,
      apiPath_switch inp = inr p ->
      uri_component p = inr enc ->
      network (lit "/api/artwork?path=" ++ enc) = Resolves r ->
      ok r = false ->
      json_body r = inr data ->
      (forall s, Get data (lit "error") = inr (Some (JStr s)) -> s <> [] ->
         render_error (error (snd (handleSearch network inp flag b))) = Some s)
      /\ (forall e d, Get data (lit "error") = inr e -> truthy e = false ->
            Get data (lit "detail") = inr (Some (JStr d)) -> d <> [] ->
            render_error (error (snd (handleSearch network inp flag b))) = Some d)
      /\ (forall e d, Get data (lit "error") = inr e -> truthy e = false ->
            Get data (lit "detail") = inr d -> truthy d = false ->
            render_error (error (snd (handleSearch network inp flag b)))
            = Some (lit "Failed to fetch results")))
  /\ (forall msg, validation_failure inp msg ->
      error (snd (handleSearch network inp flag b)) = Some msg)
  /\ (forall p enc msg,
      apiPath_switch inp = inr p ->
      uri_component p = inr enc ->
      network (lit "/api/artwork?path=" ++ enc) = Rejects (Error msg) ->
      error (snd (handleSearch network inp flag b)) = Some msg).
Proof.
  split; [|split].
  - intros p enc r data Hp Henc Hnet Hok Hdata.
    pose proof (handleSearch_failed_response network inp flag b p enc r data
                  Hp Henc Hnet Hok Hdata) as Hshown.
    split; [|split].
    + intros s He Hs. rewrite (Hshown (JStr s) s); [|
        apply str_truthy_nonempty in Hs;
        apply (failure_reason_error data (Some (JStr s)) He Hs) | reflexivity].
      apply render_error_nonempty, Hs.
    + intros e d He Hte Hd Hdne. rewrite (Hshown (JStr d) d); [| | reflexivity].
      * apply render_error_nonempty, Hdne.
      * apply str_truthy_nonempty in Hdne.
        rewrite (failure_reason_detail data e (Some (JStr d)) He Hte Hd).
        cbn [truthy ToBoolean]. rewrite Hdne. reflexivity.
    + intros e d He Hte Hd Htd.
      rewrite (Hshown (JStr (lit "Failed to fetch results"))
                 (lit "Failed to fetch results")); [reflexivity | | reflexivity].
      rewrite (failure_reason_detail data e d He Hte Hd), Htd. reflexivity.
  - intros msg Hv. apply validation_failure_throws in Hv.
    destruct (handleSearch_switch_throws network inp flag b _ Hv)
      as (b' & -> & _ & _ & Herr & _). exact Herr.
  - intros p enc msg Hp Henc Hrej.
    destruct (handleSearch_dispatches network inp flag b p enc Hp Henc)
      as (b' & -> & _ & _ & _ & Hout).
    rewrite Hrej in Hout. apply Hout.
Qed.

(** Claim C10, amended.  A search first overwrites what is on display, so its
    outcome does not depend on it; when no other search is started before
    it completes ([handleSearch_uninterrupted]) it completes with results or
    an error message on display but never both; and when the validation
    fails the earlier results and debug URL are gone. *)
Theorem search_clears_display_first (inp : Inputs) (flag : bool) (b : Browser) :
  (forall r l e d,
      handleSearch network inp flag (with_display b r l e d)
      = handleSearch network inp flag b)
  /\ exists b',
      handleSearch network inp flag b = (inr tt, b')
      /\ (results b' = None \/ error b' = None)
      /\ (forall msg, validation_failure inp msg ->
          results b' = None /\ debugUrl b' = []).
Proof.
  split.
  - intros r l e d. rewrite !handleSearch_run. reflexivity.
  - destruct (apiPath_switch inp) as [e | p] eqn:Hsw.
    + destruct (handleSearch_switch_throws network inp flag b _ Hsw)
        as (b' & Hrun & Hres & _ & _ & Hdbg & _).
      exists b'. auto.
    + destruct (apiPath_encodes _ _ Hsw) as (_ & enc & Henc & _).
      destruct (handleSearch_dispatches network inp flag b p _ Hsw Henc)
        as (b' & Hrun & _ & _ & _ & Hout).
      exists b'. split; [exact Hrun|]. split.
      * destruct (fetch_outcome _); tauto.
      * intros msg Hv. apply validation_failure_throws in Hv. congruence.
Qed.
End PageClaims.

(** ** The page against the route *)

Section EndToEnd.
Context `{JsEngine}.
Variable upstream : Outbound -> FetchResult.
Variable authorization : jsstr.

(** The route's view of a request whose query is [path=<escapes>] and
    nothing else. *)
Lemma GET_path_only origin enc p s :
  Forall (fun c => c <> chr "?" /\ c <> chr "#") origin ->
  Forall (fun c => uri_written c = true) enc ->
  urlencoded_decode enc = p ->
  p <> [] ->
  searchParams_get (lit "path")
    (URL_searchParams (origin ++ lit "/api/artwork?path=" ++ enc)) = Some p
  /\ searchParams_get (lit "apiUrl")
       (URL_searchParams (origin ++ lit "/api/artwork?path=" ++ enc)) = None
  /\ GET upstream authorization
       {| url := origin ++ lit "/api/artwork?path=" ++ enc |} s
     = (inr {| nr_status := 400;
               nr_body := error_payload (lit "API URL is required") |}, s).
Proof.
  intros Ho He Hdec Hne.
  assert (Hparams :
    URL_searchParams (origin ++ lit "/api/artwork?path=" ++ enc) = [(lit "path", p)]).
  { unfold URL_searchParams.
    change (origin ++ lit "/api/artwork?path=" ++ enc)
      with (origin ++ lit "/api/artwork" ++ chr "?" :: (lit "path=" ++ enc)).
    rewrite URL_query_of_written.
    - rewrite urlencoded_parse_path, Hdec by assumption. reflexivity.
    - assumption.
    - repeat (constructor; [split; discriminate|]). constructor.
    - apply Forall_app; split.
      + repeat (constructor; [discriminate|]). constructor.
      + apply written_avoids; [reflexivity | assumption]. }
  assert (Hpath : searchParams_get (lit "path")
    (URL_searchParams (origin ++ lit "/api/artwork?path=" ++ enc)) = Some p).
  { rewrite Hparams. reflexivity. }
  assert (Hapi : searchParams_get (lit "apiUrl")
    (URL_searchParams (origin ++ lit "/api/artwork?path=" ++ enc)) = None).
  { rewrite Hparams. reflexivity. }
  split; [exact Hpath|]. split; [exact Hapi|].
  rewrite GET_catches, GET_try_without_apiUrl; [reflexivity | |].
  - cbn [url]. rewrite Hpath. intros [Hm | Hm]; congruence.
  - cbn [url]. left. exact Hapi.
Qed.

(** Claim C1, on the code.  The request [handleSearch] dispatches carries
    the built path and nothing else: it has no [apiUrl] parameter, the route
    answers it 400 with "API URL is required" without calling the upstream,
    and that message is what the search displays. *)
Theorem dispatched_request_lacks_apiUrl (origin : jsstr) (inp : Inputs)
    (flag : bool) (b : Browser) (p : jsstr) :
  Forall (fun c => c <> chr "?" /\ c <> chr "#") origin ->
  apiPath_switch inp = inr p ->
  exists enc,
    uri_component p = inr enc
    /\ searchParams_get (lit "path")
         (URL_searchParams (origin ++ lit "/api/artwork?path=" ++ enc)) = Some p
    /\ searchParams_get (lit "apiUrl")
         (URL_searchParams (origin ++ lit "/api/artwork?path=" ++ enc)) = None
    /\ GET upstream authorization
         {| url := origin ++ lit "/api/artwork?path=" ++ enc |} idle_server
       = (inr {| nr_status := 400;
                 nr_body := error_payload (lit "API URL is required") |},
          idle_server)
    /\ exists b',
        handleSearch (served_by_route origin upstream authorization) inp flag b
        = (inr tt, b')
        /\ requests b' = requests b ++ [lit "/api/artwork?path=" ++ enc]
        /\ results b' = None
        /\ error b' = Some (lit "API URL is required").
Proof.
  intros Ho Hp. destruct (apiPath_encodes _ _ Hp) as (Hne & enc & Henc & He & Hdec).
  destruct (GET_path_only origin enc p idle_server Ho He Hdec Hne)
    as (Hpath & Hapi & Hget).
  exists enc. repeat (split; [assumption|]).
  destruct (handleSearch_dispatches
              (served_by_route origin upstream authorization)
              inp flag b p _ Hp Henc) as (b' & Hrun & _ & _ & Hreq & Hout).
  exists b'. repeat (split; [assumption|]).
  unfold served_by_route in Hout. rewrite Hget in Hout.
  cbn [fetch_outcome nr_status nr_body] in Hout.
  rewrite (response_outcome_error_payload _ (lit "API URL is required"))
    in Hout; [exact Hout | reflexivity | reflexivity | discriminate].
Qed.
End EndToEnd.

(** ** The claims on concrete searches *)

Section PageScenarioFacts.
#[local] Existing Instance example_engine.

Ltac white_space := repeat (constructor; [reflexivity|]); constructor.

Lemma spaced_query_trimmed :
  trimmed (searchQuery spaced_search) (lit "blue caf" ++ [233] ++ lit " & co").
Proof.
  exists [32; 9], [160; 10]. split; [reflexivity|].
  split; [white_space|]. split; [white_space|].
  split; intros c Hc; vm_compute in Hc; injection Hc as <-; reflexivity.
Defined.

Lemma spaced_id_trimmed : trimmed (artworkId spaced_neighbour_search) (lit "12/34").
Proof.
  exists [32], [32]. split; [reflexivity|].
  split; [white_space|]. split; [white_space|].
  split; intros c Hc; vm_compute in Hc; injection Hc as <-; reflexivity.
Defined.

Lemma spaced_ids_trimmed :
  trimmed (artworkId spaced_similarity_search) (lit "1")
  /\ trimmed (compareId spaced_similarity_search) (lit "a?b").
Proof.
  split.
  - exists [], [32]. split; [reflexivity|].
    split; [white_space|]. split; [white_space|].
    split; intros c Hc; vm_compute in Hc; injection Hc as <-; reflexivity.
  - exists [32], []. split; [reflexivity|].
    split; [white_space|]. split; [white_space|].
    split; intros c Hc; vm_compute in Hc; injection Hc as <-; reflexivity.
Defined.


(** The three examples of the specification. *)
Example specification_paths :
  apiPath_switch cats_search = inr (lit "/ai/v1/artworks/search?q=cats")
  /\ apiPath_switch neighbour_search
     = inr (lit "/ai/v1/artworks/129884/nearest?limit=30")
  /\ apiPath_switch similarity_search
     = inr (lit "/ai/v1/artworks/1/similarity/2").
Proof. repeat split; reflexivity. Qed.

Lemma cats_path_built :
  apiPath_switch cats_search = inr (lit "/ai/v1/artworks/search?q=cats").
Proof. reflexivity. Defined.

Lemma blank_search_fails_validation :
  validation_failure blank_search (lit "Search query is required").
Proof. apply query_missing; reflexivity. Defined.

Lemma invalid_input_is_rejected_locally_witness :
  error (snd (handleSearch (network_answering 200 (inr empty_list))
                blank_search true showing_results))
    = Some (lit "Search query is required")
  /\ results (snd (handleSearch (network_answering 200 (inr empty_list))
                     blank_search true showing_results)) = None
  /\ requests (snd (handleSearch (network_answering 200 (inr empty_list))
                      blank_search true showing_results)) = [].
Proof.
  destruct (invalid_input_is_rejected_locally
              (network_answering 200 (inr empty_list)) blank_search true
              showing_results _ blank_search_fails_validation)
    as (b' & -> & Herr & Hres & Hreq).
  auto.
Defined.

Ltac literal_lookup :=
  repeat (rewrite lookup_insert_ne by discriminate);
  first [rewrite lookup_insert | rewrite lookup_empty | rewrite lookup_singleton].

Lemma cat_item_shaped : ArtworkItem_shaped cat_item.
Proof.
  exists cat_fields, cat_data. unfold cat_fields, cat_data.
  split; [reflexivity|].
  split; [literal_lookup; reflexivity|].
  split; [literal_lookup; exact I|].
  split; [literal_lookup; exact I|].
  split; [literal_lookup; exact I|].
  split; [literal_lookup; exact I|].
  split; literal_lookup; exact I.
Defined.

Lemma image_score_shaped : SimilarityScore_shaped image_score.
Proof.
  exists image_score_fields, (Int 1 eq_refl), image_pair.
  unfold image_score_fields, image_pair.
  split; [reflexivity|].
  split; [literal_lookup; reflexivity|].
  split; [literal_lookup; reflexivity|].
  split; [literal_lookup; exact I|].
  split; literal_lookup; exact I.
Defined.

Lemma layout_decided_by_items_witness :
  (exists found cards,
      rendered_results (Some (JObj one_cat_fields)) = ShowsGrid found cards
      /\ length cards = 1%nat)
  /\ (exists rows,
      rendered_results (Some (JObj one_score_fields)) = ShowsScores rows
      /\ length rows = 1%nat)
  /\ rendered_results
       (Some (JObj (<[lit "similarity_scores" := JArr []]> one_cat_fields)))
     = rendered_results (Some (JObj one_cat_fields))
  /\ rendered_results (Some (JObj (<[lit "model" := JStr (lit "clip")]> one_cat_fields)))
     = rendered_results (Some (JObj one_cat_fields)).
Proof.
  split; [|split; [|split]].
  - apply (proj1 (layout_decided_by_items one_cat_fields) [cat_item]).
    + unfold one_cat_fields. literal_lookup. reflexivity.
    + unfold one_cat_fields. literal_lookup. exact I.
    + constructor; [exact cat_item_shaped | constructor].
  - apply (proj1 (proj2 (layout_decided_by_items one_score_fields)) [image_score]).
    + unfold one_score_fields. literal_lookup. reflexivity.
    + unfold one_score_fields. literal_lookup. reflexivity.
    + constructor; [exact image_score_shaped | constructor].
  - refine (proj2 (proj1 (proj2 (proj2 (layout_decided_by_items one_cat_fields))) _)
              (JArr [])).
    exists (JArr [cat_item]). unfold one_cat_fields. literal_lookup. reflexivity.
  - apply (proj1 (proj2 (proj2 (proj2 (proj2
             (layout_decided_by_items one_cat_fields)))))); discriminate.
Defined.

(** What is shown for the list of one item. *)
Example one_cat_rendered :
  rendered_results (Some (JObj one_cat_fields))
  = ShowsGrid
      [Text (lit "Found "); Text (lit "1"); Text (lit " results")]
      [Box [Box [Box [Picture (JStr (lit "https://example.org/cat.jpg"))
                              (JStr (lit "A cat on a chair"))];
                 Box [Link (lit "https://artic.edu/artworks/129884")
                        [Text (lit "ID: "); Text (lit "129884")]];
                 Box [Box [Text (lit "Description:")]; Text (lit " ");
                      Text (lit "A cat on a chair")];
                 Box [Text (lit "Distance: "); ParsedFixed4 (lit "0.1234")];
                 Box [Text (lit "Type: "); Text (lit "image")]]]].
Proof. vm_compute. reflexivity. Qed.

(** Claim C7, as stated, fails: a payload can contain an [items] key and not
    be rendered as the item grid, nor as anything else.  With [items] a
    number the [map] call throws; with [count] an object React refuses the
    child; with an item that has no [data] the card throws. *)
Lemma items_key_does_not_give_grid :
  HasProperty (lit "items") items_five = inr true
  /\ rendered_results (Some items_five) = Crashes
  /\ HasProperty (lit "items") count_object = inr true
  /\ rendered_results (Some count_object) = Crashes
  /\ HasProperty (lit "items") item_without_data = inr true
  /\ rendered_results (Some item_without_data) = Crashes.
Proof.
  split; [vm_compute; reflexivity|].
  split; [vm_compute; reflexivity|].
  split; [vm_compute; reflexivity|].
  split; [vm_compute; reflexivity|].
  split; vm_compute; reflexivity.
Qed.

Lemma cats_path_encoded :
  uri_component (lit "/ai/v1/artworks/search?q=cats")
  = inr (lit "%2Fai%2Fv1%2Fartworks%2Fsearch%3Fq%3Dcats").
Proof. vm_compute. reflexivity. Defined.

Lemma failure_message_on_display_witness :
  render_error
    (error (snd (handleSearch
                   (network_answering 400 (inr (error_payload (lit "API URL is required"))))
                   cats_search true showing_results)))
    = Some (lit "API URL is required")
  /\ render_error
       (error (snd (handleSearch (network_answering 404 (inr not_found))
                      cats_search true showing_results)))
    = Some (lit "Not Found")
  /\ render_error
       (error (snd (handleSearch (network_answering 500 (inr (JObj ∅)))
                      cats_search true showing_results)))
    = Some (lit "Failed to fetch results")
  /\ error (snd (handleSearch (network_answering 404 (inr not_found))
                   blank_search true showing_results))
    = Some (lit "Search query is required")
  /\ error (snd (handleSearch network_down cats_search true showing_results))
    = Some (lit "Failed to fetch").
Proof.
  split; [|split; [|split; [|split]]].
  - refine (proj1 (proj1
      (failure_message_on_display
         (network_answering 400 (inr (error_payload (lit "API URL is required"))))
         cats_search true showing_results)
      _ _ _ _ cats_path_built cats_path_encoded
      eq_refl eq_refl eq_refl) _ _ _).
    + vm_compute. reflexivity.
    + discriminate.
  - refine (proj1 (proj2 (proj1
      (failure_message_on_display (network_answering 404 (inr not_found))
         cats_search true showing_results)
      _ _ _ _ cats_path_built cats_path_encoded
      eq_refl eq_refl eq_refl)) None _ _ _ _ _).
    + vm_compute. reflexivity.
    + reflexivity.
    + vm_compute. reflexivity.
    + discriminate.
  - refine (proj2 (proj2 (proj1
      (failure_message_on_display (network_answering 500 (inr (JObj ∅)))
         cats_search true showing_results)
      _ _ _ _ cats_path_built cats_path_encoded
      eq_refl eq_refl eq_refl)) None None _ _ _ _).
    + vm_compute. reflexivity.
    + reflexivity.
    + vm_compute. reflexivity.
    + reflexivity.
  - apply (proj1 (proj2
      (failure_message_on_display (network_answering 404 (inr not_found))
         blank_search true showing_results))).
    exact blank_search_fails_validation.
  - apply (proj2 (proj2
      (failure_message_on_display network_down cats_search true showing_results))
      _ _ _ cats_path_built cats_path_encoded).
    reflexivity.
Defined.

(** Claim C8, as stated, fails: the body [{detail: [{...}]}] of a 422 response has
    no [error] and a non-empty [detail], yet the message on display is
    neither that value nor the generic message: it is the string
    conversion of the list, "[object Object]". *)
Lemma list_detail_shown_as_object_Object :
  ok {| status := 422; json_body := inr unprocessable |} = false
  /\ Get unprocessable (lit "error") = inr None
  /\ Get unprocessable (lit "detail") = inr (Some validation_detail)
  /\ truthy (Some validation_detail) = true
  /\ render_error
       (error (snd (handleSearch (network_answering 422 (inr unprocessable))
                      neighbour_search true showing_results)))
     = Some (lit "[object Object]")
  /\ JStr (lit "[object Object]") <> validation_detail
  /\ lit "[object Object]" <> lit "Failed to fetch results".
Proof.
  split; [reflexivity|]. split; [vm_compute; reflexivity|].
  split; [vm_compute; reflexivity|]. split; [reflexivity|].
  split; [vm_compute; reflexivity|]. split; discriminate.
Qed.

Lemma search_clears_display_first_witness :
  handleSearch network_down blank_search true
    (with_display showing_results (Some no_scores) true (Some (lit "old")) (lit "old"))
  = handleSearch network_down blank_search true showing_results
  /\ results (snd (handleSearch network_down blank_search true showing_results)) = None
  /\ debugUrl (snd (handleSearch network_down blank_search true showing_results)) = [].
Proof.
  destruct (search_clears_display_first network_down blank_search true showing_results)
    as (Hsame & b' & Hrun & _ & Hval).
  split; [apply Hsame|]. rewrite Hrun.
  exact (Hval _ blank_search_fails_validation).
Defined.

(** Claim C10, as stated, fails when searches overlap.  The Enter key starts
    a search for cats, which is suspended at its [fetch]; the query is
    blanked and the Enter key, which [loading] does not disable, starts a
    second search, which fails its validation and completes; then the
    response of the first arrives.  Both searches have completed, and both
    the results of the first and the error of the second are on display. *)
Lemma overlapping_searches_show_both :
  let network := network_answering 200 (inr empty_list) in
  let url := lit "/api/artwork?path=%2Fai%2Fv1%2Fartworks%2Fsearch%3Fq%3Dcats" in
  let response := {| status := 200; json_body := inr empty_list |} in
  let first_called := handleKeyPress (lit "Enter") cats_search mounted_page in
  let second_done := handleKeyPress (lit "Enter") blank_search (snd first_called) in
  let first_fetched := handleSearch_resume network (AtFetch url) (snd second_done) in
  let first_done := handleSearch_resume network (AtJson response) (snd first_fetched) in
  fst first_called = Some (AtFetch url)
  /\ fst second_done = None
  /\ first_fetched = (Some (AtJson response), snd second_done)
  /\ fst first_done = None
  /\ loading (snd first_done) = false
  /\ results (snd first_done) = Some empty_list
  /\ error (snd first_done) = Some (lit "Search query is required").
Proof.
  cbv zeta.
  split; [vm_compute; reflexivity|].
  split; [vm_compute; reflexivity|].
  split; [vm_compute; reflexivity|].
  split; [vm_compute; reflexivity|].
  split; [vm_compute; reflexivity|].
  split; vm_compute; reflexivity.
Qed.

Lemma dev_origin_plain :
  Forall (fun c => c <> chr "?" /\ c <> chr "#") dev_origin.
Proof. repeat (constructor; [split; discriminate|]). constructor. Defined.

Lemma dispatched_request_lacks_apiUrl_witness :
  searchParams_get (lit "path")
    (URL_searchParams
       (dev_origin ++ lit "/api/artwork?path="
          ++ lit "%2Fai%2Fv1%2Fartworks%2Fsearch%3Fq%3Dcats"))
  = Some (lit "/ai/v1/artworks/search?q=cats")
  /\ searchParams_get (lit "apiUrl")
       (URL_searchParams
          (dev_origin ++ lit "/api/artwork?path="
             ++ lit "%2Fai%2Fv1%2Fartworks%2Fsearch%3Fq%3Dcats")) = None
  /\ GET upstream_201 demo_authorization
       {| url := dev_origin ++ lit "/api/artwork?path="
                   ++ lit "%2Fai%2Fv1%2Fartworks%2Fsearch%3Fq%3Dcats" |}
       idle_server
     = (inr {| nr_status := 400;
               nr_body := error_payload (lit "API URL is required") |},
        idle_server)
  /\ error (snd (handleSearch
                   (served_by_route dev_origin upstream_201 demo_authorization)
                   cats_search true showing_results))
     = Some (lit "API URL is required").
Proof.
  destruct (dispatched_request_lacks_apiUrl upstream_201 demo_authorization
              dev_origin cats_search true showing_results _ dev_origin_plain
              cats_path_built)
    as (enc & Henc & Hpath & Hapi & Hget & b' & Hrun & _ & _ & Herr).
  assert (enc = lit "%2Fai%2Fv1%2Fartworks%2Fsearch%3Fq%3Dcats") as ->.
  { rewrite cats_path_encoded in Henc. congruence. }
  rewrite Hrun. auto.
Defined.
End PageScenarioFacts.

(* ===================================================================== *)
(** * Further properties of the route *)
(* ===================================================================== *)

Section RouteMore.
Context `{JsEngine}.
Variable upstream : Outbound -> FetchResult.
Variable authorization : jsstr.

(** The parameters of a request of the documented form. *)
Lemma documented_url_params origin a p ea ep :
  Forall (fun c => c <> chr "?" /\ c <> chr "#") origin ->
  kept_by_urls a -> kept_by_urls p ->
  encodeURIComponent a = Some ea -> encodeURIComponent p = Some ep ->
  URL_searchParams (documented_url origin ea ep)
  = [(lit "apiUrl", a); (lit "path", p)].
Proof.
  intros Ho Ha Hp Hea Hep.
  pose proof (encodeURIComponent_written _ _ Hea) as Hwa.
  pose proof (encodeURIComponent_written _ _ Hep) as Hwp.
  unfold URL_searchParams, documented_url.
  change (origin ++ lit "/api/artwork?apiUrl=" ++ ea ++ lit "&path=" ++ ep)
    with (origin ++ lit "/api/artwork" ++ chr "?"
            :: (lit "apiUrl=" ++ ea ++ lit "&path=" ++ ep)).
  rewrite URL_query_of_written; [|assumption| |].
  2:{ repeat (constructor; [split; discriminate|]). constructor. }
  2:{ repeat (apply Forall_app; split).
      - repeat (constructor; [discriminate|]). constructor.
      - apply written_avoids; [reflexivity | assumption].
      - repeat (constructor; [discriminate|]). constructor.
      - apply written_avoids; [reflexivity | assumption]. }
  unfold urlencoded_parse. rewrite utf8_encode_ascii.
  2:{ repeat (apply Forall_app; split).
      - repeat (constructor; [reflexivity|]). constructor.
      - eapply Forall_impl; [exact Hwa|]. apply uri_written_ascii.
      - repeat (constructor; [reflexivity|]). constructor.
      - eapply Forall_impl; [exact Hwp|]. apply uri_written_ascii. }
  change (lit "apiUrl=" ++ ea ++ lit "&path=" ++ ep)
    with ((lit "apiUrl=" ++ ea) ++ chr "&" :: (lit "path=" ++ ep)).
  rewrite split_on_piece.
  2:{ apply Forall_app; split.
      - repeat (constructor; [discriminate|]). constructor.
      - apply written_avoids; [reflexivity | assumption]. }
  rewrite split_on_absent.
  2:{ apply Forall_app; split.
      - repeat (constructor; [discriminate|]). constructor.
      - apply written_avoids; [reflexivity | assumption]. }
  cbn [flat_map].
  assert (Hs1 : split_first (chr "=") (lit "apiUrl=" ++ ea) = Some (lit "apiUrl", ea))
    by reflexivity.
  assert (Hs2 : split_first (chr "=") (lit "path=" ++ ep) = Some (lit "path", ep))
    by reflexivity.
  change (lit "apiUrl=" ++ ea) with (chr "a" :: (lit "piUrl=" ++ ea)) at 1.
  change (lit "path=" ++ ep) with (chr "p" :: (lit "ath=" ++ ep)) at 1.
  cbv iota. rewrite Hs1, Hs2.
  assert (Hn1 : urlencoded_decode (lit "apiUrl") = lit "apiUrl") by reflexivity.
  assert (Hn2 : urlencoded_decode (lit "path") = lit "path") by reflexivity.
  rewrite Hn1, Hn2.
  rewrite (urlencoded_decode_component a ea Ha Hea).
  rewrite (urlencoded_decode_component p ep Hp Hep). reflexivity.
Qed.

(** Extra X1.  A request of the documented form, built with
    [encodeURIComponent] from a base URL and a path that are not empty,
    makes the route call the upstream exactly once, at the base URL followed
    by the path, with the method GET and the two headers. *)
Theorem proxy_calls_base_then_path (origin a p ea ep : jsstr) (s : Server) :
  Forall (fun c => c <> chr "?" /\ c <> chr "#") origin ->
  kept_by_urls a -> kept_by_urls p -> a <> [] -> p <> [] ->
  encodeURIComponent a = Some ea -> encodeURIComponent p = Some ep ->
  outbound (snd (GET upstream authorization
                   {| url := documented_url origin ea ep |} s))
  = outbound s ++ [upstream_call authorization a p].
Proof.
  intros Ho Ha Hp Hane Hpne Hea Hep.
  pose proof (documented_url_params origin a p ea ep Ho Ha Hp Hea Hep) as Hparams.
  assert (Hgp : searchParams_get (lit "path")
                  (URL_searchParams (url {| url := documented_url origin ea ep |}))
                = Some p) by (cbn [url]; rewrite Hparams; reflexivity).
  assert (Hga : searchParams_get (lit "apiUrl")
                  (URL_searchParams (url {| url := documented_url origin ea ep |}))
                = Some a) by (cbn [url]; rewrite Hparams; reflexivity).
  rewrite GET_catches, (GET_try_forwards _ _ _ _ p a Hgp Hpne Hga Hane).
  destruct (upstream _) as [e | r]; [reflexivity|].
  destruct (json_body r) as [e | data]; [reflexivity|].
  destruct (NextResponse_json data _); reflexivity.
Qed.

(** Extra X2.  Whatever the request and the upstream, the route answers 200
    or a status from 300 to 599, calls the upstream at most once, and logs
    an error only together with the 500 of its [catch] block. *)
Theorem proxy_answers_within_bounds (request : Request) (s : Server) :
  exists resp s',
    GET upstream authorization request s = (inr resp, s')
    /\ (nr_status resp = 200 \/ 300 <= nr_status resp <= 599)
    /\ (outbound s' = outbound s
        \/ exists a p, outbound s' = outbound s ++ [upstream_call authorization a p])
    /\ (logged s' = logged s
        \/ (exists e, logged s' = logged s ++ [e])
           /\ resp = {| nr_status := 500;
                        nr_body := error_payload (lit "Failed to fetch results") |}).
Proof.
  rewrite GET_catches.
  destruct (searchParams_get (lit "path") (URL_searchParams (url request)))
    as [[|c p]|] eqn:Hp.
  - rewrite GET_try_without_path by (right; exact Hp).
    eexists _, _. split; [reflexivity|]. cbn. split; [right; lia|]. auto.
  - destruct (searchParams_get (lit "apiUrl") (URL_searchParams (url request)))
      as [[|d a]|] eqn:Ha.
    + rewrite GET_try_without_apiUrl;
        [|rewrite Hp; intros [Hm | Hm]; discriminate Hm | right; exact Ha].
      eexists _, _. split; [reflexivity|]. cbn. split; [right; lia|]. auto.
    + rewrite (GET_try_forwards _ _ _ _ (c :: p) (d :: a) Hp ltac:(discriminate)
                 Ha ltac:(discriminate)).
      destruct (upstream _) as [e | r].
      { eexists _, _. split; [reflexivity|]. cbn. split; [right; lia|].
        split; [right; eauto|]. right. eauto. }
      destruct (json_body r) as [e | data].
      { eexists _, _. split; [reflexivity|]. cbn. split; [right; lia|].
        split; [right; eauto|]. right. eauto. }
      destruct (ok r) eqn:Hok.
      { rewrite NextResponse_json_default.
        eexists _, _. split; [reflexivity|]. cbn. split; [left; reflexivity|].
        split; [right; eauto|]. left. reflexivity. }
      unfold NextResponse_json. cbn [from_option id].
      destruct ((200 <=? status r) && (status r <=? 599)) eqn:Hrange; cbn [negb].
      * destruct (null_body_status (status r)).
        { eexists _, _. split; [reflexivity|]. cbn. split; [right; lia|].
          split; [right; eauto|]. right. eauto. }
        eexists _, _. split; [reflexivity|]. cbn.
        split; [|split; [right; eauto | left; reflexivity]].
        right. apply andb_true_iff in Hrange. destruct Hrange as [Hlo Hhi].
        apply N.leb_le in Hlo, Hhi. unfold ok in Hok.
        apply andb_false_iff in Hok.
        destruct Hok as [Hok | Hok]; apply N.leb_gt in Hok; lia.
      * eexists _, _. split; [reflexivity|]. cbn. split; [right; lia|].
        split; [right; eauto|]. right. eauto.
    + rewrite GET_try_without_apiUrl;
        [|rewrite Hp; intros [Hm | Hm]; discriminate Hm | left; exact Ha].
      eexists _, _. split; [reflexivity|]. cbn. split; [right; lia|]. auto.
  - rewrite GET_try_without_path by (left; exact Hp).
    eexists _, _. split; [reflexivity|]. cbn. split; [right; lia|]. auto.
Qed.
End RouteMore.

(* ===================================================================== *)
(** * Further properties of the search *)
(* ===================================================================== *)

Section PageMoreFacts.
Context `{JsEngine}.
Variable network : jsstr -> FetchResult.

Lemma search_started_kept inp flag b :
  loading (search_started inp flag b) = true
  /\ pathname (search_started inp flag b) = pathname b
  /\ console (search_started inp flag b) = console b.
Proof.
  unfold search_started. destruct flag.
  - destruct (updateUrl_keeps inp
      (set_debugUrl [] (set_error None (set_loading true (set_results None b)))))
      as (_ & -> & _ & _ & -> & _ & ->).
    repeat split; reflexivity.
  - repeat split; reflexivity.
Qed.

Lemma fetch_outcome_ok r data :
  ok r = true -> json_body r = inr data -> response_outcome r = inr data.
Proof.
  intros Hok Hdata. unfold response_outcome. rewrite Hdata. exec.
  rewrite Hok. reflexivity.
Qed.

Lemma fetch_outcome_unparsed r e :
  json_body r = inl e -> response_outcome r = inl e.
Proof. intros Hbody. unfold response_outcome. rewrite Hbody. reflexivity. Qed.

(** The whole state a search ends in, by the outcome of its request. *)
Lemma handleSearch_ends inp flag b :
  handleSearch network inp flag b
  = (inr tt,
     match apiPath_switch inp with
     | inl e =>
         set_loading false
           (add_logged e (set_error (Some (displayed_message e))
                            (search_started inp flag b)))
     | inr p =>
         match uri_component p with
         | inl e =>
             set_loading false
               (add_logged e (set_error (Some (displayed_message e))
                                (search_started inp flag b)))
         | inr enc =>
             let b1 :=
               add_request (lit "/api/artwork?path=" ++ enc)
                 (set_debugUrl (replace_trailing_slash (apiUrl inp) ++ p)
                    (search_started inp flag b)) in
             match fetch_outcome (network (lit "/api/artwork?path=" ++ enc)) with
             | inl e =>
                 set_loading false
                   (add_logged e (set_error (Some (displayed_message e)) b1))
             | inr data => set_loading false (set_results (Some data) b1)
             end
         end
     end).
Proof.
  rewrite handleSearch_run, handleSearch_try_run.
  destruct (apiPath_switch inp) as [e | p]; [reflexivity|].
  destruct (uri_component p) as [e | enc]; [reflexivity|]. cbv zeta.
  destruct (fetch_outcome _); reflexivity.
Qed.

Lemma malformed_field_throws inp :
  malformed_field inp -> apiPath_switch inp = inl (Builtin URIError_malformed).
Proof.
  intros Hm. unfold apiPath_switch, uri_component.
  destruct Hm as [Hq Hne Hwf | Hq Hne Hwf | Hq Hne1 Hne2 Hwf].
  - apply str_truthy_nonempty in Hne. apply encodeURIComponent_throws_iff in Hwf.
    rewrite Hq, Hne, Hwf. reflexivity.
  - apply str_truthy_nonempty in Hne. apply encodeURIComponent_throws_iff in Hwf.
    rewrite Hq, Hne, Hwf. reflexivity.
  - apply str_truthy_nonempty in Hne1, Hne2. rewrite Hq, Hne1, Hne2.
    destruct (encodeURIComponent (trim (artworkId inp))) as [e1|] eqn:He1;
      [|reflexivity].
    destruct Hwf as [Hwf | Hwf]; apply encodeURIComponent_throws_iff in Hwf.
    + congruence.
    + rewrite Hwf. reflexivity.
Qed.

Lemma searchParams_set_other n v n0 v0 rest :
  n0 <> n ->
  searchParams_set n v ((n0, v0) :: rest) = (n0, v0) :: searchParams_set n v rest.
Proof.
  intros Hne. apply str_eqb_neq in Hne. cbn [searchParams_set]. rewrite Hne.
  reflexivity.
Qed.
End PageMoreFacts.

Section PageMore.
Context `{JsEngine}.
Variable network : jsstr -> FetchResult.

(** Extra X3.  When the answer to the request is a 2xx response whose body
    parses, the search ends with that payload as the results, no error, the
    spinner off, the requested upstream URL in the debug panel, one request
    issued and nothing logged. *)
Theorem search_success_displays_payload (inp : Inputs) (flag : bool)
    (b : Browser) (p enc : jsstr) (r : Response) (data : json) :
  apiPath_switch inp = inr p ->
  uri_component p = inr enc ->
  network (lit "/api/artwork?path=" ++ enc) = Resolves r ->
  ok r = true ->
  json_body r = inr data ->
  exists b',
    handleSearch network inp flag b = (inr tt, b')
    /\ results b' = Some data
    /\ error b' = None
    /\ loading b' = false
    /\ debugUrl b' = replace_trailing_slash (apiUrl inp) ++ p
    /\ requests b' = requests b ++ [lit "/api/artwork?path=" ++ enc]
    /\ console b' = console b.
Proof.
  intros Hp Henc Hnet Hok Hdata.
  rewrite handleSearch_ends, Hp, Henc. cbv zeta. rewrite Hnet.
  cbn [fetch_outcome]. rewrite (fetch_outcome_ok r data Hok Hdata).
  destruct (search_started_cleared inp flag b) as (_ & Herr & _ & Hreq).
  destruct (search_started_kept inp flag b) as (_ & _ & Hcon).
  eexists. split; [reflexivity|]. browser_fields.
  rewrite Herr, Hreq, Hcon. auto 10.
Qed.

(** Extra X4.  A required field that is not empty after trimming and holds
    an unpaired surrogate is reported with the message of the engine's
    [URIError]: no request is issued and no results are shown. *)
Theorem malformed_field_is_reported (inp : Inputs) (flag : bool) (b : Browser) :
  malformed_field inp ->
  exists b',
    handleSearch network inp flag b = (inr tt, b')
    /\ error b' = Some (builtin_message URIError_malformed)
    /\ results b' = None
    /\ requests b' = requests b.
Proof.
  intros Hm. apply malformed_field_throws in Hm.
  destruct (handleSearch_switch_throws network inp flag b _ Hm)
    as (b' & Hrun & Hres & _ & Herr & _ & Hreq).
  exists b'. auto.
Qed.

(** Extra X5.  When the body of the answer does not parse as JSON, the
    message of the parser's exception is shown and no results, whatever the
    status of the response. *)
Theorem unparseable_reply_is_reported (inp : Inputs) (flag : bool)
    (b : Browser) (p enc : jsstr) (r : Response) (e : exn) :
  apiPath_switch inp = inr p ->
  uri_component p = inr enc ->
  network (lit "/api/artwork?path=" ++ enc) = Resolves r ->
  json_body r = inl e ->
  exists b',
    handleSearch network inp flag b = (inr tt, b')
    /\ error b' = Some (displayed_message e)
    /\ results b' = None.
Proof.
  intros Hp Henc Hnet Hbody.
  destruct (handleSearch_dispatches network inp flag b p enc Hp Henc)
    as (b' & Hrun & _ & _ & _ & Hout).
  rewrite Hnet in Hout. cbn [fetch_outcome] in Hout.
  rewrite (fetch_outcome_unparsed r e Hbody) in Hout.
  exists b'. tauto.
Qed.

(** Extra X6.  After a non-ok response whose body is JSON but no object:
    for [null] the message of the engine's [TypeError] for reading [error]
    of [null] is shown; for a number, a string, a boolean or an array, which
    have no [error] and no [detail], "Failed to fetch results" is shown. *)
Theorem failure_body_without_fields (inp : Inputs) (flag : bool)
    (b : Browser) (p enc : jsstr) (r : Response) (data : json) :
  apiPath_switch inp = inr p ->
  uri_component p = inr enc ->
  network (lit "/api/artwork?path=" ++ enc) = Resolves r ->
  ok r = false ->
  json_body r = inr data ->
  (forall fields, data <> JObj fields) ->
  error (snd (handleSearch network inp flag b))
  = Some (match data with
          | JNull => builtin_message (TypeError_property_of_null (lit "error"))
          | _ => lit "Failed to fetch results"
          end).
Proof.
  intros Hp Henc Hnet Hok Hdata Hplain.
  destruct (handleSearch_dispatches network inp flag b p enc Hp Henc)
    as (b' & -> & _ & _ & _ & Hout).
  rewrite Hnet in Hout. unfold fetch_outcome, response_outcome in Hout.
  rewrite Hdata in Hout. exec_in Hout. rewrite Hok in Hout.
  destruct data as [| | | | |fields]; try apply Hout.
  destruct (Hplain fields eq_refl).
Qed.

(** Extra X7.  Every search ends with the spinner off, and with an error on
    display exactly when it logged the exception behind it: either no error
    and nothing logged, or the message of one exception, which is the one
    entry added to the console. *)
Theorem search_ends_idle (inp : Inputs) (flag : bool) (b : Browser) :
  exists b',
    handleSearch network inp flag b = (inr tt, b')
    /\ loading b' = false
    /\ ((error b' = None /\ console b' = console b)
        \/ exists e, error b' = Some (displayed_message e)
                     /\ results b' = None
                     /\ console b' = console b ++ [e]).
Proof.
  rewrite handleSearch_ends.
  destruct (search_started_cleared inp flag b) as (Hres & Herr & _ & _).
  destruct (search_started_kept inp flag b) as (_ & _ & Hcon).
  eexists. split; [reflexivity|].
  destruct (apiPath_switch inp) as [e | p].
  { browser_fields. rewrite Hcon, Hres. split; [reflexivity|]. right. eauto. }
  destruct (uri_component p) as [e | enc].
  { browser_fields. rewrite Hcon, Hres. split; [reflexivity|]. right. eauto. }
  cbv zeta. destruct (fetch_outcome _) as [e | data].
  - browser_fields. rewrite Hcon, Hres. split; [reflexivity|]. right. eauto.
  - browser_fields. rewrite Hcon, Herr. split; [reflexivity|]. left. auto.
Qed.

(** Extra X9.  An input the form does not show for the mode has no part in
    the search: two sets of inputs with the same API URL and mode that agree
    on the fields shown run the same search, address bar included. *)
Theorem hidden_inputs_are_ignored (inp inp' : Inputs) (flag : bool) (b : Browser) :
  apiUrl inp = apiUrl inp' ->
  queryType inp = queryType inp' ->
  (shows_searchQuery (queryType inp) = true -> searchQuery inp = searchQuery inp') ->
  (shows_artworkId (queryType inp) = true -> artworkId inp = artworkId inp') ->
  (shows_compareId (queryType inp) = true -> compareId inp = compareId inp') ->
  handleSearch network inp flag b = handleSearch network inp' flag b.
Proof.
  destruct inp as [a qt sq id cmp], inp' as [a' qt' sq' id' cmp'].
  cbn [apiUrl queryType searchQuery artworkId compareId].
  unfold shows_searchQuery, shows_artworkId, shows_compareId.
  intros <- <- Hsq Hid Hcmp.
  unfold handleSearch, handleSearch_try, updateUrl, apiPath_switch.
  cbn [apiUrl queryType searchQuery artworkId compareId].
  destruct (str_eqb qt (lit "semantic")); destruct (str_eqb qt (lit "nearest_neighbor"));
    destruct (str_eqb qt (lit "similarity")); cbn [orb] in Hid;
    try rewrite <- (Hsq eq_refl); try rewrite <- (Hid eq_refl);
    try rewrite <- (Hcmp eq_refl); reflexivity.
Qed.
End PageMore.

(* ===================================================================== *)
(** * Share links and the mount effect *)
(* ===================================================================== *)

Lemma searchParams_get_first n v rest :
  searchParams_get n ((n, v) :: rest) = Some v.
Proof.
  cbn [searchParams_get]. rewrite (proj2 (str_eqb_eq n n) eq_refl). reflexivity.
Qed.

Lemma searchParams_get_other n n0 v0 rest :
  n0 <> n -> searchParams_get n ((n0, v0) :: rest) = searchParams_get n rest.
Proof.
  intros Hne. apply str_eqb_neq in Hne. cbn [searchParams_get]. rewrite Hne.
  reflexivity.
Qed.

Ltac literal_names :=
  repeat first
    [ rewrite searchParams_get_first
    | rewrite searchParams_get_other by discriminate
    | rewrite searchParams_set_other by discriminate ].

Lemma updateUrl_writes `{JsEngine} inp b :
  pushed (snd (updateUrl inp b))
  = pushed b ++ [pathname b ++ lit "?" ++ searchParams_toString (written_params inp)].
Proof.
  unfold updateUrl, pushState, written_params. exec. cbn [snd pushed add_pushed].
  change (searchParams_set (lit "type") (queryType inp) [])
    with [(lit "type", queryType inp)].
  destruct (str_eqb (queryType inp) (lit "semantic") && str_truthy (searchQuery inp));
    destruct ((str_eqb (queryType inp) (lit "nearest_neighbor")
               || str_eqb (queryType inp) (lit "similarity"))
              && str_truthy (artworkId inp));
    destruct (str_eqb (queryType inp) (lit "similarity") && str_truthy (compareId inp));
    destruct (negb (str_eqb (apiUrl inp) defaultApiUrl));
    literal_names; reflexivity.
Qed.

Lemma written_params_get inp :
  searchParams_get (lit "type") (written_params inp) = Some (queryType inp)
  /\ searchParams_get (lit "q") (written_params inp)
     = (if str_eqb (queryType inp) (lit "semantic") && str_truthy (searchQuery inp)
        then Some (searchQuery inp) else None)
  /\ searchParams_get (lit "id") (written_params inp)
     = (if (str_eqb (queryType inp) (lit "nearest_neighbor")
            || str_eqb (queryType inp) (lit "similarity"))
           && str_truthy (artworkId inp)
        then Some (artworkId inp) else None)
  /\ searchParams_get (lit "compareId") (written_params inp)
     = (if str_eqb (queryType inp) (lit "similarity") && str_truthy (compareId inp)
        then Some (compareId inp) else None)
  /\ searchParams_get (lit "api") (written_params inp)
     = (if negb (str_eqb (apiUrl inp) defaultApiUrl)
        then Some (apiUrl inp) else None).
Proof.
  unfold written_params.
  destruct (str_eqb (queryType inp) (lit "semantic") && str_truthy (searchQuery inp));
    destruct ((str_eqb (queryType inp) (lit "nearest_neighbor")
               || str_eqb (queryType inp) (lit "similarity"))
              && str_truthy (artworkId inp));
    destruct (str_eqb (queryType inp) (lit "similarity") && str_truthy (compareId inp));
    destruct (negb (str_eqb (apiUrl inp) defaultApiUrl));
    cbn [app]; repeat split; literal_names; reflexivity.
Qed.

Lemma written_params_kept inp :
  kept_by_urls (apiUrl inp) -> kept_by_urls (queryType inp) ->
  kept_by_urls (searchQuery inp) -> kept_by_urls (artworkId inp) ->
  kept_by_urls (compareId inp) ->
  Forall (fun nv => kept_by_urls (fst nv) /\ kept_by_urls (snd nv))
    (written_params inp).
Proof.
  intros Ha Ht Hq Hid Hcmp. unfold written_params.
  assert (Hname : forall s, Forall (fun c => c < 128) (lit s) -> kept_by_urls (lit s))
    by (intros s; apply ascii_kept_by_urls).
  repeat (apply Forall_app; split);
    repeat match goal with
           | |- Forall _ (if ?c then _ else _) => destruct c
           end;
    try (constructor; [|constructor]); try constructor; cbn [fst snd];
    try assumption;
    apply ascii_kept_by_urls; repeat (constructor; [reflexivity|]); constructor.
Qed.

Lemma searchParams_toString_avoids params :
  Forall (fun c => c <> chr "#") (searchParams_toString params).
Proof.
  unfold searchParams_toString. apply join_Forall; [repeat constructor; discriminate|].
  apply Forall_map, Forall_forall. intros nv _.
  eapply Forall_impl; [apply serialized_pair_written|].
  intros c [Hc | ->]; [|discriminate]. intros ->. discriminate Hc.
Qed.

(** Loading the URL [updateUrl] pushed gives back the written parameters. *)
Lemma written_params_loaded `{JsEngine} origin inp b :
  Forall (fun c => c <> chr "?" /\ c <> chr "#") origin ->
  Forall (fun c => c <> chr "?" /\ c <> chr "#") (pathname b) ->
  kept_by_urls (apiUrl inp) -> kept_by_urls (queryType inp) ->
  kept_by_urls (searchQuery inp) -> kept_by_urls (artworkId inp) ->
  kept_by_urls (compareId inp) ->
  forall u, last (pushed (snd (updateUrl inp b))) = Some u ->
  URL_searchParams (origin ++ u) = written_params inp.
Proof.
  intros Ho Hp Ha Ht Hq Hid Hcmp u Hu.
  rewrite updateUrl_writes, last_snoc in Hu.
  assert (u = pathname b ++ lit "?" ++ searchParams_toString (written_params inp))
    as -> by congruence.
  unfold URL_searchParams.
  change (lit "?" ++ searchParams_toString (written_params inp))
    with (chr "?" :: searchParams_toString (written_params inp)).
  rewrite URL_query_of_written by (try assumption; apply searchParams_toString_avoids).
  apply urlencoded_parse_toString, written_params_kept; assumption.
Qed.

(** The inputs after the mount effect, field by field. *)
Lemma mount_effect_inputs params c :
  inputs (fst (mount_effect params c))
  = {| apiUrl := match searchParams_get (lit "api") params with
                 | Some (ch :: v) => ch :: v
                 | _ => apiUrl (inputs c)
                 end;
       queryType := match searchParams_get (lit "type") params with
                    | Some t => if str_truthy t && is_mode t then t
                                else queryType (inputs c)
                    | None => queryType (inputs c)
                    end;
       searchQuery := match searchParams_get (lit "q") params with
                      | Some (ch :: v) => ch :: v
                      | _ => searchQuery (inputs c)
                      end;
       artworkId := match searchParams_get (lit "id") params with
                    | Some (ch :: v) => ch :: v
                    | _ => artworkId (inputs c)
                    end;
       compareId := match searchParams_get (lit "compareId") params with
                    | Some (ch :: v) => ch :: v
                    | _ => compareId (inputs c)
                    end |}.
Proof.
  unfold mount_effect.
  generalize (searchParams_get (lit "api") params) as api.
  generalize (searchParams_get (lit "compareId") params) as cmp.
  generalize (searchParams_get (lit "id") params) as id.
  generalize (searchParams_get (lit "q") params) as query.
  generalize (searchParams_get (lit "type") params) as type.
  intros type query id cmp api. destruct c as [[a qt sq aid cid] shared].
  destruct type as [t|]; [destruct (str_truthy t && is_mode t)|];
    destruct query as [[|? ?]|]; destruct id as [[|? ?]|];
    destruct cmp as [[|? ?]|]; destruct api as [[|? ?]|]; reflexivity.
Qed.

(** The guard on [stateUpdated] never holds a search back: the search is
    scheduled exactly when [shouldRunSearch] holds. *)
Lemma mount_effect_scheduled params c :
  snd (mount_effect params c)
  = (param_is (searchParams_get (lit "type") params) (lit "semantic")
     && param_truthy (searchParams_get (lit "q") params))
    || (param_is (searchParams_get (lit "type") params) (lit "nearest_neighbor")
        && param_truthy (searchParams_get (lit "id") params))
    || (param_is (searchParams_get (lit "type") params) (lit "similarity")
        && param_truthy (searchParams_get (lit "id") params)
        && param_truthy (searchParams_get (lit "compareId") params)).
Proof.
  unfold mount_effect.
  generalize (searchParams_get (lit "api") params) as api.
  generalize (searchParams_get (lit "compareId") params) as cmp.
  generalize (searchParams_get (lit "id") params) as id.
  generalize (searchParams_get (lit "q") params) as query.
  generalize (searchParams_get (lit "type") params) as type.
  intros type query id cmp api.
  destruct query as [[|? ?]|]; destruct id as [[|? ?]|];
    destruct cmp as [[|? ?]|]; destruct api as [[|? ?]|];
    cbn [param_truthy andb orb snd];
    rewrite ?andb_false_r, ?andb_true_r, ?orb_false_r; cbn [orb];
    try reflexivity;
    (destruct type as [t|]; [|reflexivity]);
    unfold is_mode, param_is;
    destruct (str_eqb t (lit "semantic")) eqn:E1;
    destruct (str_eqb t (lit "nearest_neighbor")) eqn:E2;
    destruct (str_eqb t (lit "similarity")) eqn:E3;
    rewrite ?andb_false_r, ?andb_true_r; cbn [orb andb snd];
    try reflexivity;
    destruct (str_truthy t); reflexivity.
Qed.

Ltac decide_literals :=
  repeat match goal with
         | |- context [str_eqb (lit ?a) (lit ?b)] =>
             let v := eval vm_compute in (str_eqb (lit a) (lit b)) in
             change (str_eqb (lit a) (lit b)) with v
         | |- context [str_truthy (lit ?a)] =>
             let v := eval vm_compute in (str_truthy (lit a)) in
             change (str_truthy (lit a)) with v
         end.

Lemma mode_of_is_mode t : is_mode t = true <-> mode_of t.
Proof.
  unfold is_mode, mode_of. rewrite !orb_true_iff, !str_eqb_eq. tauto.
Qed.

Lemma mode_of_kept t : mode_of t -> kept_by_urls t /\ str_truthy t = true.
Proof.
  intros [-> | [-> | ->]]; (split; [|reflexivity]); apply ascii_kept_by_urls;
    repeat (constructor; [reflexivity|]); constructor.
Qed.

Lemma replace_trailing_slash_added a :
  replace_trailing_slash (a ++ [chr "/"]) = a.
Proof.
  induction a as [|c t IH]; [reflexivity|].
  cbn [app]. destruct (t ++ [chr "/"]) as [|d t'] eqn:Ht.
  { destruct t; discriminate Ht. }
  change (replace_trailing_slash (c :: d :: t'))
    with (c :: replace_trailing_slash (d :: t')).
  rewrite IH. reflexivity.
Qed.

Lemma replace_trailing_slash_none a :
  last a <> Some (chr "/") -> replace_trailing_slash a = a.
Proof.
  induction a as [|c t IH]; [reflexivity|]. intros Hlast.
  destruct t as [|d t'].
  - cbn [replace_trailing_slash]. destruct (c =? chr "/") eqn:Hc; [|reflexivity].
    apply N.eqb_eq in Hc. subst c. exfalso. apply Hlast. reflexivity.
  - change (replace_trailing_slash (c :: d :: t'))
      with (c :: replace_trailing_slash (d :: t')).
    rewrite IH; [reflexivity|]. exact Hlast.
Qed.

Lemma occurrences_app d s t :
  occurrences d (s ++ t) = (occurrences d s + occurrences d t)%nat.
Proof. unfold occurrences. rewrite List.filter_app, length_app. reflexivity. Qed.

Lemma occurrences_written d e :
  uri_written d = false -> Forall (fun c => uri_written c = true) e ->
  occurrences d e = 0%nat.
Proof.
  intros Hd He. unfold occurrences. induction He as [|c t Hc _ IH]; [reflexivity|].
  cbn [List.filter]. destruct (N.eqb_spec d c) as [-> | _]; [congruence | exact IH].
Qed.

Lemma uri_component_written s e :
  uri_component s = inr e -> Forall (fun c => uri_written c = true) e.
Proof.
  unfold uri_component. destruct (encodeURIComponent s) as [e'|] eqn:He; [|discriminate].
  intros Heq. assert (e = e') as -> by congruence.
  apply (encodeURIComponent_written _ _ He).
Qed.

Lemma serialized_names :
  urlencoded_serialize (lit "type") = lit "type"
  /\ urlencoded_serialize (lit "q") = lit "q"
  /\ urlencoded_serialize (lit "id") = lit "id"
  /\ urlencoded_serialize (lit "compareId") = lit "compareId"
  /\ urlencoded_serialize (lit "api") = lit "api".
Proof. repeat split; reflexivity. Qed.

Section MountFacts.
Context `{JsEngine}.
Variable network : jsstr -> FetchResult.

Lemma mount_effect_isSharedLink params c :
  isSharedLink (fst (mount_effect params c))
  = param_truthy (searchParams_get (lit "type") params)
    || param_truthy (searchParams_get (lit "q") params)
    || param_truthy (searchParams_get (lit "id") params)
    || param_truthy (searchParams_get (lit "compareId") params)
    || param_truthy (searchParams_get (lit "api") params).
Proof.
  unfold mount_effect.
  generalize (searchParams_get (lit "api") params) as api.
  generalize (searchParams_get (lit "compareId") params) as cmp.
  generalize (searchParams_get (lit "id") params) as id.
  generalize (searchParams_get (lit "q") params) as query.
  generalize (searchParams_get (lit "type") params) as type.
  intros type query id cmp api.
  destruct type as [t|]; [destruct (str_truthy t && is_mode t)|];
    destruct query as [[|? ?]|]; destruct id as [[|? ?]|];
    destruct cmp as [[|? ?]|]; destruct api as [[|? ?]|]; reflexivity.
Qed.

(** [runInitialSearch] and [handleSearch] differ in the switch, in the base
    URL and in the first clearing of the debug URL only. *)
Lemma runInitialSearch_as_handleSearch type query id cmp api inp b :
  runInitialSearch_switch type query id cmp = apiPath_switch inp ->
  match api with Some (ch :: v) => ch :: v | _ => defaultApiUrl end = apiUrl inp ->
  debugUrl b = [] ->
  runInitialSearch network type query id cmp api b
  = handleSearch network inp false b.
Proof.
  intros Hswitch Hbase Hdebug.
  unfold runInitialSearch, handleSearch, runInitialSearch_try, handleSearch_try.
  rewrite Hswitch, Hbase. page_setters. exec.
  destruct b as [res ld err dbg pn psh rq cs]. cbn [debugUrl] in Hdebug. subst dbg.
  reflexivity.
Qed.

Lemma apiPath_switch_with_apiUrl v inp :
  apiPath_switch (with_apiUrl v inp) = apiPath_switch inp.
Proof. reflexivity. Qed.
(** When the mount effect schedules a search, the [switch] of
    [runInitialSearch] on the raw parameters is the [switch] of
    [handleSearch] on the inputs the effect has set. *)
Lemma mount_switch_agrees params :
  snd (mount_effect params initial_component) = true ->
  runInitialSearch_switch
    (searchParams_get (lit "type") params) (searchParams_get (lit "q") params)
    (searchParams_get (lit "id") params) (searchParams_get (lit "compareId") params)
  = apiPath_switch (inputs (fst (mount_effect params initial_component))).
Proof.
  intros Hscheduled. rewrite mount_effect_scheduled in Hscheduled.
  rewrite mount_effect_inputs.
  cbn [initial_component inputs apiUrl queryType searchQuery artworkId compareId].
  revert Hscheduled.
  generalize (searchParams_get (lit "compareId") params) as cmp.
  generalize (searchParams_get (lit "id") params) as id.
  generalize (searchParams_get (lit "q") params) as query.
  generalize (searchParams_get (lit "type") params) as type.
  intros type query id cmp Hscheduled.
  unfold runInitialSearch_switch, apiPath_switch.
  cbn [apiUrl queryType searchQuery artworkId compareId].
  destruct type as [t|]; [|discriminate Hscheduled].
  unfold param_is in *.
  destruct (str_eqb t (lit "semantic")) eqn:E1.
  { apply str_eqb_eq in E1. subst t. decide_literals. cbn [andb orb] in Hscheduled |- *.
    destruct query as [[|ch q]|]; [discriminate Hscheduled | | discriminate Hscheduled].
    unfold is_mode. decide_literals. reflexivity. }
  destruct (str_eqb t (lit "nearest_neighbor")) eqn:E2.
  { apply str_eqb_eq in E2. subst t. decide_literals. cbn [andb orb] in Hscheduled |- *.
    destruct id as [[|ch v]|]; [discriminate Hscheduled | | discriminate Hscheduled].
    unfold is_mode. decide_literals. reflexivity. }
  destruct (str_eqb t (lit "similarity")) eqn:E3; [|discriminate Hscheduled].
  apply str_eqb_eq in E3. subst t. decide_literals. cbn [andb orb] in Hscheduled |- *.
  destruct id as [[|ch v]|]; [discriminate Hscheduled | | discriminate Hscheduled].
  destruct cmp as [[|ch' w]|]; [discriminate Hscheduled | | discriminate Hscheduled].
  unfold is_mode. decide_literals. reflexivity.
Qed.

Lemma mount_base_agrees params :
  match searchParams_get (lit "api") params with
  | Some (ch :: v) => ch :: v
  | _ => defaultApiUrl
  end = apiUrl (inputs (fst (mount_effect params initial_component))).
Proof. rewrite mount_effect_inputs. reflexivity. Qed.
End MountFacts.

Section MountPage.
Context `{JsEngine}.
Variable network : jsstr -> FetchResult.

(** Extra X8.  The address bar is written before the validation: a search
    called with the flag pushes one URL, also when the validation then
    rejects the inputs, and that URL is the path of the page followed by
    [?type=] and the mode, then [&q=], [&id=] and [&compareId=] with the
    fields the mode shows that are not empty, then [&api=] with the API URL
    when it is not the default one, each value serialized as a form value;
    a search called without the flag pushes nothing. *)
Theorem address_bar_written_before_validation (inp : Inputs) (b : Browser) :
  pushed (snd (handleSearch network inp true b))
  = pushed b
    ++ [pathname b ++ lit "?type=" ++ urlencoded_serialize (queryType inp)
        ++ (if str_eqb (queryType inp) (lit "semantic")
               && str_truthy (searchQuery inp)
            then lit "&q=" ++ urlencoded_serialize (searchQuery inp) else [])
        ++ (if (str_eqb (queryType inp) (lit "nearest_neighbor")
                || str_eqb (queryType inp) (lit "similarity"))
               && str_truthy (artworkId inp)
            then lit "&id=" ++ urlencoded_serialize (artworkId inp) else [])
        ++ (if str_eqb (queryType inp) (lit "similarity")
               && str_truthy (compareId inp)
            then lit "&compareId=" ++ urlencoded_serialize (compareId inp) else [])
        ++ (if negb (str_eqb (apiUrl inp) defaultApiUrl)
            then lit "&api=" ++ urlencoded_serialize (apiUrl inp) else [])]
  /\ pushed (snd (handleSearch network inp false b)) = pushed b.
Proof.
  assert (Hpushed : forall flag,
    pushed (snd (handleSearch network inp flag b))
    = pushed (search_started inp flag b)).
  { intros flag. rewrite handleSearch_ends. cbn [snd].
    destruct (apiPath_switch inp) as [e | p]; [reflexivity|].
    destruct (uri_component p) as [e | enc]; [reflexivity|]. cbv zeta.
    destruct (fetch_outcome _); reflexivity. }
  split; [|rewrite Hpushed; reflexivity].
  rewrite Hpushed. unfold search_started. rewrite updateUrl_writes.
  cbn [pushed pathname set_debugUrl set_error set_loading set_results].
  f_equal. f_equal. f_equal.
  unfold written_params, searchParams_toString.
  destruct serialized_names as (Htype & Hq & Hid & Hcmp & Hapi).
  destruct (str_eqb (queryType inp) (lit "semantic") && str_truthy (searchQuery inp));
    destruct ((str_eqb (queryType inp) (lit "nearest_neighbor")
               || str_eqb (queryType inp) (lit "similarity"))
              && str_truthy (artworkId inp));
    destruct (str_eqb (queryType inp) (lit "similarity") && str_truthy (compareId inp));
    destruct (negb (str_eqb (apiUrl inp) defaultApiUrl));
    cbn [app map join fst snd];
    rewrite ?Htype, ?Hq, ?Hid, ?Hcmp, ?Hapi, <- ?app_assoc, ?app_nil_r;
    reflexivity.
Qed.

(** Extra X10.  A share link restores the search.  Loading the URL that
    [updateUrl] pushed, with the mount effect starting from the initial
    state, gives the mode of the sharer, the same API path or validation
    failure, the fields the form shows for the mode, the API URL (the
    default one for an empty field), and the shared-link badge. *)
Theorem shared_link_restores_search (origin : jsstr) (inp : Inputs)
    (b : Browser) (u : jsstr) :
  Forall (fun c => c <> chr "?" /\ c <> chr "#") origin ->
  Forall (fun c => c <> chr "?" /\ c <> chr "#") (pathname b) ->
  mode_of (queryType inp) ->
  kept_by_urls (apiUrl inp) -> kept_by_urls (searchQuery inp) ->
  kept_by_urls (artworkId inp) -> kept_by_urls (compareId inp) ->
  last (pushed (snd (updateUrl inp b))) = Some u ->
  let c := fst (mount_effect (URL_searchParams (origin ++ u)) initial_component) in
  queryType (inputs c) = queryType inp
  /\ apiPath_switch (inputs c) = apiPath_switch inp
  /\ (shows_searchQuery (queryType inp) = true ->
      searchQuery (inputs c) = searchQuery inp)
  /\ (shows_artworkId (queryType inp) = true -> artworkId (inputs c) = artworkId inp)
  /\ (shows_compareId (queryType inp) = true -> compareId (inputs c) = compareId inp)
  /\ apiUrl (inputs c)
     = (if str_truthy (apiUrl inp) then apiUrl inp else defaultApiUrl)
  /\ isSharedLink c = true.
Proof.
  intros Ho Hp Hmode Ha Hq Hid Hcmp Hu.
  destruct (mode_of_kept _ Hmode) as [Ht Htruthy].
  rewrite (written_params_loaded origin inp b Ho Hp Ha Ht Hq Hid Hcmp u Hu).
  cbv zeta. rewrite mount_effect_inputs, mount_effect_isSharedLink.
  destruct (written_params_get inp) as (-> & -> & -> & -> & ->).
  cbn [initial_component inputs apiUrl queryType searchQuery artworkId compareId
       param_truthy].
  apply mode_of_is_mode in Hmode as Hismode. rewrite Htruthy, Hismode. cbn [andb].
  assert (Hapi :
    match (if negb (str_eqb (apiUrl inp) defaultApiUrl)
           then Some (apiUrl inp) else None) with
    | Some (ch :: v) => ch :: v
    | _ => defaultApiUrl
    end = (if str_truthy (apiUrl inp) then apiUrl inp else defaultApiUrl)).
  { destruct (str_eqb (apiUrl inp) defaultApiUrl) eqn:Hdefault; cbn [negb].
    - apply str_eqb_eq in Hdefault. rewrite Hdefault. reflexivity.
    - destruct (apiUrl inp); reflexivity. }
  rewrite Hapi. clear Hapi.
  unfold shows_searchQuery, shows_artworkId, shows_compareId, apiPath_switch.
  cbn [apiUrl queryType searchQuery artworkId compareId].
  destruct inp as [a qt sq id cmp].
  cbn [apiUrl queryType searchQuery artworkId compareId] in *.
  split; [reflexivity|].
  destruct (str_eqb qt (lit "semantic")) eqn:E1;
    destruct (str_eqb qt (lit "nearest_neighbor")) eqn:E2;
    destruct (str_eqb qt (lit "similarity")) eqn:E3;
    cbn [andb orb];
    destruct sq as [|? ?]; destruct id as [|? ?]; destruct cmp as [|? ?];
    cbn [str_truthy];
    (split; [reflexivity|]);
    (split; [intros; first [reflexivity | discriminate]|]);
    (split; [intros; first [reflexivity | discriminate]|]);
    (split; [intros; first [reflexivity | discriminate]|]);
    (split; [reflexivity|]);
    destruct qt; first [discriminate Htruthy | reflexivity].
Qed.

(** Extra X11.  The mount effect keeps the mode one of the three: a [type]
    parameter that is none of them is ignored, so a search run on the loaded
    inputs never ends in the error of an invalid search type. *)
Theorem mount_keeps_mode (params : list (jsstr * jsstr)) (c : Component) :
  mode_of (queryType (inputs c)) ->
  mode_of (queryType (inputs (fst (mount_effect params c))))
  /\ apiPath_switch (inputs (fst (mount_effect params c)))
     <> inl (Error (lit "Invalid search type")).
Proof.
  intros Hmode.
  assert (Hloaded : mode_of (queryType (inputs (fst (mount_effect params c))))).
  { rewrite mount_effect_inputs. cbn [queryType].
    destruct (searchParams_get (lit "type") params) as [t|]; [|exact Hmode].
    destruct (str_truthy t && is_mode t) eqn:Ht; [|exact Hmode].
    apply andb_true_iff in Ht. apply mode_of_is_mode, Ht. }
  split; [exact Hloaded|].
  generalize dependent (inputs (fst (mount_effect params c))). intros inp Hinp.
  unfold apiPath_switch, uri_component. exec.
  destruct Hinp as [-> | [-> | ->]]; decide_literals; cbv iota;
    repeat match goal with
           | |- context [if ?c then _ else _] => destruct c
           | |- context [match encodeURIComponent ?s with _ => _ end] =>
               destruct (encodeURIComponent s)
           end; discriminate.
Qed.

(** Extra X12.  The search the mount effect schedules is the search of the
    button on the loaded inputs, without the update of the address bar: on a
    page whose debug URL is empty, as it is at mount, [runInitialSearch] on
    the raw parameters and [handleSearch(false)] on the inputs the effect
    has set run alike. *)
Theorem scheduled_search_is_handleSearch (params : list (jsstr * jsstr))
    (b : Browser) :
  snd (mount_effect params initial_component) = true ->
  debugUrl b = [] ->
  scheduled_search network params b
  = handleSearch network (inputs (fst (mount_effect params initial_component)))
      false b.
Proof.
  intros Hscheduled Hdebug. unfold scheduled_search.
  apply runInitialSearch_as_handleSearch;
    [apply mount_switch_agrees, Hscheduled | apply mount_base_agrees | exact Hdebug].
Qed.

(** Extra X13.  The [handleSearch] of the second component is the one of the
    first without the update of the address bar, except for an empty API
    URL, for which it uses the default one. *)
Theorem second_page_search_agrees (inp : Inputs) (b : Browser) :
  Page2_handleSearch network inp b
  = handleSearch network
      (with_apiUrl (if str_truthy (apiUrl inp) then apiUrl inp else defaultApiUrl) inp)
      false b.
Proof.
  unfold Page2_handleSearch, handleSearch, Page2_handleSearch_try, handleSearch_try.
  rewrite apiPath_switch_with_apiUrl. reflexivity.
Qed.

(** Extra X14.  One trailing slash of the API URL is immaterial to the
    search: with and without it the run is the same, debug URL included. *)
Theorem trailing_slash_is_immaterial (inp : Inputs) (a : jsstr) (b : Browser) :
  last a <> Some (chr "/") ->
  handleSearch network (with_apiUrl (a ++ [chr "/"]) inp) false b
  = handleSearch network (with_apiUrl a inp) false b.
Proof.
  intros Hlast. unfold handleSearch, handleSearch_try.
  rewrite !apiPath_switch_with_apiUrl.
  cbn [with_apiUrl apiUrl].
  rewrite replace_trailing_slash_added, (replace_trailing_slash_none a Hlast).
  reflexivity.
Qed.

(** Extra X15.  The text of the inputs adds no delimiter to the API path:
    the path has the slashes and the question mark of its template and no
    [#] or [&], whatever the fields hold. *)
Theorem inputs_add_no_delimiters (inp : Inputs) (p : jsstr) :
  apiPath_switch inp = inr p ->
  occurrences (chr "/") p
  = (if str_eqb (queryType inp) (lit "semantic") then 4%nat
     else if str_eqb (queryType inp) (lit "nearest_neighbor") then 5%nat
          else 6%nat)
  /\ occurrences (chr "?") p
     = (if str_eqb (queryType inp) (lit "semantic")
           || str_eqb (queryType inp) (lit "nearest_neighbor")
        then 1%nat else 0%nat)
  /\ occurrences (chr "#") p = 0%nat
  /\ occurrences (chr "&") p = 0%nat.
Proof.
  unfold apiPath_switch. exec.
  destruct (str_eqb (queryType inp) (lit "semantic")).
  { destruct (negb _); [discriminate|].
    destruct (uri_component _) as [e | q] eqn:Hq; [discriminate|].
    intros Hp. assert (p = lit "/ai/v1/artworks/search?q=" ++ q) as -> by congruence.
    apply uri_component_written in Hq.
    rewrite !occurrences_app, !(occurrences_written _ q) by (reflexivity || assumption).
    repeat split; reflexivity. }
  destruct (str_eqb (queryType inp) (lit "nearest_neighbor")).
  { destruct (negb _); [discriminate|].
    destruct (uri_component _) as [e | id] eqn:Hid; [discriminate|].
    intros Hp.
    assert (p = lit "/ai/v1/artworks/" ++ id ++ lit "/nearest?limit=30") as ->
      by congruence.
    apply uri_component_written in Hid.
    rewrite !occurrences_app, !(occurrences_written _ id) by (reflexivity || assumption).
    repeat split; reflexivity. }
  destruct (str_eqb (queryType inp) (lit "similarity")); [|discriminate].
  destruct (_ || _); [discriminate|].
  destruct (uri_component (trim (artworkId inp))) as [e | id1] eqn:H1; [discriminate|].
  destruct (uri_component (trim (compareId inp))) as [e | id2] eqn:H2; [discriminate|].
  intros Hp.
  assert (p = lit "/ai/v1/artworks/" ++ id1 ++ lit "/similarity/" ++ id2) as ->
    by congruence.
  apply uri_component_written in H1, H2.
  rewrite !occurrences_app, !(occurrences_written _ id1), !(occurrences_written _ id2)
    by (reflexivity || assumption).
  repeat split; reflexivity.
Qed.
End MountPage.

Section RenderMore.
Context `{JsEngine}.
Variable network : jsstr -> FetchResult.

(** Extra X16.  The render maps over arrays only.  For an object payload
    with an [items] key the grid gets the elements of [items] when it is an
    array and no element when it is [null]; without that key the score list
    gets the elements of [similarity_scores] when it is an array; in every
    other case the [map] call throws. *)
Theorem render_maps_arrays_only (fields : gmap (list N) json) (l : list json) :
  mapped_list (render_results (Some (JObj fields))) = Some (inr l)
  <-> match fields !! lit "items" with
      | Some i => i = JArr l \/ (i = JNull /\ l = [])
      | None => fields !! lit "similarity_scores" = Some (JArr l)
      end.
Proof.
  unfold render_results. cbn [ToBoolean negb HasProperty Get].
  destruct (fields !! lit "items") as [i|] eqn:Hitems.
  - rewrite bool_decide_eq_true_2 by eauto. cbn [mapped_list optional_map_call].
    destruct i; split; try (intros [Hi | [Hi Hl]]); try intros Hi;
      try discriminate; try congruence;
      first [left; congruence | right; split; [reflexivity | congruence]].
  - rewrite bool_decide_eq_false_2 by (intros [? ?]; discriminate).
    cbn [mapped_list map_call].
    destruct (fields !! lit "similarity_scores") as [[]|]; cbn [map_call];
      split; intros Hl; try discriminate; congruence.
Qed.

(** Extra X17.  A search sends at most one request, and only to the proxy of
    its own origin: the URL is [/api/artwork?path=] followed by characters
    [encodeURIComponent] writes, whatever the inputs hold. *)
Theorem search_requests_proxy_only (inp : Inputs) (flag : bool) (b : Browser) :
  requests (snd (handleSearch network inp flag b)) = requests b
  \/ exists enc,
       requests (snd (handleSearch network inp flag b))
       = requests b ++ [lit "/api/artwork?path=" ++ enc]
       /\ Forall (fun c => uri_written c = true) enc.
Proof.
  rewrite handleSearch_ends. cbn [snd].
  destruct (search_started_cleared inp flag b) as (_ & _ & _ & Hreq).
  destruct (apiPath_switch inp) as [e | p].
  { left. browser_fields. exact Hreq. }
  destruct (uri_component p) as [e | enc] eqn:Henc.
  { left. browser_fields. exact Hreq. }
  right. exists enc. split; [|apply (uri_component_written _ _ Henc)].
  cbv zeta. destruct (fetch_outcome _); browser_fields; rewrite Hreq; reflexivity.
Qed.
End RenderMore.

Section OtherSearches.
Context `{JsEngine}.
Variable upstream : Outbound -> FetchResult.
Variable authorization : jsstr.

(** A search served by the route, once its path is built. *)
Lemma handleSearch_served origin inp flag b p :
  Forall (fun c => c <> chr "?" /\ c <> chr "#") origin ->
  apiPath_switch inp = inr p ->
  error (snd (handleSearch (served_by_route origin upstream authorization)
                inp flag b))
  = Some (lit "API URL is required")
  /\ results (snd (handleSearch (served_by_route origin upstream authorization)
                     inp flag b)) = None.
Proof.
  intros Ho Hp. destruct (apiPath_encodes _ _ Hp) as (Hne & enc & Henc & He & Hdec).
  destruct (GET_path_only upstream authorization origin enc p idle_server
              Ho He Hdec Hne) as (_ & _ & Hget).
  destruct (handleSearch_dispatches
              (served_by_route origin upstream authorization)
              inp flag b p _ Hp Henc) as (b' & -> & _ & _ & _ & Hout).
  unfold served_by_route in Hout. rewrite Hget in Hout.
  cbn [fetch_outcome nr_status nr_body] in Hout.
  rewrite (response_outcome_error_payload _ (lit "API URL is required"))
    in Hout; [|reflexivity | reflexivity | discriminate].
  destruct Hout as [Hres Herr]. split; [exact Herr | exact Hres].
Qed.

(** Extra X19.  The other two searches of the page send the path alone as
    well.  Served by the route, the search of the second component and the
    search scheduled at mount end, once their path is built, with "API URL
    is required" on display and no results. *)
Theorem other_searches_lack_apiUrl (origin : jsstr) (inp : Inputs)
    (params : list (jsstr * jsstr)) (b : Browser) (p p' : jsstr) :
  Forall (fun c => c <> chr "?" /\ c <> chr "#") origin ->
  apiPath_switch inp = inr p ->
  snd (mount_effect params initial_component) = true ->
  apiPath_switch (inputs (fst (mount_effect params initial_component))) = inr p' ->
  debugUrl b = [] ->
  (error (snd (Page2_handleSearch (served_by_route origin upstream authorization)
                 inp b))
   = Some (lit "API URL is required")
   /\ results (snd (Page2_handleSearch (served_by_route origin upstream authorization)
                      inp b)) = None)
  /\ (error (snd (scheduled_search (served_by_route origin upstream authorization)
                    params b))
      = Some (lit "API URL is required")
      /\ results (snd (scheduled_search
                         (served_by_route origin upstream authorization)
                         params b)) = None).
Proof.
  intros Ho Hswitch Hscheduled Hswitch' Hdebug.
  split.
  - change (Page2_handleSearch (served_by_route origin upstream authorization) inp b)
      with (handleSearch (served_by_route origin upstream authorization)
              (with_apiUrl
                 (if str_truthy (apiUrl inp) then apiUrl inp else defaultApiUrl) inp)
              false b).
    apply (handleSearch_served origin _ false b p Ho).
    rewrite apiPath_switch_with_apiUrl. exact Hswitch.
  - unfold scheduled_search.
    rewrite (runInitialSearch_as_handleSearch _ _ _ _ _ _
               (inputs (fst (mount_effect params initial_component))) b
               (mount_switch_agrees params Hscheduled) (mount_base_agrees params)
               Hdebug).
    apply (handleSearch_served origin _ false b p' Ho Hswitch').
Qed.
End OtherSearches.

(** ** The further properties on concrete searches *)

Ltac ascii_string :=
  apply ascii_kept_by_urls; repeat (constructor; [reflexivity|]); constructor.

Ltac plain_origin :=
  repeat (constructor; [split; discriminate|]); constructor.

Section MoreScenarioFacts.
#[local] Existing Instance example_engine.

Lemma broken_search_is_malformed : malformed_field broken_search.
Proof.
  apply query_malformed; [reflexivity | vm_compute; discriminate | reflexivity].
Defined.

Lemma cafe_query_kept : kept_by_urls (lit "blue caf" ++ [233]).
Proof.
  split.
  - repeat (constructor; [reflexivity|]). constructor.
  - reflexivity.
Defined.

Lemma proxy_calls_base_then_path_witness :
  outbound (snd (GET upstream_404 demo_authorization
                   {| url := documented_url dev_origin
                               (lit "https%3A%2F%2Fapi-test.artic.edu")
                               (lit "%2Fai%2Fv1%2Fartworks%2F1%2Fsimilarity%2F2") |}
                   idle_server))
  = outbound idle_server
    ++ [upstream_call demo_authorization (lit "https://api-test.artic.edu")
          (lit "/ai/v1/artworks/1/similarity/2")].
Proof.
  apply (proxy_calls_base_then_path upstream_404 demo_authorization dev_origin
           (lit "https://api-test.artic.edu") (lit "/ai/v1/artworks/1/similarity/2")).
  - plain_origin.
  - ascii_string.
  - ascii_string.
  - discriminate.
  - discriminate.
  - vm_compute. reflexivity.
  - vm_compute. reflexivity.
Defined.

Lemma search_success_displays_payload_witness :
  results (snd (handleSearch (network_answering 200 (inr empty_list))
                  cats_search true showing_results)) = Some empty_list
  /\ error (snd (handleSearch (network_answering 200 (inr empty_list))
                   cats_search true showing_results)) = None
  /\ loading (snd (handleSearch (network_answering 200 (inr empty_list))
                     cats_search true showing_results)) = false.
Proof.
  destruct (search_success_displays_payload
              (network_answering 200 (inr empty_list)) cats_search true
              showing_results _ _ {| status := 200; json_body := inr empty_list |}
              empty_list cats_path_built cats_path_encoded eq_refl eq_refl eq_refl)
    as (b' & -> & Hres & Herr & Hload & _).
  auto.
Defined.

Lemma malformed_field_is_reported_witness :
  error (snd (handleSearch (network_answering 200 (inr empty_list))
                broken_search true showing_results))
    = Some (builtin_message URIError_malformed)
  /\ requests (snd (handleSearch (network_answering 200 (inr empty_list))
                      broken_search true showing_results)) = [].
Proof.
  destruct (malformed_field_is_reported
              (network_answering 200 (inr empty_list)) broken_search true
              showing_results broken_search_is_malformed)
    as (b' & -> & Herr & _ & Hreq).
  auto.
Defined.

Lemma unparseable_reply_is_reported_witness :
  error (snd (handleSearch
                (network_answering 200 (inl (Error (lit "Unexpected end of JSON input"))))
                cats_search true showing_results))
    = Some (lit "Unexpected end of JSON input")
  /\ results (snd (handleSearch
                     (network_answering 200
                        (inl (Error (lit "Unexpected end of JSON input"))))
                     cats_search true showing_results)) = None.
Proof.
  destruct (unparseable_reply_is_reported
              (network_answering 200 (inl (Error (lit "Unexpected end of JSON input"))))
              cats_search true showing_results _ _
              {| status := 200;
                 json_body := inl (Error (lit "Unexpected end of JSON input")) |}
              (Error (lit "Unexpected end of JSON input"))
              cats_path_built cats_path_encoded eq_refl eq_refl)
    as (b' & -> & Herr & Hres).
  auto.
Defined.

Lemma failure_body_without_fields_witness :
  error (snd (handleSearch (network_answering 502 (inr JNull))
                cats_search true showing_results))
  = Some (builtin_message (TypeError_property_of_null (lit "error"))).
Proof.
  apply (failure_body_without_fields (network_answering 502 (inr JNull))
           cats_search true showing_results _ _
           {| status := 502; json_body := inr JNull |} JNull
           cats_path_built cats_path_encoded eq_refl eq_refl eq_refl).
  discriminate.
Defined.

Lemma hidden_inputs_are_ignored_witness :
  handleSearch (network_answering 200 (inr empty_list))
    cats_search true showing_results
  = handleSearch (network_answering 200 (inr empty_list))
      cats_search_after_neighbours true showing_results.
Proof.
  apply (hidden_inputs_are_ignored (network_answering 200 (inr empty_list))
           cats_search cats_search_after_neighbours true showing_results).
  - reflexivity.
  - reflexivity.
  - reflexivity.
  - intros Hshown. vm_compute in Hshown. discriminate Hshown.
  - reflexivity.
Defined.

Lemma cafe_link_pushed :
  last (pushed (snd (updateUrl cafe_search showing_results)))
  = Some (lit "/?type=semantic&q=blue+caf%C3%A9&api=https%3A%2F%2Fexample.org%2Fapi%2F").
Proof. vm_compute. reflexivity. Defined.

Lemma shared_link_restores_search_witness :
  let c :=
    fst (mount_effect
           (URL_searchParams
              (dev_origin
               ++ lit "/?type=semantic&q=blue+caf%C3%A9&api=https%3A%2F%2Fexample.org%2Fapi%2F"))
           initial_component) in
  queryType (inputs c) = lit "semantic"
  /\ searchQuery (inputs c) = lit "blue caf" ++ [233]
  /\ apiUrl (inputs c) = lit "https://example.org/api/"
  /\ isSharedLink c = true.
Proof.
  pose proof (shared_link_restores_search dev_origin cafe_search showing_results
                _ ltac:(plain_origin) ltac:(plain_origin)
                (or_introl eq_refl) ltac:(ascii_string) cafe_query_kept
                ltac:(ascii_string) ltac:(ascii_string) cafe_link_pushed)
    as (Htype & _ & Hquery & _ & _ & Hapi & Hshared).
  cbv zeta.
  split; [exact Htype | split; [exact (Hquery eq_refl) | split; [exact Hapi | exact Hshared]]].
Defined.

Lemma mount_keeps_mode_witness :
  mode_of (queryType (inputs (fst (mount_effect bogus_link initial_component)))).
Proof.
  apply (mount_keeps_mode bogus_link initial_component). left. reflexivity.
Defined.

Lemma scheduled_search_is_handleSearch_witness :
  scheduled_search (network_answering 200 (inr empty_list)) cats_link mounted_page
  = handleSearch (network_answering 200 (inr empty_list))
      (inputs (fst (mount_effect cats_link initial_component))) false mounted_page.
Proof.
  apply (scheduled_search_is_handleSearch (network_answering 200 (inr empty_list))
           cats_link mounted_page).
  - vm_compute. reflexivity.
  - reflexivity.
Defined.

Lemma trailing_slash_is_immaterial_witness :
  handleSearch (network_answering 200 (inr empty_list))
    (with_apiUrl (defaultApiUrl ++ [chr "/"]) cats_search) false showing_results
  = handleSearch (network_answering 200 (inr empty_list))
      (with_apiUrl defaultApiUrl cats_search) false showing_results.
Proof.
  apply (trailing_slash_is_immaterial (network_answering 200 (inr empty_list))
           cats_search defaultApiUrl showing_results).
  vm_compute. discriminate.
Defined.

Lemma inputs_add_no_delimiters_witness :
  occurrences (chr "/") (lit "/ai/v1/artworks/search?q=cats") = 4%nat
  /\ occurrences (chr "?") (lit "/ai/v1/artworks/search?q=cats") = 1%nat
  /\ occurrences (chr "#") (lit "/ai/v1/artworks/search?q=cats") = 0%nat
  /\ occurrences (chr "&") (lit "/ai/v1/artworks/search?q=cats") = 0%nat.
Proof.
  exact (inputs_add_no_delimiters cats_search _ cats_path_built).
Defined.
Lemma other_searches_lack_apiUrl_witness :
  (error (snd (Page2_handleSearch
                 (served_by_route dev_origin upstream_404 demo_authorization)
                 cats_search mounted_page))
   = Some (lit "API URL is required")
   /\ results (snd (Page2_handleSearch
                      (served_by_route dev_origin upstream_404 demo_authorization)
                      cats_search mounted_page)) = None)
  /\ (error (snd (scheduled_search
                    (served_by_route dev_origin upstream_404 demo_authorization)
                    cats_link mounted_page))
      = Some (lit "API URL is required")
      /\ results (snd (scheduled_search
                         (served_by_route dev_origin upstream_404 demo_authorization)
                         cats_link mounted_page)) = None).
Proof.
  apply (other_searches_lack_apiUrl upstream_404 demo_authorization dev_origin
           cats_search cats_link mounted_page
           (lit "/ai/v1/artworks/search?q=cats") (lit "/ai/v1/artworks/search?q=cats")).
  - plain_origin.
  - exact cats_path_built.
  - vm_compute. reflexivity.
  - vm_compute. reflexivity.
  - reflexivity.
Defined.
End MoreScenarioFacts.
